(** * pyscan: position generators, EPICS writer and bsread reader

    A shallow embedding of [pyscan/positioner.py], [pyscan/utils.py] and
    [pyscan/dal/bsread_dal.py].

    Numbers.  The source computes with Python [int] and [float].  Coordinates,
    step sizes, tolerances and time stamps are embedded as exact rationals
    ([Qc], canonical fractions with Leibniz equality); counters, pass numbers,
    directions and time stamp fields are [Z].  Binary rounding of [float] is
    not modelled: the concrete sequences below only involve small integers,
    on which [float] arithmetic is exact, and a theorem that states
    coordinate values for arbitrary inputs is a statement about exact
    arithmetic.

    Generators.  A Python generator is embedded as the finite list of the
    values it yields together with the way it terminates (normal return or a
    raised exception): the [gen] monad.  Local variables that the generator
    body rebinds or updates in place are passed explicitly. *)

From Stdlib Require Import ZArith QArith Qcanon Qround Qcabs String Lia.
From stdpp Require Import base list numbers strings gmap.

Set Default Proof Using "Type".
Local Open Scope Z_scope.

(** ** Python runtime *)

Inductive exn : Type :=
  | AttributeError
  | IndexError
  | KeyError
  | TypeError
  | ZeroDivisionError
  | ValueError
  | RuntimeError
  | GenericException.

Inductive result (A : Type) : Type :=
  | Ok (a : A)
  | Raise (e : exn).
Arguments Ok {A} a.
Arguments Raise {A} e.

Definition rbind {A B : Type} (r : result A) (k : A -> result B) : result B :=
  match r with
  | Ok a => k a
  | Raise e => Raise e
  end.

(** The values a caller may pass where the source inspects a run-time type
    ([isinstance(steps[0], int)] and friends). *)
Inductive pyval : Type :=
  | PyInt (n : Z)
  | PyFloat (x : Qc)
  | PyStr (s : string)
  | PyNone.

(** [obj.attr] for an attribute that [__init__] may have left unset. *)
Definition getattr {A : Type} (a : option A) : result A :=
  match a with
  | Some v => Ok v
  | None => Raise AttributeError
  end.

(** [l[i]] for a non-negative index. *)
Definition getitem {A : Type} (l : list A) (i : nat) : result A :=
  match l !! i with
  | Some v => Ok v
  | None => Raise IndexError
  end.

(** [l[i] = v] for a non-negative index. *)
Definition setitem {A : Type} (l : list A) (i : nat) (v : A) : result (list A) :=
  if decide (i < length l)%nat then Ok (<[i := v]> l) else Raise IndexError.

(** A list comprehension whose element expression may raise. *)
Fixpoint mapM {A B : Type} (f : A -> result B) (l : list A) : result (list B) :=
  match l with
  | [] => Ok []
  | a :: l' => rbind (f a) (fun b => rbind (mapM f l') (fun bs => Ok (b :: bs)))
  end.

(** [bool(x)] of a list given as an optional argument: [None] and [[]] are falsy. *)
Definition truthy_list {A : Type} (o : option (list A)) : bool :=
  match o with
  | Some (_ :: _) => true
  | _ => false
  end.

Fixpoint str_repeat (n : nat) (s : string) : string :=
  match n with
  | O => EmptyString
  | S n' => append s (str_repeat n' s)
  end.

(** An [int] used as a number. *)
Definition qz (n : Z) : Qc := Q2Qc (inject_Z n).

(** [number + s] *)
Definition py_add (p : Qc) (s : pyval) : result Qc :=
  match s with
  | PyInt k => Ok (p + Q2Qc (inject_Z k))%Qc
  | PyFloat x => Ok (p + x)%Qc
  | PyStr _ | PyNone => Raise TypeError
  end.

(** [isinstance(s, (int, float))] *)
Definition is_number (s : pyval) : bool :=
  match s with
  | PyInt _ | PyFloat _ => true
  | PyStr _ | PyNone => false
  end.

(** [s * d] for an integer [d] *)
Definition py_mul_int (s : pyval) (d : Z) : result pyval :=
  match s with
  | PyInt k => Ok (PyInt (k * d))
  | PyFloat x => Ok (PyFloat (x * Q2Qc (inject_Z d))%Qc)
  | PyStr t => Ok (PyStr (str_repeat (Z.to_nat d) t))
  | PyNone => Raise TypeError
  end.

(** [number / s] (true division) *)
Definition py_div (a : Qc) (s : pyval) : result Qc :=
  match s with
  | PyInt k => if decide (k = 0) then Raise ZeroDivisionError
               else Ok (a / Q2Qc (inject_Z k))%Qc
  | PyFloat x => if decide (x = Q2Qc 0) then Raise ZeroDivisionError
                 else Ok (a / x)%Qc
  | PyStr _ | PyNone => Raise TypeError
  end.

(** [math.floor] *)
Definition py_floor (x : Qc) : Z := Qfloor (this x).

(** [range(n)] needs an [int]. *)
Definition as_index (v : pyval) : result Z :=
  match v with
  | PyInt n => Ok n
  | _ => Raise TypeError
  end.

(** Three-way [zip]. *)
Definition zip3 {A B C : Type} (la : list A) (lb : list B) (lc : list C)
  : list (A * B * C) := zip (zip la lb) lc.

(** ** Generators *)

Definition gen (Y A : Type) : Type := (list Y * result A)%type.

Definition gret {Y A : Type} (a : A) : gen Y A := ([], Ok a).

Definition gbind {Y A B : Type} (m : gen Y A) (k : A -> gen Y B) : gen Y B :=
  match m with
  | (ys, Ok a) => let '(zs, r) := k a in (ys ++ zs, r)
  | (ys, Raise e) => (ys, Raise e)
  end.

Definition yield {Y : Type} (y : Y) : gen Y unit := ([y], Ok tt).

Definition lift {Y A : Type} (r : result A) : gen Y A := ([], r).

Notation "'let*' x ':=' m 'in' k" := (gbind m (fun x => k))
  (at level 10, x name, m at level 100, k at level 200).
Notation "'do' m 'in' k" := (gbind m (fun _ => k))
  (at level 10, m at level 100, k at level 200).

(** [for i in range(...)] with the loop body threading the local variables
    [a]; [i] starts at [i0] and the body runs [n] times. *)
Fixpoint for_loop {Y A : Type} (n : nat) (i0 : Z) (body : Z -> A -> gen Y A)
    (a : A) : gen Y A :=
  match n with
  | O => gret a
  | S n' => let* a' := body i0 a in for_loop n' (i0 + 1) body a'
  end.

(** [for i in range(stop)]: no iteration when [stop <= 0]. *)
Definition for_range {Y A : Type} (stop : Z) (body : Z -> A -> gen Y A)
    (a : A) : gen Y A :=
  for_loop (Z.to_nat stop) 0 body a.

(** The values yielded, and how the generator ended. *)
Definition yielded {Y A : Type} (g : gen Y A) : list Y := fst g.
Definition outcome {Y A : Type} (g : gen Y A) : result A := snd g.

(** ** positioner.py *)

(** Position vectors *)
Abbreviation vec := (list Qc).

(** [[offset + v for v, offset in zip(values, offsets)]], applied when
    [offsets] is truthy. *)
Definition add_offsets (values : vec) (offsets : option vec) : vec :=
  match offsets with
  | Some os => if truthy_list offsets
               then zip_with (fun v o => (o + v)%Qc) values os
               else values
  | None => values
  end.

Module LinearPositioner.

Record t : Type := mk {
  offsets : option vec;
  passes : Z;
  end_ : vec;
  start : vec;
  n_steps : option Z;
  step_size : option (list pyval)
}.

Definition init (start0 end0 : vec) (steps : list pyval) (passes0 : Z)
    (offsets0 : option vec) : result t :=
  let start1 := add_offsets start0 offsets0 in
  let end1 := add_offsets end0 offsets0 in
  rbind (getitem steps 0) (fun s0 =>
  match s0 with
  | PyInt n =>
      rbind (mapM (fun '(s, e, st) => py_div (e - s)%Qc st)
                  (zip3 start1 end1 steps)) (fun sizes =>
      Ok (mk offsets0 passes0 end1 start1 (Some n)
             (Some (map PyFloat sizes))))
  | PyFloat x =>
      rbind (getitem end0 0) (fun e0 =>
      rbind (getitem start0 0) (fun b0 =>
      rbind (py_div (e0 - b0)%Qc s0) (fun q =>
      Ok (mk offsets0 passes0 end1 start1 (Some (py_floor q))
             (Some steps)))))
  | PyStr _ | PyNone =>
      Ok (mk offsets0 passes0 end1 start1 None None)
  end).

(** [[position + step_size for position, step_size in zip(...)]] *)
Definition advance (current : vec) (sizes : list pyval) : result vec :=
  mapM (fun '(p, s) => py_add p s) (zip current sizes).

Definition get_generator (self : t) : gen vec unit :=
  for_range (passes self) (fun _ _ =>
    let current_positions := start self in
    do yield current_positions in
    let* n := lift (getattr (n_steps self)) in
    do for_range n (fun _ current_positions =>
         let* sizes := lift (getattr (step_size self)) in
         let* current_positions := lift (advance current_positions sizes) in
         do yield current_positions in
         gret current_positions) current_positions in
    gret tt) tt.

End LinearPositioner.

Module ZigZagLinearPositioner.
Import LinearPositioner.

(** [1 if pass_number % 2 == 0 else -1] *)
Definition direction_of (pass_number : Z) : Z :=
  if decide (pass_number mod 2 = 0) then 1 else -1.

(** [[position + (step_size * direction) for position, step_size in zip(...)]] *)
Definition advance (direction : Z) (current : vec) (sizes : list pyval)
    : result vec :=
  mapM (fun '(p, s) => rbind (py_mul_int s direction) (py_add p))
       (zip current sizes).

Definition get_generator (self : t) : gen vec unit :=
  let current_positions := start self in
  do yield current_positions in
  do for_range (passes self) (fun pass_number current_positions =>
       let direction := direction_of pass_number in
       let* n := lift (getattr (n_steps self)) in
       for_range n (fun _ current_positions =>
         let* sizes := lift (getattr (step_size self)) in
         let* current_positions :=
           lift (advance direction current_positions sizes) in
         do yield current_positions in
         gret current_positions) current_positions) current_positions in
  gret tt.

(** In [l], every vector is obtained from the one before it ([prev] for
    the first) by one step in the direction [dir k]. *)
Definition chained (dir : nat -> Z) (sizes : list pyval) (prev : vec)
    (l : list vec) : Prop :=
  forall k a b, (prev :: l) !! k = Some a -> l !! k = Some b ->
                advance (dir k) a sizes = Ok b.

End ZigZagLinearPositioner.

Module AreaPositioner.

Record t : Type := mk {
  offsets : option vec;
  passes : Z;
  end_ : vec;
  start : vec;
  n_axis : nat;
  n_steps : option (list pyval);
  step_size : option (list pyval)
}.

Definition init (start0 end0 : vec) (steps : list pyval) (passes0 : Z)
    (offsets0 : option vec) : result t :=
  let n_axis0 := length start0 in
  let start1 := add_offsets start0 offsets0 in
  let end1 := add_offsets end0 offsets0 in
  rbind (getitem steps 0) (fun s0 =>
  match s0 with
  | PyInt _ =>
      rbind (mapM (fun '(s, e, st) => py_div (e - s)%Qc st)
                  (zip3 start1 end1 steps)) (fun sizes =>
      Ok (mk offsets0 passes0 end1 start1 n_axis0 (Some steps)
             (Some (map PyFloat sizes))))
  | PyFloat _ =>
      rbind (mapM (fun '(s, e, st) =>
                     rbind (py_div (e - s)%Qc st) (fun q => Ok (py_floor q)))
                  (zip3 start1 end1 steps)) (fun counts =>
      Ok (mk offsets0 passes0 end1 start1 n_axis0 (Some (map PyInt counts))
             (Some steps)))
  | PyStr _ | PyNone =>
      Ok (mk offsets0 passes0 end1 start1 n_axis0 None None)
  end).

(** An object as [__init__] builds it from a step count or a step size
    per axis, for [start], [end] and [steps] of one length: [counts] are
    its numbers of steps and [sizes] its step sizes. *)
Definition well_formed (self : t) (counts : list Z) (sizes : list pyval)
    : Prop :=
  n_steps self = Some (map PyInt counts) /\
  step_size self = Some sizes /\
  Forall (fun s => is_number s = true) sizes /\
  length counts = n_axis self /\
  length sizes = n_axis self /\
  length (start self) = n_axis self.

(** [range(self.n_steps[axis_number])] *)
Definition axis_steps (self : t) (axis_number : nat) : result Z :=
  rbind (getattr (n_steps self)) (fun counts =>
  rbind (getitem counts axis_number) as_index).

(** The nested generator [scan_axis], closed over [self] and the list
    [positions] that it updates in place.  [remaining] is
    [self.n_axis - axis_number]: the source returns at once when
    [not axis_number < self.n_axis], that is when [remaining] is [0]. *)
Fixpoint scan_axis (self : t) (remaining axis_number : nat) (positions : vec)
    : gen vec vec :=
  match remaining with
  | O => gret positions
  | S remaining' =>
      let* positions := scan_axis self remaining' (axis_number + 1) positions in
      let* n := lift (axis_steps self axis_number) in
      let* positions :=
        for_range n (fun _ positions =>
          let* p := lift (getitem positions axis_number) in
          let* sizes := lift (getattr (step_size self)) in
          let* s := lift (getitem sizes axis_number) in
          let* v := lift (py_add p s) in
          let* positions := lift (setitem positions axis_number v) in
          do yield positions in
          scan_axis self remaining' (axis_number + 1) positions) positions in
      let* s0 := lift (getitem (start self) axis_number) in
      lift (setitem positions axis_number s0)
  end.

Definition get_generator (self : t) : gen vec unit :=
  for_range (passes self) (fun _ _ =>
    let positions := start self in
    do yield positions in
    do scan_axis self (n_axis self) 0 positions in
    gret tt) tt.

End AreaPositioner.

Module ZigZagAreaPositioner.
Import AreaPositioner.

(** The two lists the nested generator updates in place. *)
Record frame : Type := mkframe {
  directions : list Z;
  positions : vec
}.

Fixpoint scan_axis (self : t) (remaining axis_number : nat) (fr : frame)
    : gen vec frame :=
  match remaining with
  | O => gret fr
  | S remaining' =>
      let* fr := scan_axis self remaining' (axis_number + 1) fr in
      let* n := lift (axis_steps self axis_number) in
      let* fr :=
        for_range n (fun _ fr =>
          let* p := lift (getitem (positions fr) axis_number) in
          let* sizes := lift (getattr (step_size self)) in
          let* s := lift (getitem sizes axis_number) in
          let* d := lift (getitem (directions fr) axis_number) in
          let* sd := lift (py_mul_int s d) in
          let* v := lift (py_add p sd) in
          let* positions' := lift (setitem (positions fr) axis_number v) in
          let fr := mkframe (directions fr) positions' in
          do yield (positions fr) in
          scan_axis self remaining' (axis_number + 1) fr) fr in
      let* d := lift (getitem (directions fr) axis_number) in
      let* directions' := lift (setitem (directions fr) axis_number (d * -1)) in
      gret (mkframe directions' (positions fr))
  end.

(** One iteration of [for pass_number in range(self.passes)]; it returns
    the two lists as they are when [scan_axis(0)] starts and when it has
    finished. *)
Definition scan_pass (self : t) : gen vec (frame * frame) :=
  let fr := mkframe (replicate (n_axis self) 1) (start self) in
  do yield (positions fr) in
  let* fr' := scan_axis self (n_axis self) 0 fr in
  gret (fr, fr').

(** The generator, returning the frames of its passes in order. *)
Definition get_generator_frames (self : t) : gen vec (list (frame * frame)) :=
  for_range (passes self) (fun pass_number log =>
    let* p := scan_pass self in
    gret (log ++ [p])) [].

Definition get_generator (self : t) : gen vec unit :=
  do get_generator_frames self in gret tt.

(** The direction lists of the passes: for each pass, the list as it is
    when [scan_axis(0)] starts and as it is when the pass ends. *)
Definition pass_directions (self : t) : result (list (list Z * list Z)) :=
  rbind (outcome (get_generator_frames self)) (fun log =>
  Ok (map (fun p => (directions (fst p), directions (snd p))) log)).

(** "The direction state each axis starts a new pass with equals the
    state it ended the previous pass with." *)
Definition directions_persist (self : t) : Prop :=
  forall log, pass_directions self = Ok log ->
  forall i a b, log !! i = Some a -> log !! S i = Some b -> fst b = snd a.

(** What a call [scan_axis(axis_number)] leaves of the frame it was
    entered with: the lengths, and the flags of the axes before
    [axis_number]. *)
Definition keeps (n : nat) (axis_number : nat) (fr fr' : frame) : Prop :=
  (length (positions fr) = n -> length (positions fr') = n) /\
  length (directions fr') = length (directions fr) /\
  forall j, (j < axis_number)%nat -> directions fr' !! j = directions fr !! j.

End ZigZagAreaPositioner.

Module MultiAreaPositioner.

Record t : Type := mk {
  offsets : option (list vec);
  passes : Z;
  end_ : list vec;
  start : list vec;
  n_axis : nat;
  n_steps : option (list (list pyval));
  step_size : option (list (list pyval))
}.

Definition add_offsets (values : list vec) (offsets0 : option (list vec))
    : list vec :=
  match offsets0 with
  | Some os => if truthy_list offsets0
               then zip_with (fun vs ofs => zip_with (fun v o => (v + o)%Qc) vs ofs)
                             values os
               else values
  | None => values
  end.

Definition init (start0 end0 : list vec) (steps : list (list pyval))
    (passes0 : Z) (offsets0 : option (list vec)) : result t :=
  let n_axis0 := length start0 in
  let start1 := add_offsets start0 offsets0 in
  let end1 := add_offsets end0 offsets0 in
  rbind (getitem steps 0) (fun line0 =>
  rbind (getitem line0 0) (fun s0 =>
  match s0 with
  | PyInt _ =>
      rbind (mapM (fun '(starts, ends, line_steps) =>
                     mapM (fun '(s, e, st) => py_div (e - s)%Qc st)
                          (zip3 starts ends line_steps))
                  (zip3 start1 end1 steps)) (fun sizes =>
      Ok (mk offsets0 passes0 end1 start1 n_axis0 (Some steps)
             (Some (map (map PyFloat) sizes))))
  | PyFloat _ =>
      rbind (mapM (fun '(starts, ends, line_steps) =>
                     mapM (fun '(s, e, st) =>
                             rbind (py_div (e - s)%Qc st)
                                   (fun q => Ok (py_floor q)))
                          (zip3 starts ends line_steps))
                  (zip3 start1 end1 steps)) (fun counts =>
      Ok (mk offsets0 passes0 end1 start1 n_axis0
             (Some (map (map PyInt) counts)) (Some steps)))
  | PyStr _ | PyNone =>
      Ok (mk offsets0 passes0 end1 start1 n_axis0 None None)
  end)).

(** An object as [__init__] builds it from step counts or step sizes:
    [n_steps[axis][0]] is an [int] and every step size is a number, for
    every axis. *)
Definition well_formed (self : t) (sizes : list (list pyval)) : Prop :=
  (exists counts, n_steps self = Some counts /\
     forall axis, (axis < n_axis self)%nat ->
       exists n rest, counts !! axis = Some (PyInt n :: rest)) /\
  step_size self = Some sizes /\
  Forall (Forall (fun s => is_number s = true)) sizes /\
  length sizes = n_axis self /\
  length (start self) = n_axis self.

(** [range(self.n_steps[axis_number][0])] *)
Definition axis_steps (self : t) (axis_number : nat) : result Z :=
  rbind (getattr (n_steps self)) (fun counts =>
  rbind (getitem counts axis_number) (fun line =>
  rbind (getitem line 0) as_index)).

Fixpoint scan_axis (self : t) (remaining axis_number : nat)
    (positions : list vec) : gen (list vec) (list vec) :=
  match remaining with
  | O => gret positions
  | S remaining' =>
      let* positions := scan_axis self remaining' (axis_number + 1) positions in
      let* n := lift (axis_steps self axis_number) in
      let* positions :=
        for_range n (fun _ positions =>
          let* line := lift (getitem positions axis_number) in
          let* sizes := lift (getattr (step_size self)) in
          let* line_sizes := lift (getitem sizes axis_number) in
          let* line' := lift (LinearPositioner.advance line line_sizes) in
          let* positions := lift (setitem positions axis_number line') in
          do yield positions in
          scan_axis self remaining' (axis_number + 1) positions) positions in
      let* line0 := lift (getitem (start self) axis_number) in
      lift (setitem positions axis_number line0)
  end.

Definition get_generator (self : t) : gen (list vec) unit :=
  for_range (passes self) (fun _ _ =>
    let positions := start self in
    do yield positions in
    do scan_axis self (n_axis self) 0 positions in
    gret tt) tt.

End MultiAreaPositioner.

(** [range(start, stop, step)] for a non-zero [step]. *)
Definition py_range (start stop step : Z) : list Z :=
  if decide (0 < step) then
    (fun i : nat => start + Z.of_nat i * step)
      <$> seq 0 (Z.to_nat ((stop - start + step - 1) / step))
  else if decide (step < 0) then
    (fun i : nat => start + Z.of_nat i * step)
      <$> seq 0 (Z.to_nat ((start - stop - step - 1) / (- step)))
  else [].

(** [l[i]] for an integer index; negative indices count from the end. *)
Definition getitem_int {A : Type} (l : list A) (i : Z) : result A :=
  if decide (0 <= i) then getitem l (Z.to_nat i)
  else if decide (- Z.of_nat (length l) <= i)
       then getitem l (Z.to_nat (Z.of_nat (length l) + i))
       else Raise IndexError.

(** [next(it)] on [it = itertools.cycle(items)] that has been advanced [k]
    times, inside a generator: an empty cycle raises [StopIteration], which
    surfaces from the enclosing generator as [RuntimeError]. *)
Definition cycle_next (items : list Z) (k : nat) : result Z :=
  match items with
  | [] => Raise RuntimeError
  | _ :: _ => getitem items (k mod length items)%nat
  end.

Module VectorPositioner.

Record t : Type := mk {
  positions : list vec;
  passes : Z;
  offsets : option vec;
  n_positions : Z
}.

Definition init (positions0 : list vec) (passes0 : Z) (offsets0 : option vec)
    : t :=
  let n := Z.of_nat (length positions0) in
  match offsets0 with
  | Some os =>
      if truthy_list offsets0
      then mk ((fun step_positions =>
                  zip_with (fun v o => (v + o)%Qc) step_positions os)
                 <$> positions0) passes0 offsets0 n
      else mk positions0 passes0 offsets0 n
  | None => mk positions0 passes0 offsets0 n
  end.

(** [for x in xs: yield x] *)
Fixpoint yield_each {Y : Type} (xs : list Y) : gen Y unit :=
  match xs with
  | [] => gret tt
  | x :: xs' => do yield x in yield_each xs'
  end.

Definition get_generator (self : t) : gen vec unit :=
  for_range (passes self) (fun _ _ => yield_each (positions self)) tt.

End VectorPositioner.

Module ZigZagVectorPositioner.
Import VectorPositioner.

(** [chain(range(0, n, 1), range(n - 2, 0, -1))] *)
Definition index_cycle (self : t) : list Z :=
  py_range 0 (n_positions self) 1 ++ py_range (n_positions self - 2) 0 (-1).

Definition n_indexes (self : t) : Z :=
  n_positions self + ((passes self - 1) * (n_positions self - 1)).

(** The index reached after [k] steps of going forward through
    [0 .. n-1] and back through [n-2 .. 1], again and again. *)
Definition pingpong (n k : nat) : nat :=
  let m := (k mod (n + (n - 2)))%nat in
  if decide (m < n)%nat then m else (2 * n - 2 - m)%nat.

(** The loop state [k] counts the calls to [next(indexes)] so far. *)
Definition get_generator (self : t) : gen vec unit :=
  let indexes := index_cycle self in
  do for_range (n_indexes self) (fun x k =>
       let* i := lift (cycle_next indexes k) in
       let* position := lift (getitem_int (positions self) i) in
       do yield position in
       gret (S k)) O in
  gret tt.

End ZigZagVectorPositioner.

(** ** The area generators over a store of list objects

    The three area generators update the list [positions] in place.  Above,
    [positions] is a value passed from call to call.  Here the lists are
    objects in a store and a variable holds a reference: [copy] allocates,
    [positions[i] = v] updates the cell that [positions] refers to,
    [self.start] is a reference to a list that exists before the generator
    is called.  A yielded list is recorded with the elements it has when it
    is yielded.

    The elements of a cell are numbers for the area scans and whole lines
    for the multi-area scan, whose generator replaces the lines of
    [positions] and never updates a line in place.  The list [directions]
    of the zigzag scan is built by [[1] * self.n_axis] in every pass and
    neither copied nor yielded; it stays a value. *)

Module Store.

Section Cells.
Context {E : Type}.

(** The store: the cell of reference [r] is the r-th list. *)
Abbreviation store := (list (list E)).

(** A generator that works on the store. *)
Definition sgen (A : Type) : Type := store -> gen (list E) (A * store).

Definition sret {A : Type} (a : A) : sgen A := fun h => gret (a, h).

Definition sbind {A B : Type} (m : sgen A) (k : A -> sgen B) : sgen B :=
  fun h => gbind (m h) (fun '(a, h') => k a h').

Definition slift {A : Type} (r : result A) : sgen A :=
  fun h => lift (rbind r (fun a => Ok (a, h))).

(** The list a reference points to; a reference always comes from [alloc]
    or from the caller, the error case is there for totality. *)
Definition cell (r : nat) (h : store) : result (list E) :=
  match h !! r with
  | Some l => Ok l
  | None => Raise RuntimeError
  end.

(** A new list object. *)
Definition alloc (l : list E) : sgen nat :=
  fun h => gret (length h, h ++ [l]).

(** [copy(r)] *)
Definition copy (r : nat) : sgen nat :=
  fun h => match cell r h with
           | Ok l => alloc l h
           | Raise e => lift (Raise e)
           end.

(** [r[i]] *)
Definition load (r i : nat) : sgen E :=
  fun h => lift (rbind (cell r h) (fun l =>
                 rbind (getitem l i) (fun x => Ok (x, h)))).

(** [r[i] = v] *)
Definition store_item (r i : nat) (v : E) : sgen unit :=
  fun h => lift (rbind (cell r h) (fun l =>
                 rbind (setitem l i v) (fun l' => Ok (tt, <[r := l']> h)))).

(** [yield r] *)
Definition syield (r : nat) : sgen unit :=
  fun h => match cell r h with
           | Ok l => gbind (yield l) (fun _ => gret (tt, h))
           | Raise e => lift (Raise e)
           end.

(** [yield copy(r)] *)
Definition syield_copy (r : nat) : sgen unit :=
  sbind (copy r) syield.

Fixpoint sfor_loop {A : Type} (n : nat) (i0 : Z) (body : Z -> A -> sgen A)
    (a : A) : sgen A :=
  match n with
  | O => sret a
  | S n' => sbind (body i0 a) (fun a' => sfor_loop n' (i0 + 1) body a')
  end.

Definition sfor_range {A : Type} (stop : Z) (body : Z -> A -> sgen A) (a : A)
    : sgen A :=
  sfor_loop (Z.to_nat stop) 0 body a.

End Cells.

Notation "'let+' x ':=' m 'in' k" := (sbind m (fun x => k))
  (at level 10, x name, m at level 100, k at level 200).
Notation "'run' m 'in' k" := (sbind m (fun _ => k))
  (at level 10, m at level 100, k at level 200).

(** [sim Q ms mp h]: started in the store [h], the store generator [ms]
    yields the lists that the value generator [mp] yields and ends as [mp]
    does; when they return, [Q] relates the final store and the two
    results. *)
Definition sim {E A B : Type} (Q : list (list E) -> A -> B -> Prop)
    (ms : sgen (E := E) A) (mp : gen (list E) B) (h : list (list E)) : Prop :=
  match mp with
  | (ys, Ok b) => exists a h', ms h = (ys, Ok (a, h')) /\ Q h' a b
  | (ys, Raise e) => ms h = (ys, Raise e)
  end.

(** With respect to the store [h0] of the caller, [positions] is a list
    object allocated since, its elements are [l], and no cell of [h0] has
    changed. *)
Definition fresh_cell {E : Type} (h0 : list (list E)) (positions : nat)
    (h : list (list E)) (l : list E) : Prop :=
  (length h0 <= positions)%nat /\
  h !! positions = Some l /\
  forall r, (r < length h0)%nat -> h !! r = h0 !! r.

(** No cell of [h0] has changed in [h]. *)
Definition extends {E : Type} (h0 h : list (list E)) : Prop :=
  forall r, (r < length h0)%nat -> h !! r = h0 !! r.

(** Two traversals one after the other: whatever the store [h0] in which
    [start_ref] refers to the list [l], the generator [ms] yields [ys] and
    returns, leaves [l] in that cell, and yields [ys] again when it is
    started a second time in the store it has left. *)
Definition restarts {E : Type} (ms : sgen (E := E) unit) (start_ref : nat)
    (l : list E) (ys : list (list E)) : Prop :=
  forall h0, h0 !! start_ref = Some l ->
  exists h1 h2,
    ms h0 = (ys, Ok (tt, h1)) /\
    h1 !! start_ref = Some l /\
    ms h1 = (ys, Ok (tt, h2)).

(** [AreaPositioner.get_generator]; [start_ref] is [self.start]. *)
Fixpoint area_scan_axis (self : AreaPositioner.t) (start_ref positions : nat)
    (remaining axis_number : nat) : sgen (E := Qc) unit :=
  match remaining with
  | O => sret tt
  | S remaining' =>
      run area_scan_axis self start_ref positions remaining' (axis_number + 1) in
      let+ n := slift (AreaPositioner.axis_steps self axis_number) in
      run sfor_range n (fun _ _ =>
            let+ p := load positions axis_number in
            let+ sizes := slift (getattr (AreaPositioner.step_size self)) in
            let+ s := slift (getitem sizes axis_number) in
            let+ v := slift (py_add p s) in
            run store_item positions axis_number v in
            run syield_copy positions in
            area_scan_axis self start_ref positions remaining'
                           (axis_number + 1)) tt in
      let+ s0 := load start_ref axis_number in
      store_item positions axis_number s0
  end.

Definition area_get_generator (self : AreaPositioner.t) (start_ref : nat)
    : sgen (E := Qc) unit :=
  sfor_range (AreaPositioner.passes self) (fun _ _ =>
    let+ positions := copy start_ref in
    run syield_copy positions in
    run area_scan_axis self start_ref positions (AreaPositioner.n_axis self) 0 in
    sret tt) tt.

(** [ZigZagAreaPositioner.get_generator] *)
Fixpoint zigzag_scan_axis (self : AreaPositioner.t) (positions : nat)
    (remaining axis_number : nat) (directions : list Z)
    : sgen (E := Qc) (list Z) :=
  match remaining with
  | O => sret directions
  | S remaining' =>
      let+ directions :=
        zigzag_scan_axis self positions remaining' (axis_number + 1)
                         directions in
      let+ n := slift (AreaPositioner.axis_steps self axis_number) in
      let+ directions :=
        sfor_range n (fun _ directions =>
          let+ p := load positions axis_number in
          let+ sizes := slift (getattr (AreaPositioner.step_size self)) in
          let+ s := slift (getitem sizes axis_number) in
          let+ d := slift (getitem directions axis_number) in
          let+ sd := slift (py_mul_int s d) in
          let+ v := slift (py_add p sd) in
          run store_item positions axis_number v in
          run syield_copy positions in
          zigzag_scan_axis self positions remaining' (axis_number + 1)
                           directions) directions in
      let+ d := slift (getitem directions axis_number) in
      let+ directions' := slift (setitem directions axis_number (d * -1)) in
      sret directions'
  end.

Definition zigzag_get_generator (self : AreaPositioner.t) (start_ref : nat)
    : sgen (E := Qc) unit :=
  sfor_range (AreaPositioner.passes self) (fun _ _ =>
    let directions := replicate (AreaPositioner.n_axis self) 1 in
    let+ positions := copy start_ref in
    run syield_copy positions in
    run zigzag_scan_axis self positions (AreaPositioner.n_axis self) 0
                         directions in
    sret tt) tt.

(** [MultiAreaPositioner.get_generator] *)
Fixpoint multi_scan_axis (self : MultiAreaPositioner.t)
    (start_ref positions : nat) (remaining axis_number : nat)
    : sgen (E := vec) unit :=
  match remaining with
  | O => sret tt
  | S remaining' =>
      run multi_scan_axis self start_ref positions remaining'
                          (axis_number + 1) in
      let+ n := slift (MultiAreaPositioner.axis_steps self axis_number) in
      run sfor_range n (fun _ _ =>
            let+ line := load positions axis_number in
            let+ sizes := slift (getattr (MultiAreaPositioner.step_size self)) in
            let+ line_sizes := slift (getitem sizes axis_number) in
            let+ line' := slift (LinearPositioner.advance line line_sizes) in
            run store_item positions axis_number line' in
            run syield_copy positions in
            multi_scan_axis self start_ref positions remaining'
                            (axis_number + 1)) tt in
      let+ line0 := load start_ref axis_number in
      store_item positions axis_number line0
  end.

Definition multi_get_generator (self : MultiAreaPositioner.t) (start_ref : nat)
    : sgen (E := vec) unit :=
  sfor_range (MultiAreaPositioner.passes self) (fun _ _ =>
    let+ positions := copy start_ref in
    run syield_copy positions in
    run multi_scan_axis self start_ref positions
                        (MultiAreaPositioner.n_axis self) 0 in
    sret tt) tt.

End Store.

(** ** utils.py *)

(** The k-th call of [time.time()] returns [clock k]. *)
Abbreviation clock_t := (nat -> Qc).

(** [not x] for what [pv.get()] returns: [None] and zero are falsy. *)
Definition falsy (v : option Qc) : bool :=
  match v with
  | None => true
  | Some x => bool_decide (x = Q2Qc 0)
  end.

(** [all(flags)] *)
Definition all (flags : list bool) : bool := forallb id flags.

Module EpicsWriter.

(** The channel-access client: [reads pv k] is what the k-th call of
    [pv.get()] returns on the PV object [pv]. *)
Abbreviation reads_t := (nat -> nat -> option Qc).

(** What the calls made so far have done to the outside. *)
Record world : Type := mkworld {
  gets : nat -> nat;           (* calls of [pv.get()] so far, per PV *)
  puts : list (nat * Qc);      (* calls of [pv.put(value)] so far, in order *)
  ticks : nat                  (* calls of [time.time()] so far *)
}.

Definition world0 : world := mkworld (fun _ => O) [] O.

Record t : Type := mk { pvs : list nat }.

Section Write.
Variable reads : reads_t.
Variable clock : clock_t.

Definition pv_get (pv : nat) (w : world) : option Qc * world :=
  (reads pv (gets w pv),
   mkworld (fun p => if decide (p = pv) then S (gets w p) else gets w p)
           (puts w) (ticks w)).

Definition pv_put (pv : nat) (value : Qc) (w : world) : world :=
  mkworld (gets w) (puts w ++ [(pv, value)]) (ticks w).

Definition time (w : world) : Qc * world :=
  (clock (ticks w), mkworld (gets w) (puts w) (S (ticks w))).

(** The body of the [for index, pv in ...] loop. *)
Definition poll (values : vec) (tolerance : Qc) (index pv : nat)
    (s : world * list bool) : result (world * list bool) :=
  let '(w, within_tolerance) := s in
  let '(current_value, w) := pv_get pv w in
  if falsy current_value then Ok (w, within_tolerance)
  else
    let '(second, w) := pv_get pv w in
    rbind (getitem values index) (fun target =>
    match second with
    | None => Raise TypeError
    | Some x =>
        if bool_decide (Qcabs (x - target) < tolerance)%Qc
        then Ok (w, <[index := true]> within_tolerance)
        else Ok (w, within_tolerance)
    end).

(** [for index, pv in ((index, pv) for index, reached, pv in
    zip(count(), within_tolerance, self.pvs) if not reached)]: the
    generator expression reads [within_tolerance[index]] when the loop
    reaches [index]. *)
Fixpoint poll_all (values : vec) (tolerance : Qc) (index : nat)
    (rest : list nat) (s : world * list bool)
    : result (world * list bool) :=
  match rest with
  | [] => Ok s
  | pv :: rest' =>
      match snd s !! index with
      | None => Ok s
      | Some true => poll_all values tolerance (S index) rest' s
      | Some false =>
          rbind (poll values tolerance index pv s)
                (poll_all values tolerance (S index) rest')
      end
  end.

(** [while not all(within_tolerance) and time.time() - initial_timestamp
    < timeout]; [None] when [fuel] iterations were not enough. *)
Fixpoint poll_loop (fuel : nat) (self : t) (values : vec)
    (tolerance timeout initial_timestamp : Qc) (s : world * list bool)
    : option (result (world * list bool)) :=
  match fuel with
  | O => None
  | S fuel' =>
      if all (snd s) then Some (Ok s)
      else
        let '(now, w) := time (fst s) in
        if bool_decide (now - initial_timestamp < timeout)%Qc then
          match poll_all values tolerance 0 (pvs self) (w, snd s) with
          | Ok s' =>
              poll_loop fuel' self values tolerance timeout
                        initial_timestamp s'
          | Raise e => Some (Raise e)
          end
        else Some (Ok (w, snd s))
  end.

(** [for pv, value in zip(self.pvs, values): pv.put(value)] *)
Definition put_all (self : t) (values : vec) (w : world) : world :=
  fold_left (fun w '(pv, value) => pv_put pv value w)
            (zip (pvs self) values) w.

(** The world when the first polling cycle starts: the values are put,
    [time.time()] has been called for [initial_timestamp] and for the
    first test of the loop. *)
Definition first_cycle (self : t) (values : vec) (w : world) : world :=
  snd (time (snd (time (put_all self values w)))).

Definition write (fuel : nat) (self : t) (values : vec)
    (tolerance timeout : Qc) (w : world) : option (result world) :=
  let w := put_all self values w in
  let within_tolerance := replicate (length (pvs self)) false in
  let '(initial_timestamp, w) := time w in
  match poll_loop fuel self values tolerance timeout initial_timestamp
                  (w, within_tolerance) with
  | None => None
  | Some (Raise e) => Some (Raise e)
  | Some (Ok (w, within_tolerance)) =>
      if negb (all within_tolerance) then Some (Raise ValueError)
      else Some (Ok w)
  end.

End Write.

(** The defaults of [write]. *)
Definition default_tolerance : Qc := Q2Qc (1 # 100000).
Definition default_timeout : Qc := Q2Qc 5.

End EpicsWriter.

(** ** utils.py: the helpers, the connection and the reader *)

Module Utils.

(** What a caller passes where the source accepts one value, a list of
    values or [None]. *)
Inductive arg (A : Type) : Type :=
  | ArgNone
  | ArgList (l : list A)
  | ArgOne (a : A).
Arguments ArgNone {A}.
Arguments ArgList {A} l.
Arguments ArgOne {A} a.

Definition convert_to_list {A : Type} (value : arg A) : arg A :=
  match value with
  | ArgOne a => ArgList [a]
  | ArgNone | ArgList _ => value
  end.

(** One step of [zip] over the unpacked [axis_list]: the next element of every list, in
    order; [None] as soon as one list is exhausted. *)
Fixpoint heads {A : Type} (ls : list (list A)) : option (list A) :=
  match ls with
  | [] => Some []
  | [] :: _ => None
  | (x :: _) :: ls' =>
      match heads ls' with
      | Some xs => Some (x :: xs)
      | None => None
      end
  end.

(** [zip] over the unpacked [ls], for a non-empty [ls], run for at most [fuel] tuples. *)
Fixpoint zip_star {A : Type} (fuel : nat) (ls : list (list A))
    : list (list A) :=
  match fuel with
  | O => []
  | S fuel' =>
      match heads ls with
      | Some row => row :: zip_star fuel' (map (drop 1) ls)
      | None => []
      end
  end.

(** [[list(positions) for positions in zip( *axis_list)]]; [zip()] without
    arguments yields nothing, and the first list bounds the number of
    tuples. *)
Definition convert_to_position_list {A : Type} (axis_list : list (list A))
    : list (list A) :=
  match axis_list with
  | [] => []
  | l :: _ => zip_star (length l) axis_list
  end.

End Utils.

Module Connect.

(** [connects pv k] is what the k-th call of [pv.connect()] returns on the
    PV object [pv]. *)
Abbreviation connects_t := (nat -> nat -> bool).

(** What the calls made so far have done: the PV objects created, with
    their names (the object number [pv] is the [pv]-th created), the calls
    of [pv.connect()] per object, the calls of [time.sleep(0.1)]. *)
Record world : Type := mkworld {
  created : list string;
  attempts : nat -> nat;
  sleeps : nat
}.

Definition world0 : world := mkworld [] (fun _ => O) O.

Section Connect.
Variable connects : connects_t.

(** [PV(pv_name, auto_monitor=False)] *)
Definition new_pv (pv_name : string) (w : world) : nat * world :=
  (length (created w),
   mkworld (created w ++ [pv_name]) (attempts w) (sleeps w)).

Definition pv_connect (pv : nat) (w : world) : bool * world :=
  (connects pv (attempts w pv),
   mkworld (created w)
           (fun p => if decide (p = pv) then S (attempts w p) else attempts w p)
           (sleeps w)).

Definition sleep (w : world) : world :=
  mkworld (created w) (attempts w) (S (sleeps w)).

(** [for i in range(n_connection_attempts): ...], then the [raise]. *)
Fixpoint connect_loop (n : nat) (pv : nat) (w : world) : result nat * world :=
  match n with
  | O => (Raise ValueError, w)
  | S n' =>
      let '(connected, w) := pv_connect pv w in
      if connected then (Ok pv, w)
      else connect_loop n' pv (sleep w)
  end.

Definition connect_to_pv (pv_name : string) (n_connection_attempts : Z)
    (w : world) : result nat * world :=
  let '(pv, w) := new_pv pv_name w in
  connect_loop (Z.to_nat n_connection_attempts) pv w.

(** [[connect_to_pv(pv_name) for pv_name in names]], with the default of
    three attempts. *)
Fixpoint connect_all (names : list string) (w : world)
    : result (list nat) * world :=
  match names with
  | [] => (Ok [], w)
  | pv_name :: names' =>
      match connect_to_pv pv_name 3 w with
      | (Ok pv, w) =>
          match connect_all names' w with
          | (Ok pvs, w) => (Ok (pv :: pvs), w)
          | (Raise e, w) => (Raise e, w)
          end
      | (Raise e, w) => (Raise e, w)
      end
  end.

(** [EpicsWriter.__init__] and [EpicsReader.__init__] build [self.pvs] in
    the same way; iterating over [None] is a [TypeError]. *)
Definition init_pvs (list_of_pvs : Utils.arg string) (w : world)
    : result (list nat) * world :=
  match Utils.convert_to_list list_of_pvs with
  | Utils.ArgList names => connect_all names w
  | Utils.ArgNone | Utils.ArgOne _ => (Raise TypeError, w)
  end.

Definition writer_init (list_of_pvs : Utils.arg string) (w : world)
    : result EpicsWriter.t * world :=
  match init_pvs list_of_pvs w with
  | (Ok pvs, w) => (Ok (EpicsWriter.mk pvs), w)
  | (Raise e, w) => (Raise e, w)
  end.

End Connect.

End Connect.

Module EpicsReader.

Record t : Type := mk {
  pvs : list nat;
  n_measurments : Z
}.

(** An entry of the result: what one [pv.get()] returned, or the list of
    what [n_measurments] calls returned. *)
Inductive measurement : Type :=
  | Single (v : option Qc)
  | Many (vs : list (option Qc)).

Section Read.
Variable reads : EpicsWriter.reads_t.

(** [for i in range(n): pv_result.append(pv.get())] *)
Fixpoint get_many (n : nat) (pv : nat) (w : EpicsWriter.world)
    : list (option Qc) * EpicsWriter.world :=
  match n with
  | O => ([], w)
  | S n' =>
      let '(v, w) := EpicsWriter.pv_get reads pv w in
      let '(vs, w) := get_many n' pv w in
      (v :: vs, w)
  end.

(** The body of [for pv in self.pvs]. *)
Definition read_one (self : t) (pv : nat) (w : EpicsWriter.world)
    : measurement * EpicsWriter.world :=
  if decide (n_measurments self = 1) then
    let '(v, w) := EpicsWriter.pv_get reads pv w in (Single v, w)
  else
    let '(vs, w) := get_many (Z.to_nat (n_measurments self)) pv w in
    (Many vs, w).

Fixpoint read_each (self : t) (rest : list nat) (w : EpicsWriter.world)
    : list measurement * EpicsWriter.world :=
  match rest with
  | [] => ([], w)
  | pv :: rest' =>
      let '(m, w) := read_one self pv w in
      let '(ms, w) := read_each self rest' w in
      (m :: ms, w)
  end.

Definition read (self : t) (w : EpicsWriter.world)
    : list measurement * EpicsWriter.world :=
  read_each self (pvs self) w.

(** What [read] is to append for one PV in the world [w]: the next value
    of the PV, or its next [n_measurments] values. *)
Definition expected (self : t) (w : EpicsWriter.world) (pv : nat)
    : measurement :=
  if decide (n_measurments self = 1)
  then Single (reads pv (EpicsWriter.gets w pv))
  else Many ((fun i => reads pv (EpicsWriter.gets w pv + i)%nat)
               <$> seq 0 (Z.to_nat (n_measurments self))).

End Read.

End EpicsReader.

Module SimpleDataProcessor.
Section Processor.
Context {P D : Type}.

Record t : Type := mk {
  positions : list P;
  data : list D
}.

Definition init : t := mk [] [].

Definition process (self : t) (position : P) (d : D) : t :=
  mk (positions self ++ [position]) (data self ++ [d]).

Definition get_data (self : t) : list (P * D) :=
  zip (positions self) (data self).

End Processor.
Arguments t : clear implicits.
End SimpleDataProcessor.

(** ** dal/bsread_dal.py *)

Module ReadGroupInterface.

(** A bsread message: [message.data.global_timestamp] and
    [message.data.data]. *)
Record message : Type := mkmessage {
  sec : Z;
  ns : Z;
  data : gmap string Qc
}.

Record t : Type := mk {
  properties : list string;
  monitor_properties : list string;
  n_measurements : Z;
  waiting : Qc;
  message_cache : option message;
  message_cache_timestamp : option Qc;
  (** read by [read]; no statement of the class assigns it *)
  default_read_timeout : option Qc
}.

(** [x or default] *)
Definition or_default_Z (x : option Z) (d : Z) : Z :=
  match x with
  | Some v => if decide (v = 0) then d else v
  | None => d
  end.
Definition or_default_Qc (x : option Qc) (d : Qc) : Qc :=
  match x with
  | Some v => if decide (v = Q2Qc 0) then d else v
  | None => d
  end.

(** [__init__]; the constants of [pyscan.config] are arguments.
    [convert_to_list] leaves a list and [None] as they are, and
    [self.properties + self.monitor_properties] in [_connect_bsread] needs
    two lists. *)
Definition init (bs_default_n_measurements : Z) (bs_default_waiting : Qc)
    (properties0 monitor_properties0 : option (list string))
    (n_measurements0 : option Z) (waiting0 : option Qc) : result t :=
  match properties0, monitor_properties0 with
  | Some ps, Some ms =>
      Ok (mk ps ms
             (or_default_Z n_measurements0 bs_default_n_measurements)
             (or_default_Qc waiting0 bs_default_waiting)
             None None None)
  | _, _ => Raise TypeError
  end.

(** [int(x)]: truncation towards zero. *)
Definition py_int (x : Qc) : Z := Z.quot (Qnum (this x)) (Zpos (Qden (this x))).

(** [math.modf(x)[0]]: the fractional part, with the sign of [x]. *)
Definition modf_frac (x : Qc) : Qc := (x - Q2Qc (inject_Z (py_int x)))%Qc.

Definition current_epoch (timestamp : Qc) : Z := py_int timestamp.
Definition current_ns (timestamp : Qc) : Z :=
  py_int (modf_frac timestamp * Q2Qc (inject_Z 1000000000))%Qc.

Definition is_message_after_timestamp (msg : option message) (timestamp : Qc)
    : bool :=
  match msg with
  | None => false
  | Some m =>
      let message_epoch := sec m in
      let message_ns := ns m in
      if decide (message_epoch = current_epoch timestamp)
      then bool_decide (message_ns >= current_ns timestamp)
      else bool_decide (message_epoch > current_epoch timestamp)
  end.

Definition read_pvs_from_cache (self : t) (pvs_to_read : list string)
    : result (list Qc) :=
  match message_cache self with
  | None => Raise ValueError
  | Some m =>
      mapM (fun pv_name => match data m !! pv_name with
                           | Some v => Ok v
                           | None => Raise KeyError
                           end) pvs_to_read
  end.

(** Calls of [time()] and of [self.stream.receive()] so far. *)
Record world : Type := mkworld {
  ticks : nat;
  receives : nat
}.

Definition world0 : world := mkworld O O.

Section Read.
Variable clock : clock_t.
(** [stream k] is what the k-th call of [self.stream.receive()] returns. *)
Variable stream : nat -> option message.

Definition time (w : world) : Qc * world :=
  (clock (ticks w), mkworld (S (ticks w)) (receives w)).

Definition receive (w : world) : option message * world :=
  (stream (receives w), mkworld (ticks w) (S (receives w))).

(** The [while ... else] loop of [read]; [None] when [fuel] iterations
    were not enough. *)
Fixpoint read_loop (fuel : nat) (self : t) (read_timestamp : Qc)
    (w : world) : option (result (list Qc) * t * world) :=
  match fuel with
  | O => None
  | S fuel' =>
      let '(now, w) := time w in
      match getattr (default_read_timeout self) with
      | Raise e => Some (Raise e, self, w)
      | Ok timeout =>
          if bool_decide (now - read_timestamp < timeout)%Qc then
            let '(msg, w) := receive w in
            if is_message_after_timestamp msg read_timestamp then
              let self' := mk (properties self) (monitor_properties self)
                              (n_measurements self) (waiting self)
                              msg (Some read_timestamp)
                              (default_read_timeout self) in
              Some (read_pvs_from_cache self' (properties self'), self', w)
            else read_loop fuel' self read_timestamp w
          else Some (Raise GenericException, self, w)
      end
  end.

Definition read (fuel : nat) (self : t) (w : world)
    : option (result (list Qc) * t * world) :=
  let '(read_timestamp, w) := time w in
  read_loop fuel self read_timestamp w.

End Read.

(** [read_cached_monitors] *)
Definition read_cached_monitors (self : t) : result (list Qc) :=
  read_pvs_from_cache self (monitor_properties self).

(** [close]: the stream is disconnected, the cache is cleared. *)
Definition close (self : t) : t :=
  mk (properties self) (monitor_properties self) (n_measurements self)
     (waiting self) None None (default_read_timeout self).

End ReadGroupInterface.

(** ** Vocabulary of the properties below *)

(** The vectors of [l] form a path from [x] to [z]: each one is related by
    [R] to the one before it ([x] for the first), and [z] is the last (or
    [x] when [l] is empty). *)
Definition path {Y : Type} (R : Y -> Y -> Prop) (x : Y) (l : list Y) (z : Y)
    : Prop :=
  (forall k a b, (x :: l) !! k = Some a -> l !! k = Some b -> R a b) /\
  last (x :: l) = Some z.

(** The number of grid points of an area scan with the step counts
    [counts]: the product of [n + 1] over the axes. *)
Definition grid_size (counts : list Z) : nat :=
  foldr (fun n acc => (S (Z.to_nat n) * acc)%nat) 1%nat counts.

(** [b] is [a] moved along one axis by the step size of that axis, forward
    or backward. *)
Definition one_axis_step (sizes : list pyval) (a b : vec) : Prop :=
  exists axis p s d sd v,
    a !! axis = Some p /\ sizes !! axis = Some s /\ (d = 1 \/ d = -1) /\
    py_mul_int s d = Ok sd /\ py_add p sd = Ok v /\ b = <[axis := v]> a.

(** Some [pv.get()] of the channel at [index] has returned a value within
    [tolerance] of the target of that channel. *)
Definition was_within (reads : EpicsWriter.reads_t) (self : EpicsWriter.t)
    (values : vec) (tolerance : Qc) (index : nat) : Prop :=
  exists pv k x target,
    EpicsWriter.pvs self !! index = Some pv /\
    reads pv k = Some x /\
    values !! index = Some target /\
    (Qcabs (x - target) < tolerance)%Qc.

(** What every frame of a zigzag area scan satisfies: both lists have one
    entry per axis and every direction flag is [1] or [-1]. *)
Definition frame_ok (self : AreaPositioner.t)
    (fr : ZigZagAreaPositioner.frame) : Prop :=
  length (ZigZagAreaPositioner.positions fr) = AreaPositioner.n_axis self /\
  length (ZigZagAreaPositioner.directions fr) = AreaPositioner.n_axis self /\
  Forall (fun d => d = 1 \/ d = -1) (ZigZagAreaPositioner.directions fr).


(** * Properties *)

(** ** The frame-matching predicate *)

Section Matching.
Import ReadGroupInterface.

Lemma is_after_spec (m : message) (timestamp : Qc) :
  is_message_after_timestamp (Some m) timestamp = true <->
  sec m > current_epoch timestamp \/
  (sec m = current_epoch timestamp /\ ns m >= current_ns timestamp).
Proof.
  unfold is_message_after_timestamp.
  destruct (decide (sec m = current_epoch timestamp)) as [He | Hne].
  - rewrite bool_decide_eq_true. split.
    + intros H. right. split; assumption.
    + intros [H | [_ H]]; [lia | assumption].
  - rewrite bool_decide_eq_true. split.
    + intros H. left. assumption.
    + intros [H | [H _]]; [assumption | contradiction].
Qed.

(** C5: with [S = int(timestamp)] and [N = int(modf(timestamp)[0] * 1e9)],
    a frame matches exactly when [sec > S], or [sec = S] and [ns >= N]; a
    frame whose seconds are below [S] never matches whatever its
    nanoseconds, the frame with [sec = S] and [ns = N] matches, and an
    absent frame never matches. *)
Theorem is_message_after_timestamp_correct (timestamp : Qc) :
  let S := current_epoch timestamp in
  let N := current_ns timestamp in
  (forall m : message,
      is_message_after_timestamp (Some m) timestamp = true <->
      sec m > S \/ (sec m = S /\ ns m >= N)) /\
  (forall (below : positive) (nanos : Z) (d : gmap string Qc),
      is_message_after_timestamp
        (Some (mkmessage (S - Zpos below) nanos d)) timestamp = false) /\
  (forall d : gmap string Qc,
      is_message_after_timestamp (Some (mkmessage S N d)) timestamp = true) /\
  is_message_after_timestamp None timestamp = false.
Proof.
  intros S N. repeat split.
  - apply is_after_spec.
  - apply is_after_spec.
  - intros. apply not_true_is_false. rewrite is_after_spec. simpl.
    fold S. lia.
  - intros. apply is_after_spec. simpl. fold S N. lia.
Qed.

(** [1.5] splits into one second and 500000000 nanoseconds. *)
Example split_timestamp_example :
  current_epoch (Q2Qc (3 # 2)) = 1 /\ current_ns (Q2Qc (3 # 2)) = 500000000.
Proof. split; reflexivity. Qed.

End Matching.

(** ** Construction with a step specification that is neither a count nor a size *)

(** C3 (checked on the code): when [steps[0]] is neither an [int] nor a
    [float], [__init__] of the linear, area and multi-area positioners
    returns normally; the object it builds has no [n_steps] and no
    [step_size].  The source marks the branch "Something went wrong" and
    "TODO: Raise an exception". *)
Theorem init_untagged_steps_returns :
  (forall start0 end0 rest passes0 offsets0 s0,
      s0 = PyNone \/ (exists s, s0 = PyStr s) ->
      LinearPositioner.init start0 end0 (s0 :: rest) passes0 offsets0 =
      Ok (LinearPositioner.mk offsets0 passes0 (add_offsets end0 offsets0)
            (add_offsets start0 offsets0) None None)) /\
  (forall start0 end0 rest passes0 offsets0 s0,
      s0 = PyNone \/ (exists s, s0 = PyStr s) ->
      AreaPositioner.init start0 end0 (s0 :: rest) passes0 offsets0 =
      Ok (AreaPositioner.mk offsets0 passes0 (add_offsets end0 offsets0)
            (add_offsets start0 offsets0) (length start0) None None)) /\
  (forall start0 end0 line rest passes0 offsets0 s0,
      s0 = PyNone \/ (exists s, s0 = PyStr s) ->
      MultiAreaPositioner.init start0 end0 ((s0 :: line) :: rest) passes0
        offsets0 =
      Ok (MultiAreaPositioner.mk offsets0 passes0
            (MultiAreaPositioner.add_offsets end0 offsets0)
            (MultiAreaPositioner.add_offsets start0 offsets0)
            (length start0) None None)).
Proof.
  repeat split; intros; destruct H as [-> | [s ->]]; reflexivity.
Qed.

Lemma init_untagged_steps_returns_witness :
  LinearPositioner.init [qz 0] [qz 10] [PyStr "5"] 1 None =
  Ok (LinearPositioner.mk None 1 [qz 10] [qz 0] None None).
Proof.
  apply (proj1 init_untagged_steps_returns [qz 0] [qz 10] [] 1 None (PyStr "5")).
  right. exists "5"%string. reflexivity.
Defined.

(** The failure only shows when the sequence is consumed: the start vector
    is yielded, then reading [self.n_steps] raises. *)
Example untagged_steps_fail_late :
  LinearPositioner.get_generator
    (LinearPositioner.mk None 1 [qz 10] [qz 0] None None) =
  ([[qz 0]], Raise AttributeError).
Proof. reflexivity. Qed.

(** ** The read loop of the bsread reader *)

Section ReadLoop.
Import ReadGroupInterface.
Variable clock : clock_t.
Variable stream : nat -> option message.

Lemma init_leaves_timeout_unset dn dw ps ms nm wt self :
  init dn dw ps ms nm wt = Ok self -> default_read_timeout self = None.
Proof.
  unfold init. destruct ps, ms; intros H; inversion H; reflexivity.
Qed.

(** C2 (checked on the code): on a reader built by [__init__], [read]
    raises [AttributeError] the first time it evaluates the loop
    condition, before it receives anything: the class never assigns
    [default_read_timeout].  It has then called [time()] twice and
    [receive()] not at all. *)
Theorem read_raises_attribute_error dn dw ps ms nm wt self fuel w :
  init dn dw ps ms nm wt = Ok self ->
  read clock stream (S fuel) self w =
  Some (Raise AttributeError, self, mkworld (S (S (ticks w))) (receives w)).
Proof.
  intros H. apply init_leaves_timeout_unset in H.
  unfold read. simpl. rewrite H. reflexivity.
Qed.

(** Were the attribute assigned from outside, the loop would end with the
    "Read timeout exceeded" exception: [k] iterations pass the time test
    and receive no matching frame, the next time test fails. *)
Lemma read_loop_times_out self timeout t0 k : forall w fuel,
  default_read_timeout self = Some timeout ->
  (forall j, (j < k)%nat ->
     (clock (ticks w + j)%nat - t0 < timeout)%Qc /\
     is_message_after_timestamp (stream (receives w + j)%nat) t0 = false) ->
  ~ (clock (ticks w + k)%nat - t0 < timeout)%Qc ->
  (k < fuel)%nat ->
  read_loop clock stream fuel self t0 w =
  Some (Raise GenericException, self,
        mkworld (S (ticks w + k)) (receives w + k)).
Proof.
  induction k as [| k IH]; intros w fuel Hattr Hiter Hend Hfuel.
  - destruct fuel as [| fuel]; [lia |]. simpl. rewrite Hattr. simpl.
    rewrite Nat.add_0_r in Hend.
    rewrite bool_decide_eq_false_2 by assumption.
    rewrite !Nat.add_0_r. reflexivity.
  - destruct fuel as [| fuel]; [lia |]. simpl. rewrite Hattr. simpl.
    destruct (Hiter O ltac:(lia)) as [Hlt Hno].
    rewrite Nat.add_0_r in Hlt, Hno.
    rewrite bool_decide_eq_true_2 by assumption.
    rewrite Hno.
    rewrite (IH (mkworld (S (ticks w)) (S (receives w))) fuel); simpl.
    + do 3 f_equal; lia.
    + assumption.
    + intros j Hj. destruct (Hiter (S j) ltac:(lia)) as [H1 H2].
      replace (S (ticks w + j)) with (ticks w + S j)%nat by lia.
      replace (S (receives w + j)) with (receives w + S j)%nat by lia.
      split; assumption.
    + replace (S (ticks w + k)) with (ticks w + S k)%nat by lia. assumption.
    + lia.
Qed.

End ReadLoop.

Lemma read_raises_attribute_error_witness :
  ReadGroupInterface.read (fun k => qz (Z.of_nat k)) (fun _ => None) 1
    (ReadGroupInterface.mk ["A"%string] [] 1 (qz 0) None None None)
    ReadGroupInterface.world0 =
  Some (Raise AttributeError,
        ReadGroupInterface.mk ["A"%string] [] 1 (qz 0) None None None,
        ReadGroupInterface.mkworld 2 0).
Proof.
  apply (read_raises_attribute_error (fun k => qz (Z.of_nat k)) (fun _ => None)
           1 (qz 0) (Some ["A"%string]) (Some []) None None).
  reflexivity.
Defined.

(** ** The polling loop of the EPICS writer *)

Section Polling.
Import EpicsWriter.
Variable reads : reads_t.
Variable clock : clock_t.

Lemma poll_length values tolerance index pv s s' :
  poll reads values tolerance index pv s = Ok s' ->
  length (snd s') = length (snd s).
Proof.
  destruct s as [w flags]. unfold poll. simpl.
  destruct (falsy _); [intros H; inversion H; reflexivity |].
  destruct (getitem values index); simpl; [| discriminate].
  destruct (reads _ _); [| discriminate].
  destruct (bool_decide _); intros H; inversion H; simpl;
    [apply length_insert | reflexivity].
Qed.

Lemma poll_other values tolerance index pv s s' j :
  poll reads values tolerance index pv s = Ok s' ->
  j <> index -> snd s' !! j = snd s !! j.
Proof.
  destruct s as [w flags]. unfold poll. simpl.
  destruct (falsy _); [intros H; inversion H; reflexivity |].
  destruct (getitem values index); simpl; [| discriminate].
  destruct (reads _ _); [| discriminate].
  destruct (bool_decide _); intros H Hj; inversion H; simpl;
    [apply list_lookup_insert_ne; congruence | reflexivity].
Qed.

Lemma poll_ticks values tolerance index pv s s' :
  poll reads values tolerance index pv s = Ok s' ->
  ticks (fst s') = ticks (fst s).
Proof.
  destruct s as [w flags]. unfold poll. simpl.
  destruct (falsy _); [intros H; inversion H; reflexivity |].
  destruct (getitem values index); simpl; [| discriminate].
  destruct (reads _ _); [| discriminate].
  destruct (bool_decide _); intros H; inversion H; reflexivity.
Qed.

(** A read of exactly zero leaves the flags as they are, as a read of
    [None] does. *)
Lemma poll_zero values tolerance index pv w flags :
  reads pv (gets w pv) = Some (qz 0) ->
  poll reads values tolerance index pv (w, flags) =
  Ok (snd (pv_get reads pv w), flags).
Proof.
  intros H. unfold poll. simpl. rewrite H. reflexivity.
Qed.

Lemma poll_all_length values tolerance rest : forall index s s',
  poll_all reads values tolerance index rest s = Ok s' ->
  length (snd s') = length (snd s).
Proof.
  induction rest as [| pv rest IH]; intros index s s' H; simpl in H.
  - inversion H; reflexivity.
  - destruct (snd s !! index) as [[|] |] eqn:E.
    + eauto.
    + destruct (poll reads values tolerance index pv s) as [s1 |] eqn:E1;
        simpl in H; [| discriminate].
      rewrite (IH _ _ _ H). eapply poll_length; eassumption.
    + inversion H; reflexivity.
Qed.

Lemma poll_all_ticks values tolerance rest : forall index s s',
  poll_all reads values tolerance index rest s = Ok s' ->
  ticks (fst s') = ticks (fst s).
Proof.
  induction rest as [| pv rest IH]; intros index s s' H; simpl in H.
  - inversion H; reflexivity.
  - destruct (snd s !! index) as [[|] |] eqn:E.
    + eauto.
    + destruct (poll reads values tolerance index pv s) as [s1 |] eqn:E1;
        simpl in H; [| discriminate].
      rewrite (IH _ _ _ H). eapply poll_ticks; eassumption.
    + inversion H; reflexivity.
Qed.

(** Polling a list of channels in two parts. *)
Lemma poll_all_app values tolerance front back : forall index s,
  (index + length front <= length (snd s))%nat ->
  poll_all reads values tolerance index (front ++ back) s =
  rbind (poll_all reads values tolerance index front s)
        (poll_all reads values tolerance (index + length front) back).
Proof.
  induction front as [| pv front IH]; intros index s Hlen; simpl in *.
  - rewrite Nat.add_0_r. reflexivity.
  - replace (index + S (length front))%nat
      with (S index + length front)%nat by lia.
    destruct (snd s !! index) as [[|] |] eqn:E.
    + apply IH. lia.
    + destruct (poll reads values tolerance index pv s) as [s0 |] eqn:E0;
        simpl; [| reflexivity].
      apply IH. rewrite (poll_length _ _ _ _ _ _ E0). lia.
    + apply lookup_ge_None in E. lia.
Qed.

Lemma put_all_ticks self values w :
  ticks (put_all self values w) = ticks w.
Proof.
  unfold put_all. generalize (zip (pvs self) values). intros l.
  revert w. induction l as [| [pv v] l IH]; intros w; simpl;
    [reflexivity | rewrite IH; reflexivity].
Qed.

Lemma poll_all_after values tolerance rest : forall index s s' j,
  poll_all reads values tolerance index rest s = Ok s' ->
  (index + length rest <= j)%nat -> snd s' !! j = snd s !! j.
Proof.
  induction rest as [| p rest IH]; intros index s s' j H Hj; simpl in H.
  - inversion H; reflexivity.
  - simpl in Hj. destruct (snd s !! index) as [[|] |] eqn:E.
    + eapply IH; [eassumption | lia].
    + destruct (poll reads values tolerance index p s) as [s1 |] eqn:E1;
        simpl in H; [| discriminate].
      rewrite (IH _ _ _ j H) by lia.
      eapply poll_other; [eassumption | lia].
    + inversion H; reflexivity.
Qed.

Lemma poll_second_absent values tolerance index pv w flags x :
  reads pv (gets w pv) = Some x -> x <> qz 0 ->
  reads pv (S (gets w pv)) = None ->
  (index < length values)%nat ->
  poll reads values tolerance index pv (w, flags) = Raise TypeError.
Proof.
  intros H1 Hx H2 Hi. unfold poll. simpl. rewrite H1. simpl.
  rewrite bool_decide_eq_false_2 by assumption.
  rewrite decide_True by reflexivity. rewrite H2.
  unfold getitem. destruct (lookup_lt_is_Some_2 values index Hi) as [v ->].
  reflexivity.
Qed.

Lemma poll_second_decides values tolerance index pv w flags x1 x2 target :
  reads pv (gets w pv) = Some x1 -> x1 <> qz 0 ->
  reads pv (S (gets w pv)) = Some x2 ->
  values !! index = Some target ->
  poll reads values tolerance index pv (w, flags) =
  Ok (snd (pv_get reads pv (snd (pv_get reads pv w))),
      if bool_decide (Qcabs (x2 - target) < tolerance)%Qc
      then <[index := true]> flags else flags).
Proof.
  intros H1 Hx H2 Hi. unfold poll. simpl. rewrite H1. simpl.
  rewrite bool_decide_eq_false_2 by assumption.
  rewrite decide_True by reflexivity. rewrite H2.
  unfold getitem. rewrite Hi. simpl.
  destruct (bool_decide _); reflexivity.
Qed.

(** C10: the value compared against the tolerance is the one a second
    [pv.get()] returns, not the one tested for availability; and when the
    first read of a channel yields a non-zero value and the second yields
    [None], [write] raises [TypeError].  The second part is stated for
    the first polling cycle, where the channels before this one have been
    polled without an exception. *)
Theorem write_compares_second_read :
  (forall values tolerance index pv w flags x1 x2 target,
      reads pv (gets w pv) = Some x1 -> x1 <> qz 0 ->
      reads pv (S (gets w pv)) = Some x2 ->
      values !! index = Some target ->
      poll reads values tolerance index pv (w, flags) =
      Ok (snd (pv_get reads pv (snd (pv_get reads pv w))),
          if bool_decide (Qcabs (x2 - target) < tolerance)%Qc
          then <[index := true]> flags else flags)) /\
  (forall self values tolerance timeout w fuel front pv back w1 flags x,
      pvs self = front ++ pv :: back ->
      (clock (S (ticks w)) - clock (ticks w) < timeout)%Qc ->
      poll_all reads values tolerance 0 front
        (first_cycle clock self values w, replicate (length (pvs self)) false) =
      Ok (w1, flags) ->
      reads pv (gets w1 pv) = Some x -> x <> qz 0 ->
      reads pv (S (gets w1 pv)) = None ->
      (length front < length values)%nat ->
      write reads clock (S fuel) self values tolerance timeout w =
      Some (Raise TypeError)).
Proof.
  split; [intros; eapply poll_second_decides; eassumption |].
  intros self values tolerance timeout w fuel front pv back w1 flags x
    Hpvs Hclock Hfront H1 Hx H2 Hlen.
  assert (Hn : length (pvs self) = S (length front + length back)).
  { rewrite Hpvs, length_app. simpl. lia. }
  assert (Hflag : flags !! length front = Some false).
  { change flags with (snd (w1, flags)).
    rewrite (poll_all_after _ _ _ _ _ _ (length front) Hfront)
      by (simpl; lia).
    simpl. apply lookup_replicate_2. lia. }
  unfold write. simpl.
  assert (Hall : all (replicate (length (pvs self)) false) = false).
  { rewrite Hn. reflexivity. }
  rewrite Hall. rewrite put_all_ticks.
  rewrite bool_decide_eq_true_2 by assumption.
  unfold first_cycle in Hfront. simpl in Hfront.
  rewrite put_all_ticks in Hfront.
  set (s0 := (mkworld _ _ _, replicate (length (pvs self)) false)) in *.
  rewrite Hpvs.
  rewrite poll_all_app
    by (unfold s0; simpl; rewrite length_replicate, Hn; lia).
  rewrite Hfront. cbn [rbind poll_all snd Nat.add].
  rewrite Hflag.
  rewrite (poll_second_absent _ _ _ _ _ _ x) by assumption.
  reflexivity.
Qed.

Lemma all_false_at flags i : flags !! i = Some false -> all flags = false.
Proof.
  revert i. induction flags as [| b flags IH]; intros [| i] H;
    simpl in H; try discriminate.
  - inversion H; reflexivity.
  - unfold all in *. simpl. rewrite (IH i H). apply andb_false_r.
Qed.

Lemma poll_returns values tolerance index pv s :
  (forall n, reads pv n <> None) -> (index < length values)%nat ->
  exists s', poll reads values tolerance index pv s = Ok s'.
Proof.
  intros Hr Hi. destruct s as [w flags]. unfold poll. simpl.
  destruct (falsy _); [eexists; reflexivity |].
  unfold getitem. destruct (lookup_lt_is_Some_2 values index Hi) as [v ->].
  simpl. destruct (reads pv _) eqn:E; [| exfalso; eapply Hr; eassumption].
  destruct (bool_decide _); eexists; reflexivity.
Qed.

Lemma poll_all_returns values tolerance rest : forall index s,
  Forall (fun pv => forall n, reads pv n <> None) rest ->
  (index + length rest <= length values)%nat ->
  exists s', poll_all reads values tolerance index rest s = Ok s'.
Proof.
  induction rest as [| pv rest IH]; intros index s Hr Hlen; simpl in *.
  - eexists; reflexivity.
  - inversion Hr as [| ? ? Hpv Hrest]; subst.
    destruct (snd s !! index) as [[|] |].
    + apply IH; [assumption | lia].
    + destruct (poll_returns values tolerance index pv s Hpv) as [s1 ->];
        [lia |]. simpl. apply IH; [assumption | lia].
    + eexists; reflexivity.
Qed.

(** The flag of a channel that always reads zero is never set. *)
Lemma poll_all_zero_stays values tolerance i rest : forall index s s',
  (forall j pv, rest !! j = Some pv -> (index + j)%nat = i ->
                forall n, reads pv n = Some (qz 0)) ->
  poll_all reads values tolerance index rest s = Ok s' ->
  snd s !! i = Some false -> snd s' !! i = Some false.
Proof.
  induction rest as [| pv rest IH]; intros index s s' Hz H Hi; simpl in H.
  - inversion H; subst; assumption.
  - assert (Hz' : forall j p, rest !! j = Some p -> (S index + j)%nat = i ->
                              forall n, reads p n = Some (qz 0)).
    { intros j p Hj Hij. apply (Hz (S j) p); [exact Hj | lia]. }
    destruct (snd s !! index) as [[|] |] eqn:E.
    + eapply IH; eassumption.
    + destruct (poll reads values tolerance index pv s) as [s1 |] eqn:E1;
        simpl in H; [| discriminate].
      eapply IH; [exact Hz' | exact H |].
      destruct (decide (index = i)) as [-> | Hne].
      * destruct s as [w flags].
        rewrite poll_zero in E1
          by (apply (Hz O pv); [reflexivity | lia]).
        inversion E1; subst. exact Hi.
      * rewrite (poll_other _ _ _ _ _ _ i E1) by congruence. exact Hi.
    + inversion H; subst; assumption.
Qed.

Lemma poll_loop_zero_times_out self values tolerance timeout t0 i pv0 k :
  forall fuel s,
  pvs self !! i = Some pv0 -> (forall n, reads pv0 n = Some (qz 0)) ->
  Forall (fun pv => forall n, reads pv n <> None) (pvs self) ->
  length values = length (pvs self) ->
  snd s !! i = Some false ->
  ~ (clock (ticks (fst s) + k)%nat - t0 < timeout)%Qc ->
  (k < fuel)%nat ->
  exists s', poll_loop reads clock fuel self values tolerance timeout t0 s
             = Some (Ok s') /\ snd s' !! i = Some false.
Proof.
  induction k as [| k IH]; intros fuel s Hi Hz Hr Hlen Hflag Hend Hfuel;
    (destruct fuel as [| fuel]; [lia |]); simpl;
    rewrite (all_false_at _ _ Hflag).
  - rewrite Nat.add_0_r in Hend.
    rewrite bool_decide_eq_false_2 by assumption.
    eexists; split; [reflexivity | exact Hflag].
  - destruct (bool_decide _) eqn:Et;
      [| eexists; split; [reflexivity | exact Hflag]].
    set (s1 := (mkworld _ _ _, snd s)).
    destruct (poll_all_returns values tolerance (pvs self) O s1 Hr) as [s2 E2];
      [simpl; lia |].
    rewrite E2.
    apply IH; try assumption.
    + eapply poll_all_zero_stays; [| exact E2 | exact Hflag].
      intros j p Hj Hij n. simpl in Hij. subst j.
      rewrite Hi in Hj. inversion Hj; subst. apply Hz.
    + rewrite (poll_all_ticks _ _ _ _ _ _ E2). simpl.
      replace (S (ticks (fst s) + k))%nat with (ticks (fst s) + S k)%nat by lia.
      exact Hend.
    + lia.
Qed.

(** C9: a polled read of exactly zero is handled like a read that yields
    no value, the channel is not marked converged in that cycle; so when
    a channel is commanded to [0] and reads back exactly [0] on every
    poll, [write] raises the [ValueError] of the time-out once the clock
    passes the time limit, although [abs(current - target) < tolerance]
    holds for every one of its reads.  The other channels always read a
    value and there is a target for every channel, so that no other
    exception occurs. *)
Theorem write_zero_readback_times_out :
  (forall values tolerance index pv w flags,
      reads pv (gets w pv) = Some (qz 0) ->
      poll reads values tolerance index pv (w, flags) =
      Ok (snd (pv_get reads pv w), flags)) /\
  (forall self values tolerance timeout w i pv0 k,
      pvs self !! i = Some pv0 ->
      values !! i = Some (qz 0) ->
      (forall n, reads pv0 n = Some (qz 0)) ->
      Forall (fun pv => forall n, reads pv n <> None) (pvs self) ->
      length values = length (pvs self) ->
      (qz 0 < tolerance)%Qc ->
      ~ (clock (S (ticks w) + k)%nat - clock (ticks w) < timeout)%Qc ->
      (forall n x, reads pv0 n = Some x ->
                   (Qcabs (x - qz 0) < tolerance)%Qc) /\
      forall fuel, (k < fuel)%nat ->
        write reads clock fuel self values tolerance timeout w =
        Some (Raise ValueError)).
Proof.
  split; [intros; apply poll_zero; assumption |].
  intros self values tolerance timeout w i pv0 k Hi Hv Hz Hr Hlen Htol Hend.
  split.
  - intros n x Hx. rewrite Hz in Hx. inversion Hx; subst.
    replace (qz 0 - qz 0)%Qc with (qz 0) by (apply Qc_is_canon; reflexivity).
    exact Htol.
  - intros fuel Hfuel. unfold write. simpl.
    rewrite put_all_ticks.
    set (s := (mkworld _ _ _, replicate (length (pvs self)) false)).
    destruct (poll_loop_zero_times_out self values tolerance timeout
                (clock (ticks w)) i pv0 k fuel s Hi Hz Hr Hlen)
      as [[w' flags'] [E Hflag]].
    + simpl. apply lookup_replicate_2. eapply lookup_lt_Some; eassumption.
    + simpl. exact Hend.
    + exact Hfuel.
    + rewrite E. simpl in Hflag. rewrite (all_false_at _ _ Hflag). reflexivity.
Qed.

End Polling.

Lemma write_compares_second_read_witness :
  EpicsWriter.write (fun _ n => if decide (n = O) then Some (qz 1) else None)
    (fun k => qz (Z.of_nat k)) 1 (EpicsWriter.mk [O]) [qz 1]
    EpicsWriter.default_tolerance EpicsWriter.default_timeout
    EpicsWriter.world0 =
  Some (Raise TypeError).
Proof.
  eapply (proj2 (write_compares_second_read
                   (fun _ n => if decide (n = O) then Some (qz 1) else None)
                   (fun k => qz (Z.of_nat k)))
            (EpicsWriter.mk [O]) [qz 1] EpicsWriter.default_tolerance
            EpicsWriter.default_timeout EpicsWriter.world0 O [] O []
            _ _ (qz 1)).
  - reflexivity.
  - reflexivity.
  - reflexivity.
  - reflexivity.
  - intros H. apply (f_equal this) in H. vm_compute in H. discriminate.
  - reflexivity.
  - simpl. lia.
Defined.

Lemma write_zero_readback_times_out_witness :
  EpicsWriter.write (fun _ _ => Some (qz 0)) (fun k => qz (Z.of_nat k)) 5
    (EpicsWriter.mk [O]) [qz 0]
    EpicsWriter.default_tolerance EpicsWriter.default_timeout
    EpicsWriter.world0 =
  Some (Raise ValueError).
Proof.
  refine (proj2 (proj2 (write_zero_readback_times_out
                   (fun _ _ => Some (qz 0)) (fun k => qz (Z.of_nat k)))
            (EpicsWriter.mk [O]) [qz 0] EpicsWriter.default_tolerance
            EpicsWriter.default_timeout EpicsWriter.world0 O O 4%nat
            _ _ _ _ _ _ _) 5%nat _).
  - reflexivity.
  - reflexivity.
  - intros n. reflexivity.
  - repeat constructor. intros n. discriminate.
  - reflexivity.
  - reflexivity.
  - vm_compute. intros H. discriminate.
  - lia.
Defined.

(** ** What [write] does when the first read equals the target *)

(** C4 (checked on the code): one channel, target [0], every read returns
    [0], default tolerance and time limit, a clock that advances one second
    per call: [write] raises [ValueError].  The first read after the write
    equals the target and is within tolerance; the test
    [if not current_value] skips it as it skips [None]. *)
Theorem write_target_zero_raises :
  EpicsWriter.write (fun _ _ => Some (qz 0)) (fun k => qz (Z.of_nat k)) 10
    (EpicsWriter.mk [O]) [qz 0]
    EpicsWriter.default_tolerance EpicsWriter.default_timeout
    EpicsWriter.world0 =
  Some (Raise ValueError).
Proof. vm_compute. reflexivity. Qed.

(** With a target other than zero the same scenario returns normally, after
    two reads. *)
Example write_target_one_returns :
  exists w,
    EpicsWriter.write (fun _ _ => Some (qz 1)) (fun k => qz (Z.of_nat k)) 10
      (EpicsWriter.mk [O]) [qz 1]
      EpicsWriter.default_tolerance EpicsWriter.default_timeout
      EpicsWriter.world0 = Some (Ok w) /\
    EpicsWriter.gets w O = 2%nat /\ EpicsWriter.puts w = [(O, qz 1)].
Proof. eexists. split; [vm_compute; reflexivity | split; reflexivity]. Qed.

(** One channel that never comes within tolerance makes [write] raise
    [ValueError] although the other channel converges in the first cycle. *)
Example write_one_channel_stuck :
  EpicsWriter.write (fun pv _ => if decide (pv = O) then Some (qz 1)
                                 else Some (qz 7))
    (fun k => qz (Z.of_nat k)) 10
    (EpicsWriter.mk [O; 1%nat]) [qz 1; qz 2]
    EpicsWriter.default_tolerance EpicsWriter.default_timeout
    EpicsWriter.world0 =
  Some (Raise ValueError).
Proof. vm_compute. reflexivity. Qed.

(** ** Generators: loops *)

Lemma gbind_ok {Y A B : Type} (m : gen Y A) (k : A -> gen Y B) ys a zs r :
  m = (ys, Ok a) -> k a = (zs, r) -> gbind m k = (ys ++ zs, r).
Proof. intros -> H. unfold gbind. rewrite H. reflexivity. Qed.

Lemma gbind_lift_ok {Y A B : Type} (a : A) (k : A -> gen Y B) :
  gbind (lift (Ok a)) k = k a.
Proof. unfold gbind, lift. destruct (k a). reflexivity. Qed.

Lemma gbind_yield {Y B : Type} (y : Y) (k : unit -> gen Y B) zs r :
  k tt = (zs, r) -> gbind (yield y) k = (y :: zs, r).
Proof. intros H. unfold gbind, yield. rewrite H. reflexivity. Qed.

Lemma for_loop_S {Y A : Type} n i0 (body : Z -> A -> gen Y A) a :
  for_loop (S n) i0 body a =
  gbind (body i0 a) (fun a' => for_loop n (i0 + 1) body a').
Proof. reflexivity. Qed.

(** A loop whose body does the same whatever the loop variable and the
    state: the yields repeat. *)
Lemma for_loop_const {Y : Type} (body : Z -> unit -> gen Y unit) ys n :
  forall i0,
  (forall i u, body i u = (ys, Ok tt)) ->
  for_loop n i0 body tt = (concat (replicate n ys), Ok tt).
Proof.
  induction n as [| n IH]; intros i0 H; [reflexivity |].
  rewrite for_loop_S.
  erewrite gbind_ok; [| apply H | apply IH; assumption]. reflexivity.
Qed.

(** Two generators that end normally are equal when their yields are. *)
Lemma gen_eq_dec_unit (g1 g2 : gen vec unit) :
  bool_decide (yielded g1 = yielded g2) &&
  match outcome g1, outcome g2 with
  | Ok _, Ok _ => true
  | _, _ => false
  end = true -> g1 = g2.
Proof.
  destruct g1 as [y1 [[] | e1]], g2 as [y2 [[] | e2]]; simpl;
    rewrite ?andb_false_r; try discriminate.
  rewrite andb_true_r. intros H. apply bool_decide_eq_true_1 in H.
  subst. reflexivity.
Qed.

(** ** The zigzag line scan *)

Section ZigZagLinear.
Import LinearPositioner ZigZagLinearPositioner.

Lemma chained_app dir sizes prev l1 l2 z :
  last (prev :: l1) = Some z ->
  chained dir sizes prev l1 ->
  chained (fun k => dir (length l1 + k)%nat) sizes z l2 ->
  chained dir sizes prev (l1 ++ l2).
Proof.
  intros Hlast H1 H2 k a b Ha Hb.
  destruct (decide (k < length l1)%nat) as [Hk | Hk].
  - rewrite lookup_app_l in Hb by assumption.
    apply (H1 k a b); [| assumption].
    rewrite app_comm_cons, lookup_app_l in Ha by (simpl; lia). assumption.
  - rewrite lookup_app_r in Hb by lia.
    replace k with (length l1 + (k - length l1))%nat at 1 by lia.
    apply H2; [| assumption].
    destruct (k - length l1)%nat as [| j] eqn:Ej.
    + assert (k = length l1) by lia. subst k. simpl.
      rewrite last_lookup in Hlast. simpl in Hlast.
      rewrite app_comm_cons, lookup_app_l in Ha by (simpl; lia).
      congruence.
    + simpl. rewrite app_comm_cons, lookup_app_r in Ha by (simpl; lia).
      simpl in Ha. replace (k - S (length l1))%nat with j in Ha by lia.
      assumption.
Qed.

Lemma zigzag_advance_total d sizes : forall current,
  Forall (fun s => is_number s = true) sizes ->
  exists v, ZigZagLinearPositioner.advance d current sizes = Ok v.
Proof.
  unfold ZigZagLinearPositioner.advance.
  induction sizes as [| s sizes IH]; intros current Hs.
  - destruct current; eexists; reflexivity.
  - destruct current as [| p current]; [eexists; reflexivity |].
    inversion Hs as [| ? ? Hnum Hrest]; subst. simpl.
    destruct (IH current Hrest) as [v ->].
    destruct s; try discriminate; simpl; eexists; reflexivity.
Qed.

(** The inner loop: [m] steps in the direction [d]. *)
Lemma zigzag_sweep self d sizes m : forall i0 current,
  step_size self = Some sizes ->
  Forall (fun s => is_number s = true) sizes ->
  exists l z,
    for_loop m i0 (fun _ current_positions =>
      let* sizes := lift (getattr (step_size self)) in
      let* current_positions :=
        lift (ZigZagLinearPositioner.advance d current_positions sizes) in
      do yield current_positions in
      gret current_positions) current = (l, Ok z) /\
    length l = m /\ last (current :: l) = Some z /\
    chained (fun _ => d) sizes current l.
Proof.
  induction m as [| m IH]; intros i0 current Hsz Hnum.
  - exists [], current. repeat split. intros k a b Ha Hb. discriminate.
  - destruct (zigzag_advance_total d sizes current Hnum) as [v Hv].
    destruct (IH (i0 + 1) v Hsz Hnum) as (l & z & Hl & Hlen & Hlast & Hch).
    exists (v :: l), z. rewrite for_loop_S. repeat split.
    + change (v :: l) with ([v] ++ l).
      apply gbind_ok with (a := v); [| exact Hl].
      rewrite Hsz. simpl. rewrite Hv. reflexivity.
    + simpl. lia.
    + rewrite last_cons, Hlast. reflexivity.
    + intros [| k] a b Ha Hb; simpl in *.
      * inversion Ha; inversion Hb; subst. assumption.
      * apply (Hch k a b); assumption.
Qed.

Lemma chained_ext dir dir' sizes prev l :
  (forall k, (k < length l)%nat -> dir k = dir' k) ->
  chained dir sizes prev l -> chained dir' sizes prev l.
Proof.
  intros Hext H k a b Ha Hb. rewrite <- Hext; [apply H; assumption |].
  eapply lookup_lt_Some; eassumption.
Qed.

(** The pass loop, entered with [pass_number = j0]. *)
Lemma zigzag_passes self n sizes p : forall j0 current,
  n_steps self = Some n ->
  step_size self = Some sizes ->
  Forall (fun s => is_number s = true) sizes ->
  exists l z,
    for_loop p (Z.of_nat j0) (fun pass_number current_positions =>
       let direction := direction_of pass_number in
       let* n := lift (getattr (n_steps self)) in
       for_range n (fun _ current_positions =>
         let* sizes := lift (getattr (step_size self)) in
         let* current_positions :=
           lift (ZigZagLinearPositioner.advance direction current_positions
                   sizes) in
         do yield current_positions in
         gret current_positions) current_positions) current = (l, Ok z) /\
    length l = (p * Z.to_nat n)%nat /\
    chained (fun k => direction_of (Z.of_nat (j0 + k / Z.to_nat n))) sizes current l.
Proof.
  induction p as [| p IH]; intros j0 current Hn Hsz Hnum.
  - exists [], current. repeat split. intros k a b Ha Hb. discriminate.
  - destruct (zigzag_sweep self (direction_of (Z.of_nat j0)) sizes (Z.to_nat n) 0
                current Hsz Hnum) as (l1 & z1 & Hl1 & Hlen1 & Hlast1 & Hch1).
    destruct (IH (S j0) z1 Hn Hsz Hnum) as (l2 & z2 & Hl2 & Hlen2 & Hch2).
    exists (l1 ++ l2), z2. rewrite for_loop_S. repeat split.
    + apply gbind_ok with (a := z1).
      * rewrite Hn. simpl. unfold for_range in *.
        destruct (for_loop (Z.to_nat n) 0 _ current) as [ys r] eqn:E.
        inversion Hl1; subst. reflexivity.
      * rewrite <- Hl2. f_equal. lia.
    + rewrite length_app. lia.
    + apply chained_app with (z := z1); [assumption | |].
      * apply chained_ext with (dir := fun _ => direction_of (Z.of_nat j0));
          [| assumption].
        intros k Hk. rewrite Nat.div_small by lia. f_equal. lia.
      * apply chained_ext
          with (dir := fun k => direction_of (Z.of_nat (S j0 + k / Z.to_nat n)));
          [| assumption].
        intros k Hk. rewrite Hlen1.
        assert (Z.to_nat n <> O) by (destruct (Z.to_nat n); [simpl in *|]; lia).
        replace (Z.to_nat n + k)%nat with (k + 1 * Z.to_nat n)%nat by lia.
        rewrite Nat.div_add by assumption. f_equal. lia.
Qed.

Lemma zigzag_linear_general self n sizes :
  n_steps self = Some n ->
  step_size self = Some sizes ->
  Forall (fun s => is_number s = true) sizes ->
  exists rest,
    ZigZagLinearPositioner.get_generator self = (start self :: rest, Ok tt) /\
    length rest = (Z.to_nat (passes self) * Z.to_nat n)%nat /\
    chained (fun k => direction_of (Z.of_nat (k / Z.to_nat n))) sizes
            (start self) rest.
Proof.
  intros Hn Hsz Hnum.
  destruct (zigzag_passes self n sizes (Z.to_nat (passes self)) O
              (start self) Hn Hsz Hnum) as (l & z & Hl & Hlen & Hch).
  exists l. repeat split; [| assumption | assumption].
  unfold ZigZagLinearPositioner.get_generator, for_range.
  change (start self :: l) with ([start self] ++ l).
  apply gbind_ok with (a := tt); [reflexivity |].
  rewrite <- (app_nil_r l).
  apply gbind_ok with (a := z); [exact Hl | reflexivity].
Qed.

Lemma zigzag_linear_example :
  exists self,
    init [qz 0] [qz 10] [PyInt 5] 2 None = Ok self /\
    ZigZagLinearPositioner.get_generator self =
    ([[qz 0]; [qz 2]; [qz 4]; [qz 6]; [qz 8]; [qz 10];
      [qz 8]; [qz 6]; [qz 4]; [qz 2]; [qz 0]], Ok tt).
Proof.
  eexists. split; [reflexivity |].
  apply gen_eq_dec_unit. vm_compute. reflexivity.
Qed.

End ZigZagLinear.

(** C7: the generator of the zigzag line scan yields the start vector once,
    at the very beginning, and then [passes * n_steps] vectors, each obtained
    from the one before it by one step, forward in the even passes and
    backward in the odd ones: a pass continues from where the previous one
    ended.  For [start=[0]], [end=[10]], five steps and two passes the
    sequence is [0],[2],[4],[6],[8],[10],[8],[6],[4],[2],[0]. *)
Theorem zigzag_linear_sequence :
  (forall self n sizes,
      LinearPositioner.n_steps self = Some n ->
      LinearPositioner.step_size self = Some sizes ->
      Forall (fun s => is_number s = true) sizes ->
      exists rest,
        ZigZagLinearPositioner.get_generator self =
        (LinearPositioner.start self :: rest, Ok tt) /\
        length rest = (Z.to_nat (LinearPositioner.passes self) * Z.to_nat n)%nat /\
        forall k a b,
          (LinearPositioner.start self :: rest) !! k = Some a ->
          rest !! k = Some b ->
          ZigZagLinearPositioner.advance
            (ZigZagLinearPositioner.direction_of (Z.of_nat (k / Z.to_nat n)))
            a sizes = Ok b) /\
  (exists self,
      LinearPositioner.init [qz 0] [qz 10] [PyInt 5] 2 None = Ok self /\
      ZigZagLinearPositioner.get_generator self =
      ([[qz 0]; [qz 2]; [qz 4]; [qz 6]; [qz 8]; [qz 10];
        [qz 8]; [qz 6]; [qz 4]; [qz 2]; [qz 0]], Ok tt)).
Proof.
  split; [| exact zigzag_linear_example].
  intros self n sizes Hn Hsz Hnum.
  destruct (zigzag_linear_general self n sizes Hn Hsz Hnum)
    as (rest & Hg & Hlen & Hch).
  exists rest. repeat split; assumption.
Qed.

Lemma zigzag_linear_sequence_witness :
  exists rest,
    ZigZagLinearPositioner.get_generator
      (LinearPositioner.mk None 2 [qz 10] [qz 0] (Some 5) (Some [PyInt 2])) =
    ([qz 0] :: rest, Ok tt) /\ length rest = 10%nat.
Proof.
  destruct (proj1 zigzag_linear_sequence
              (LinearPositioner.mk None 2 [qz 10] [qz 0] (Some 5) (Some [PyInt 2]))
              5 [PyInt 2] eq_refl eq_refl ltac:(repeat constructor))
    as (rest & Hg & Hlen & _).
  exists rest. split; [exact Hg | exact Hlen].
Defined.

(** ** The zigzag waypoint scan *)

Section ZigZagVector.
Import VectorPositioner ZigZagVectorPositioner.

Lemma py_range_up n :
  py_range 0 (Z.of_nat n) 1 = Z.of_nat <$> seq 0 n.
Proof.
  unfold py_range. rewrite decide_True by lia.
  replace (Z.to_nat ((Z.of_nat n - 0 + 1 - 1) / 1)) with n
    by (rewrite Z.div_1_r; lia).
  apply list_fmap_ext. intros i x _. lia.
Qed.

Lemma py_range_down n :
  py_range (Z.of_nat n - 2) 0 (-1) =
  (fun i : nat => Z.of_nat n - 2 - Z.of_nat i) <$> seq 0 (n - 2).
Proof.
  unfold py_range. rewrite decide_False by lia. rewrite decide_True by lia.
  replace (Z.to_nat ((Z.of_nat n - 2 - 0 - -1 - 1) / - -1)) with (n - 2)%nat
    by (change (- -1) with 1; rewrite Z.div_1_r; lia).
  apply list_fmap_ext. intros i x _. lia.
Qed.

Lemma index_cycle_length self n :
  n_positions self = Z.of_nat n ->
  length (index_cycle self) = (n + (n - 2))%nat.
Proof.
  intros Hn. unfold index_cycle. rewrite Hn, py_range_up, py_range_down.
  rewrite length_app, !length_fmap, !length_seq. reflexivity.
Qed.

Lemma index_cycle_lookup self n k :
  n_positions self = Z.of_nat n -> (1 <= n)%nat ->
  cycle_next (index_cycle self) k = Ok (Z.of_nat (pingpong n k)).
Proof.
  intros Hn Hpos.
  assert (Hlen := index_cycle_length self n Hn).
  assert (Hnext : cycle_next (index_cycle self) k =
                  getitem (index_cycle self) (k mod (n + (n - 2)))%nat).
  { rewrite <- Hlen. unfold cycle_next.
    destruct (index_cycle self); [simpl in Hlen; lia | reflexivity]. }
  rewrite Hnext. unfold pingpong.
  set (m := (k mod (n + (n - 2)))%nat).
  assert (Hm : (m < n + (n - 2))%nat) by (apply Nat.mod_upper_bound; lia).
  unfold getitem, index_cycle. rewrite Hn, py_range_up, py_range_down.
  destruct (decide (m < n)%nat) as [Hlt | Hge].
  - rewrite lookup_app_l by (rewrite length_fmap, length_seq; lia).
    rewrite list_lookup_fmap, lookup_seq_lt by lia. reflexivity.
  - rewrite lookup_app_r by (rewrite length_fmap, length_seq; lia).
    rewrite length_fmap, length_seq.
    rewrite list_lookup_fmap, lookup_seq_lt by lia. simpl.
    f_equal. lia.
Qed.

Lemma pingpong_bound n k : (1 <= n)%nat -> (pingpong n k < n)%nat.
Proof.
  intros Hn. unfold pingpong.
  assert (Hm : (k mod (n + (n - 2)) < n + (n - 2))%nat)
    by (apply Nat.mod_upper_bound; lia).
  destruct (decide _); lia.
Qed.

(** The loop of [get_generator], entered after [k] calls of [next]. *)
Lemma zigzag_vector_loop self n count : forall i0 k,
  n_positions self = Z.of_nat n -> n = length (positions self) ->
  (1 <= n)%nat ->
  exists ys,
    for_loop count i0 (fun x k =>
       let* i := lift (cycle_next (index_cycle self) k) in
       let* position := lift (getitem_int (positions self) i) in
       do yield position in
       gret (S k)) k = (ys, Ok (k + count)%nat) /\
    length ys = count /\
    forall j y, ys !! j = Some y ->
                positions self !! pingpong n (k + j) = Some y.
Proof.
  induction count as [| count IH]; intros i0 k Hn Hlen Hpos.
  - exists []. rewrite Nat.add_0_r. repeat split. intros j y H. discriminate.
  - destruct (IH (i0 + 1) (S k) Hn Hlen Hpos) as (ys & Hys & Hl & Hidx).
    assert (Hb := pingpong_bound n k Hpos).
    destruct (lookup_lt_is_Some_2 (positions self) (pingpong n k)) as [y Hy];
      [lia |].
    exists (y :: ys). rewrite for_loop_S. repeat split.
    + change (y :: ys) with ([y] ++ ys).
      replace (k + S count)%nat with (S k + count)%nat by lia.
      apply gbind_ok with (a := S k); [| exact Hys].
      rewrite (index_cycle_lookup self n k Hn Hpos). simpl.
      unfold getitem_int. rewrite decide_True by lia.
      rewrite Nat2Z.id. unfold getitem. rewrite Hy. reflexivity.
    + simpl. lia.
    + intros [| j] y' H; simpl in H.
      * inversion H; subst. rewrite Nat.add_0_r. exact Hy.
      * replace (k + S j)%nat with (S k + j)%nat by lia. apply Hidx, H.
Qed.

(** Two indices drawn one after the other are neighbours: no waypoint is
    emitted twice in a row, at the turning points in particular. *)
Lemma pingpong_neighbours n k :
  (2 <= n)%nat ->
  pingpong n (S k) = S (pingpong n k) \/ S (pingpong n (S k)) = pingpong n k.
Proof.
  intros Hn. unfold pingpong.
  set (P := (n + (n - 2))%nat).
  assert (HP : (P <> 0)%nat) by (unfold P; lia).
  assert (Hm : (k mod P < P)%nat) by (apply Nat.mod_upper_bound; lia).
  assert (Hs : (S k mod P = S (k mod P) /\ S (k mod P) < P)%nat \/
               (S k mod P = 0 /\ S (k mod P) = P)%nat).
  { destruct (decide (S (k mod P) < P)%nat) as [Hlt | Hge].
    - left. split; [| assumption].
      symmetry. apply (Nat.mod_unique (S k) P (k / P)); [assumption |].
      rewrite (Nat.div_mod_eq k P) at 1. lia.
    - right. split; [| lia].
      symmetry. apply (Nat.mod_unique (S k) P (S (k / P))); [lia |].
      rewrite (Nat.div_mod_eq k P) at 1. lia. }
  unfold P in *.
  destruct Hs as [[-> Hlt] | [-> Heq]];
    repeat destruct (decide _); lia.
Qed.

End ZigZagVector.

(** C6: for [n >= 1] waypoints and [p] passes the zigzag waypoint scan
    yields exactly [n + (p-1) * (n-1)] positions; the j-th is the waypoint
    whose index is reached after [j] steps of going forward through
    [0 .. n-1] and backward through [n-2 .. 1]; two positions yielded one
    after the other are neighbouring waypoints, so that the waypoint at
    which a pass ends is not repeated by the next pass.  Three waypoints
    and two passes give the index order 0,1,2,1,0. *)
Theorem zigzag_vector_sequence :
  (forall self : VectorPositioner.t,
      let n := length (VectorPositioner.positions self) in
      VectorPositioner.n_positions self = Z.of_nat n ->
      (1 <= n)%nat -> 0 <= VectorPositioner.passes self ->
      exists ys,
        ZigZagVectorPositioner.get_generator self = (ys, Ok tt) /\
        Z.of_nat (length ys) =
          Z.of_nat n + (VectorPositioner.passes self - 1) * (Z.of_nat n - 1) /\
        (forall j y, ys !! j = Some y ->
            VectorPositioner.positions self
              !! ZigZagVectorPositioner.pingpong n j = Some y) /\
        (forall j, (2 <= n)%nat ->
            ZigZagVectorPositioner.pingpong n (S j) =
              S (ZigZagVectorPositioner.pingpong n j) \/
            S (ZigZagVectorPositioner.pingpong n (S j)) =
              ZigZagVectorPositioner.pingpong n j)) /\
  (forall a b c : vec,
      ZigZagVectorPositioner.get_generator
        (VectorPositioner.init [a; b; c] 2 None) = ([a; b; c; b; a], Ok tt)) /\
  ZigZagVectorPositioner.pingpong 3 <$> seq 0 5 = [0; 1; 2; 1; 0]%nat.
Proof.
  split; [| split; reflexivity].
  intros self n Hn Hpos Hp.
  destruct (zigzag_vector_loop self n
              (Z.to_nat (ZigZagVectorPositioner.n_indexes self)) 0 O
              Hn eq_refl Hpos) as (ys & Hys & Hlen & Hidx).
  exists ys. repeat split.
  - unfold ZigZagVectorPositioner.get_generator, for_range.
    rewrite <- (app_nil_r ys).
    eapply gbind_ok; [exact Hys | reflexivity].
  - rewrite Hlen. unfold ZigZagVectorPositioner.n_indexes. rewrite Hn. nia.
  - exact Hidx.
  - intros j Hj. apply pingpong_neighbours. exact Hj.
Qed.

Lemma zigzag_vector_sequence_witness :
  exists ys,
    ZigZagVectorPositioner.get_generator
      (VectorPositioner.mk [[qz 0]; [qz 1]; [qz 2]] 2 None 3) = (ys, Ok tt) /\
    Z.of_nat (length ys) = 5.
Proof.
  destruct (proj1 zigzag_vector_sequence
              (VectorPositioner.mk [[qz 0]; [qz 1]; [qz 2]] 2 None 3)
              eq_refl ltac:(simpl; lia) ltac:(simpl; lia))
    as (ys & Hg & Hlen & _).
  exists ys. split; [exact Hg | exact Hlen].
Defined.

(** ** The zigzag area scan *)

Lemma for_loop_total {Y A : Type} (Inv : A -> Prop) (body : Z -> A -> gen Y A) n :
  forall i0 a,
  Inv a ->
  (forall i a, Inv a -> exists ys a', body i a = (ys, Ok a') /\ Inv a') ->
  exists ys a', for_loop n i0 body a = (ys, Ok a') /\ Inv a'.
Proof.
  induction n as [| n IH]; intros i0 a Ha Hbody.
  - exists [], a. split; [reflexivity | assumption].
  - destruct (Hbody i0 a Ha) as (ys & a1 & E1 & H1).
    destruct (IH (i0 + 1) a1 H1 Hbody) as (zs & a2 & E2 & H2).
    exists (ys ++ zs), a2. split; [| assumption].
    rewrite for_loop_S. eapply gbind_ok; eassumption.
Qed.

Section ZigZagArea.
Import AreaPositioner ZigZagAreaPositioner.

Lemma axis_steps_ok self counts sizes axis :
  well_formed self counts sizes -> (axis < n_axis self)%nat ->
  exists n, axis_steps self axis = Ok n.
Proof.
  intros (Hc & _ & _ & Hlc & _) Hax. unfold axis_steps. rewrite Hc. simpl.
  unfold getitem. rewrite list_lookup_fmap.
  destruct (lookup_lt_is_Some_2 counts axis) as [n ->]; [lia |].
  exists n. reflexivity.
Qed.

Lemma keeps_refl n axis fr : keeps n axis fr fr.
Proof. repeat split; auto. Qed.

Lemma keeps_trans n axis fr1 fr2 fr3 :
  keeps n axis fr1 fr2 -> keeps n axis fr2 fr3 -> keeps n axis fr1 fr3.
Proof.
  intros (Hp1 & Hd1 & Hj1) (Hp2 & Hd2 & Hj2). repeat split.
  - auto.
  - congruence.
  - intros j Hj. rewrite Hj2, Hj1 by assumption. reflexivity.
Qed.

Lemma scan_axis_S self remaining axis_number fr :
  scan_axis self (S remaining) axis_number fr =
  (let* fr := scan_axis self remaining (axis_number + 1) fr in
   let* n := lift (axis_steps self axis_number) in
   let* fr :=
     for_range n (fun _ fr =>
       let* p := lift (getitem (positions fr) axis_number) in
       let* sizes := lift (getattr (step_size self)) in
       let* s := lift (getitem sizes axis_number) in
       let* d := lift (getitem (directions fr) axis_number) in
       let* sd := lift (py_mul_int s d) in
       let* v := lift (py_add p sd) in
       let* positions' := lift (setitem (positions fr) axis_number v) in
       let fr := mkframe (directions fr) positions' in
       do yield (positions fr) in
       scan_axis self remaining (axis_number + 1) fr) fr in
   let* d := lift (getitem (directions fr) axis_number) in
   let* directions' := lift (setitem (directions fr) axis_number (d * -1)) in
   gret (mkframe directions' (positions fr))).
Proof. reflexivity. Qed.

(** On a well-formed object [scan_axis] returns, and it inverts the flag
    of its own axis once. *)
Lemma scan_axis_inverts self counts sizes :
  well_formed self counts sizes ->
  forall remaining axis fr,
  (axis + remaining = n_axis self)%nat ->
  length (positions fr) = n_axis self ->
  length (directions fr) = n_axis self ->
  exists ys fr',
    scan_axis self remaining axis fr = (ys, Ok fr') /\
    keeps (n_axis self) axis fr fr' /\
    (remaining <> O ->
     directions fr' !! axis = (fun d => d * -1) <$> directions fr !! axis).
Proof.
  intros Hwf. induction remaining as [| remaining IH];
    intros axis fr Hax Hlp Hld.
  - exists [], fr. repeat split; auto. congruence.
  - destruct (IH (axis + 1)%nat fr ltac:(lia) Hlp Hld)
      as (ys1 & fr1 & E1 & K1 & _).
    destruct (axis_steps_ok self counts sizes axis Hwf ltac:(lia)) as [n En].
    destruct Hwf as (Hc & Hs & Hnum & Hlc & Hls & Hlst).
    assert (K1' := K1). destruct K1' as (Hp1 & Hd1 & Hj1).
    (* the loop keeps the lengths and the flags up to this axis *)
    destruct (for_loop_total
                (fun fr2 => length (positions fr2) = n_axis self /\
                            keeps (n_axis self) (axis + 1) fr1 fr2)
                (fun _ fr =>
                   let* p := lift (getitem (positions fr) axis) in
                   let* sizes := lift (getattr (step_size self)) in
                   let* s := lift (getitem sizes axis) in
                   let* d := lift (getitem (directions fr) axis) in
                   let* sd := lift (py_mul_int s d) in
                   let* v := lift (py_add p sd) in
                   let* positions' := lift (setitem (positions fr) axis v) in
                   let fr := mkframe (directions fr) positions' in
                   do yield (positions fr) in
                   scan_axis self remaining (axis + 1) fr)
                (Z.to_nat n) 0 fr1)
      as (ys2 & fr2 & E2 & Hlp2 & K2).
    { split; [auto | apply keeps_refl]. }
    { intros i a [Hla Ka].
      assert (Hlda : length (directions a) = n_axis self).
      { destruct Ka as (_ & Hd & _). congruence. }
      destruct (lookup_lt_is_Some_2 (positions a) axis) as [p Hp]; [lia |].
      destruct (lookup_lt_is_Some_2 sizes axis) as [s Hsz]; [lia |].
      destruct (lookup_lt_is_Some_2 (directions a) axis) as [d Hd]; [lia |].
      assert (Hs_num : is_number s = true).
      { rewrite Forall_lookup in Hnum. eapply Hnum; eassumption. }
      assert (exists sd v, py_mul_int s d = Ok sd /\ py_add p sd = Ok v)
        as (sd & v & Emul & Eadd).
      { destruct s; try discriminate; simpl; eauto. }
      set (a1 := mkframe (directions a) (<[axis := v]> (positions a))).
      destruct (IH (axis + 1)%nat a1 ltac:(lia)) as (zs & a2 & E & K & _).
      { simpl. rewrite length_insert. assumption. }
      { assumption. }
      exists (positions a1 :: zs), a2. split.
      - unfold getitem, setitem. rewrite Hp, gbind_lift_ok, Hs.
        cbn [getattr]. rewrite gbind_lift_ok, Hsz, gbind_lift_ok.
        rewrite Hd, gbind_lift_ok, Emul, gbind_lift_ok, Eadd, gbind_lift_ok.
        rewrite decide_True by lia. rewrite gbind_lift_ok.
        cbn zeta. fold a1. apply gbind_yield. exact E.
      - destruct K as (Hpk & Hdk & Hjk). split.
        + apply Hpk. simpl. rewrite length_insert. assumption.
        + eapply keeps_trans; [exact Ka |]. repeat split.
          * intros _. apply Hpk. simpl. rewrite length_insert. assumption.
          * exact Hdk.
          * intros j Hj. rewrite Hjk by assumption. reflexivity. }
    assert (Hld2 : length (directions fr2) = n_axis self).
    { destruct K2 as (_ & Hd & _). congruence. }
    destruct (lookup_lt_is_Some_2 (directions fr2) axis) as [d Hd]; [lia |].
    exists (ys1 ++ ys2 ++ []),
           (mkframe (<[axis := d * -1]> (directions fr2)) (positions fr2)).
    split; [| split].
    + rewrite scan_axis_S. eapply gbind_ok; [exact E1 |].
      rewrite En, gbind_lift_ok.
      unfold for_range. eapply gbind_ok; [exact E2 |].
      unfold getitem, setitem. rewrite Hd, gbind_lift_ok.
      rewrite decide_True by lia. rewrite gbind_lift_ok. reflexivity.
    + repeat split; simpl.
      * auto.
      * rewrite length_insert. congruence.
      * intros j Hj. rewrite list_lookup_insert_ne by lia.
        destruct K2 as (_ & _ & Hj2). rewrite Hj2, Hj1 by lia. reflexivity.
    + intros _. simpl. rewrite list_lookup_insert_eq by lia.
      destruct K2 as (_ & _ & Hj2).
      rewrite <- Hj1, <- Hj2 by lia. rewrite Hd. reflexivity.
Qed.

(** A pass on a well-formed object: it starts with every flag at [1] and
    the positions at [start], and ends with the flag of axis 0 inverted. *)
Lemma scan_pass_ok self counts sizes :
  well_formed self counts sizes ->
  exists ys fr',
    scan_pass self =
    (start self :: ys,
     Ok (mkframe (replicate (n_axis self) 1) (start self), fr')) /\
    ((1 <= n_axis self)%nat -> directions fr' !! O = Some (-1)).
Proof.
  intros Hwf.
  destruct (scan_axis_inverts self counts sizes Hwf (n_axis self) O
              (mkframe (replicate (n_axis self) 1) (start self)))
    as (ys & fr' & E & _ & Hinv).
  - reflexivity.
  - destruct Hwf as (_ & _ & _ & _ & _ & H). exact H.
  - simpl. apply length_replicate.
  - exists ys, fr'. split.
    + unfold scan_pass. cbn zeta. apply gbind_yield.
      rewrite <- (app_nil_r ys). eapply gbind_ok; [exact E | reflexivity].
    + intros Hn. rewrite Hinv by lia. simpl.
      rewrite lookup_replicate_2 by lia. reflexivity.
Qed.

(** The pass loop appends the same pair of frames at every pass. *)
Lemma pass_loop self ys p0 count : forall i0 log,
  scan_pass self = (ys, Ok p0) ->
  for_loop count i0 (fun pass_number log =>
    let* p := scan_pass self in gret (log ++ [p])) log =
  (concat (replicate count ys), Ok (log ++ replicate count p0)).
Proof.
  induction count as [| count IH]; intros i0 log Hp.
  - simpl. rewrite app_nil_r. reflexivity.
  - rewrite for_loop_S. simpl replicate. simpl concat.
    eapply gbind_ok.
    + rewrite Hp. unfold gbind, gret. rewrite app_nil_r. reflexivity.
    + rewrite IH by exact Hp. rewrite <- app_assoc. reflexivity.
Qed.

Lemma zigzag_area_frames self counts sizes :
  well_formed self counts sizes ->
  exists ys fr',
    get_generator_frames self =
    (concat (replicate (Z.to_nat (passes self)) (start self :: ys)),
     Ok (replicate (Z.to_nat (passes self))
           (mkframe (replicate (n_axis self) 1) (start self), fr'))) /\
    ((1 <= n_axis self)%nat -> directions fr' !! O = Some (-1)).
Proof.
  intros Hwf. destruct (scan_pass_ok self counts sizes Hwf)
    as (ys & fr' & E & H0).
  exists ys, fr'. split; [| exact H0].
  unfold get_generator_frames, for_range.
  rewrite (pass_loop self _ _ _ _ _ E). reflexivity.
Qed.

End ZigZagArea.

(** C1 (as stated, refuted): one axis from 0 to 1 in one step, two passes.
    The first pass ends with the flag [-1], the second starts with [1]. *)
Lemma directions_do_not_persist :
  exists self,
    AreaPositioner.init [qz 0] [qz 1] [PyInt 1] 2 None = Ok self /\
    ~ ZigZagAreaPositioner.directions_persist self.
Proof.
  eexists. split; [reflexivity |].
  intros H.
  specialize (H [([1], [-1]); ([1], [-1])]).
  assert (Hlog : [1] = [-1]).
  { apply (H ltac:(vm_compute; reflexivity) O ([1], [-1]) ([1], [-1]));
      reflexivity. }
  discriminate.
Qed.

(** C1 (amended): in the zigzag area scan the direction flag of an axis is
    inverted every time the loop of that axis completes, and a call for an
    axis leaves the flags of the axes before it as they are; but the flags do
    not persist across passes: every pass starts with all flags at [1],
    whatever the previous pass ended with (the flag of axis 0 is [-1] at the
    end of every pass). *)
Theorem directions_reset_each_pass (self : AreaPositioner.t)
    (counts : list Z) (sizes : list pyval) :
  AreaPositioner.well_formed self counts sizes ->
  (exists final,
      ZigZagAreaPositioner.pass_directions self =
      Ok (replicate (Z.to_nat (AreaPositioner.passes self))
            (replicate (AreaPositioner.n_axis self) 1, final)) /\
      ((1 <= AreaPositioner.n_axis self)%nat -> final !! O = Some (-1))) /\
  (forall remaining axis fr,
      (axis + S remaining = AreaPositioner.n_axis self)%nat ->
      length (ZigZagAreaPositioner.positions fr) = AreaPositioner.n_axis self ->
      length (ZigZagAreaPositioner.directions fr) = AreaPositioner.n_axis self ->
      exists ys fr',
        ZigZagAreaPositioner.scan_axis self (S remaining) axis fr =
        (ys, Ok fr') /\
        ZigZagAreaPositioner.directions fr' !! axis =
        (fun d => d * -1) <$> ZigZagAreaPositioner.directions fr !! axis /\
        forall j, (j < axis)%nat ->
          ZigZagAreaPositioner.directions fr' !! j =
          ZigZagAreaPositioner.directions fr !! j).
Proof.
  intros Hwf. split.
  - destruct (zigzag_area_frames self counts sizes Hwf) as (ys & fr' & E & H0).
    exists (ZigZagAreaPositioner.directions fr'). split; [| exact H0].
    unfold ZigZagAreaPositioner.pass_directions, outcome. rewrite E. simpl.
    f_equal. clear E.
    induction (Z.to_nat (AreaPositioner.passes self)) as [| n IH];
      [reflexivity | simpl; rewrite IH; reflexivity].
  - intros remaining axis fr Hax Hlp Hld.
    destruct (scan_axis_inverts self counts sizes Hwf (S remaining) axis fr
                Hax Hlp Hld) as (ys & fr' & E & (_ & _ & Hj) & Hinv).
    exists ys, fr'. split; [exact E |]. split; [apply Hinv; lia | exact Hj].
Qed.

Lemma directions_reset_each_pass_witness :
  exists final,
    ZigZagAreaPositioner.pass_directions
      (AreaPositioner.mk None 2 [qz 1; qz 2] [qz 0; qz 0] 2
         (Some [PyInt 1; PyInt 2]) (Some [PyFloat (qz 1); PyFloat (qz 1)])) =
    Ok (replicate 2 ([1; 1], final)) /\ final !! O = Some (-1).
Proof.
  destruct (proj1 (directions_reset_each_pass
              (AreaPositioner.mk None 2 [qz 1; qz 2] [qz 0; qz 0] 2
                 (Some [PyInt 1; PyInt 2])
                 (Some [PyFloat (qz 1); PyFloat (qz 1)]))
              [1; 2] [PyFloat (qz 1); PyFloat (qz 1)]
              ltac:(repeat split; repeat constructor)))
    as (final & E & H0).
  exists final. split; [exact E | apply H0; simpl; lia].
Defined.

(** ** The area generators do not touch the lists of the caller *)

Section Simulation.
Import Store.
Context {E : Type}.
Implicit Types h : list (list E).

Lemma sim_bind {A B A' B' : Type} (Q : list (list E) -> A -> B -> Prop)
    (Q' : list (list E) -> A' -> B' -> Prop) ms mp ks kp h :
  sim Q ms mp h ->
  (forall a b h', Q h' a b -> sim Q' (ks a) (kp b) h') ->
  sim Q' (sbind ms ks) (gbind mp kp) h.
Proof.
  unfold sim, sbind, gbind. destruct mp as [ys [b | e]].
  - intros (a & h' & Ems & HQ) Hk. rewrite Ems.
    specialize (Hk a b h' HQ). destruct (kp b) as [zs [c | e]].
    + destruct Hk as (a' & h'' & Eks & HQ'). exists a', h''.
      rewrite Eks. split; [reflexivity | assumption].
    + rewrite Hk. reflexivity.
  - intros Ems _. rewrite Ems. reflexivity.
Qed.

Lemma sim_ret {A B : Type} (Q : list (list E) -> A -> B -> Prop) a b h :
  Q h a b -> sim Q (sret a) (gret b) h.
Proof. intros HQ. exists a, h. split; [reflexivity | assumption]. Qed.

Lemma sim_lift {A : Type} (r : result A) h :
  sim (fun h' a b => a = b /\ h' = h) (slift r) (lift r) h.
Proof.
  unfold sim, slift, lift. destruct r as [a | e]; simpl; [| reflexivity].
  exists a, h. repeat split.
Qed.

Lemma sim_then_gret {A B B' : Type} (Q : list (list E) -> A -> B -> Prop)
    (Q' : list (list E) -> A -> B' -> Prop) ms mp (f : B -> B') h :
  sim Q ms mp h ->
  (forall h' a b, Q h' a b -> Q' h' a (f b)) ->
  sim Q' ms (gbind mp (fun b => gret (f b))) h.
Proof.
  unfold sim, gbind, gret. destruct mp as [ys [b | e]]; [| auto].
  intros (a & h' & Ems & HQ) Himp. rewrite app_nil_r.
  exists a, h'. split; auto.
Qed.

Lemma sfor_loop_sim {A B : Type} (R : list (list E) -> A -> B -> Prop)
    (body_s : Z -> A -> sgen A) (body_p : Z -> B -> gen (list E) B) :
  (forall i h a b, R h a b -> sim R (body_s i a) (body_p i b) h) ->
  forall n i0 h a b, R h a b ->
    sim R (sfor_loop n i0 body_s a) (for_loop n i0 body_p b) h.
Proof.
  intros Hbody. induction n as [| n IH]; intros i0 h a b HR.
  - apply sim_ret. assumption.
  - simpl. eapply sim_bind; [apply Hbody; eassumption |].
    intros a' b' h' HR'. apply IH. assumption.
Qed.

(** *** The operations on the list [positions] *)

Variable h0 : list (list E).

Lemma fresh_cell_extends positions h l :
  fresh_cell h0 positions h l -> extends h0 h.
Proof. intros (_ & _ & H). exact H. Qed.

Lemma sim_load positions h l i :
  fresh_cell h0 positions h l ->
  sim (fun h' a b => a = b /\ h' = h) (load positions i) (lift (getitem l i)) h.
Proof.
  intros (_ & Hc & _). unfold sim, load, lift, cell. rewrite Hc. simpl.
  destruct (getitem l i) as [x | e]; simpl; [| reflexivity].
  exists x, h. repeat split.
Qed.

Lemma sim_load_old r h0l positions h l i :
  h0 !! r = Some h0l ->
  fresh_cell h0 positions h l ->
  sim (fun h' a b => a = b /\ h' = h) (load r i) (lift (getitem h0l i)) h.
Proof.
  intros Hr (_ & _ & Hext). unfold sim, load, lift, cell.
  rewrite Hext by (eapply lookup_lt_Some; eassumption). rewrite Hr. simpl.
  destruct (getitem h0l i) as [x | e]; simpl; [| reflexivity].
  exists x, h. repeat split.
Qed.

Lemma sim_store_item positions h l i v :
  fresh_cell h0 positions h l ->
  sim (fun h' _ l' => fresh_cell h0 positions h' l')
      (store_item positions i v) (lift (setitem l i v)) h.
Proof.
  intros (Hge & Hc & Hext). unfold sim, store_item, lift, cell. rewrite Hc.
  simpl. destruct (setitem l i v) as [l' | e]; simpl; [| reflexivity].
  exists tt, (<[positions := l']> h). split; [reflexivity |].
  repeat split.
  - assumption.
  - apply list_lookup_insert_eq. eapply lookup_lt_Some; eassumption.
  - intros r Hr. rewrite list_lookup_insert_ne by lia. apply Hext, Hr.
Qed.

(** [yield copy(positions)] *)
Lemma sim_yield_copy positions h l :
  fresh_cell h0 positions h l ->
  sim (fun h' _ _ => fresh_cell h0 positions h' l)
      (syield_copy positions) (yield l) h.
Proof.
  intros (Hge & Hc & Hext).
  unfold sim, yield, syield_copy, sbind, copy, syield, cell, alloc.
  rewrite Hc. unfold gret, gbind.
  rewrite lookup_app_r by lia. rewrite Nat.sub_diag. simpl.
  exists tt, (h ++ [l]). split; [reflexivity |].
  assert (Hlt := lookup_lt_Some _ _ _ Hc).
  repeat split.
  - assumption.
  - rewrite lookup_app_l by assumption. assumption.
  - intros r Hr. rewrite lookup_app_l by lia. apply Hext, Hr.
Qed.

(** [positions = copy(self.start)] *)
Lemma copy_fresh r l h :
  h0 !! r = Some l -> extends h0 h -> (length h0 <= length h)%nat ->
  exists h', copy r h = ([], Ok (length h, h')) /\
             fresh_cell h0 (length h) h' l /\ (length h0 <= length h')%nat.
Proof.
  intros Hr Hext Hlen. unfold copy, cell, alloc, gret.
  rewrite Hext by (eapply lookup_lt_Some; eassumption). rewrite Hr.
  exists (h ++ [l]). split; [reflexivity |]. repeat split.
  - assumption.
  - rewrite lookup_app_r by lia. rewrite Nat.sub_diag. reflexivity.
  - intros r' Hr'. rewrite lookup_app_l by lia. apply Hext, Hr'.
  - rewrite length_app. lia.
Qed.

End Simulation.

(** *** The area scan *)

Section AreaSimulation.
Import Store.

Lemma area_scan_sim (self : AreaPositioner.t) (h1 : list (list Qc))
    (start_ref positions : nat) :
  h1 !! start_ref = Some (AreaPositioner.start self) ->
  forall remaining axis h l,
  fresh_cell h1 positions h l ->
  sim (fun h' _ l' => fresh_cell h1 positions h' l')
      (area_scan_axis self start_ref positions remaining axis)
      (AreaPositioner.scan_axis self remaining axis l) h.
Proof.
  intros Hstart. induction remaining as [| remaining IH]; intros axis h l Hf.
  - apply sim_ret. assumption.
  - cbn [area_scan_axis AreaPositioner.scan_axis].
    eapply sim_bind; [apply IH; eassumption |]. intros [] la ha Ha.
    eapply sim_bind; [apply sim_lift |]. intros n ? ? [<- ->].
    eapply sim_bind.
    { unfold sfor_range, for_range.
      apply sfor_loop_sim
        with (R := fun h' (_ : unit) l' => fresh_cell h1 positions h' l');
        [| assumption].
      intros _ hb [] lb Hb.
      eapply sim_bind; [eapply sim_load; eassumption |].
      intros p ? ? [<- ->].
      eapply sim_bind; [apply sim_lift |]. intros sizes ? ? [<- ->].
      eapply sim_bind; [apply sim_lift |]. intros s ? ? [<- ->].
      eapply sim_bind; [apply sim_lift |]. intros v ? ? [<- ->].
      eapply sim_bind; [apply sim_store_item; eassumption |].
      intros [] lc hc Hc.
      eapply sim_bind; [apply sim_yield_copy; eassumption |].
      intros [] [] hd Hd. apply IH. assumption. }
    intros [] lb hb Hb.
    eapply sim_bind; [eapply sim_load_old; eassumption |].
    intros s0 ? ? [<- ->]. apply sim_store_item. assumption.
Qed.

Lemma sim_after_copy {E A B : Type} (Q : list (list E) -> A -> B -> Prop)
    r p (ks : nat -> sgen A) (mp : gen (list E) B) h h' :
  copy r h = ([], Ok (p, h')) ->
  sim Q (ks p) mp h' ->
  sim Q (sbind (copy r) ks) mp h.
Proof.
  intros Ec. unfold sim, sbind. rewrite Ec. unfold gbind.
  destruct mp as [ys [b | e]].
  - intros (a & h'' & Ek & HQ). exists a, h''. rewrite Ek.
    split; [reflexivity | assumption].
  - intros Ek. rewrite Ek. reflexivity.
Qed.

(** The whole generator: it yields what the value generator yields, ends
    as it does, and leaves the cells of the caller as they were. *)
Lemma area_generator_sim (self : AreaPositioner.t) (h0 : list (list Qc))
    (start_ref : nat) :
  h0 !! start_ref = Some (AreaPositioner.start self) ->
  sim (fun h' _ _ => extends h0 h' /\ (length h0 <= length h')%nat)
      (area_get_generator self start_ref)
      (AreaPositioner.get_generator self) h0.
Proof.
  intros Hstart.
  unfold area_get_generator, AreaPositioner.get_generator, sfor_range, for_range.
  apply sfor_loop_sim
    with (R := fun h' (_ _ : unit) => extends h0 h' /\ (length h0 <= length h')%nat);
    [| split; [intros r _; reflexivity | lia]].
  intros _ h [] [] [Hext Hlen]. cbn zeta.
  destruct (copy_fresh h0 start_ref _ h Hstart Hext Hlen) as (h' & Ec & Hf & Hl).
  eapply sim_after_copy; [exact Ec |].
  eapply sim_bind; [apply sim_yield_copy; eassumption |].
  intros [] [] ha Ha.
  eapply sim_bind; [eapply area_scan_sim; eassumption |].
  intros [] lb hb Hb. apply sim_ret. split.
  - eapply fresh_cell_extends; eassumption.
  - destruct Hb as (Hge & Hc & _). apply lookup_lt_Some in Hc. lia.
Qed.

(** *** The zigzag area scan *)

Lemma zigzag_scan_sim (self : AreaPositioner.t) (h1 : list (list Qc))
    (positions : nat) :
  forall remaining axis h fr,
  fresh_cell h1 positions h (ZigZagAreaPositioner.positions fr) ->
  sim (fun h' dirs fr' =>
         dirs = ZigZagAreaPositioner.directions fr' /\
         fresh_cell h1 positions h' (ZigZagAreaPositioner.positions fr'))
      (zigzag_scan_axis self positions remaining axis
         (ZigZagAreaPositioner.directions fr))
      (ZigZagAreaPositioner.scan_axis self remaining axis fr) h.
Proof.
  induction remaining as [| remaining IH]; intros axis h fr Hf.
  - apply sim_ret. split; [reflexivity | assumption].
  - cbn [zigzag_scan_axis ZigZagAreaPositioner.scan_axis].
    eapply sim_bind; [apply IH; eassumption |]. intros ? fa ha [-> Ha].
    eapply sim_bind; [apply sim_lift |]. intros n ? ? [<- ->].
    eapply sim_bind.
    { unfold sfor_range, for_range.
      apply sfor_loop_sim
        with (R := fun h' dirs fr' =>
                     dirs = ZigZagAreaPositioner.directions fr' /\
                     fresh_cell h1 positions h'
                       (ZigZagAreaPositioner.positions fr'));
        [| split; [reflexivity | assumption]].
      intros _ hb ? fb [-> Hb].
      eapply sim_bind; [eapply sim_load; eassumption |].
      intros p ? ? [<- ->].
      eapply sim_bind; [apply sim_lift |]. intros sizes ? ? [<- ->].
      eapply sim_bind; [apply sim_lift |]. intros s ? ? [<- ->].
      eapply sim_bind; [apply sim_lift |]. intros d ? ? [<- ->].
      eapply sim_bind; [apply sim_lift |]. intros sd ? ? [<- ->].
      eapply sim_bind; [apply sim_lift |]. intros v ? ? [<- ->].
      eapply sim_bind; [apply sim_store_item; eassumption |].
      intros [] lc hc Hc. cbn zeta.
      eapply sim_bind; [apply sim_yield_copy; exact Hc |].
      intros [] [] hd Hd.
      apply (IH (axis + 1)%nat hd
               (ZigZagAreaPositioner.mkframe
                  (ZigZagAreaPositioner.directions fb) lc)).
      exact Hd. }
    intros ? fb hb [-> Hb].
    eapply sim_bind; [apply sim_lift |]. intros d ? ? [<- ->].
    eapply sim_bind; [apply sim_lift |]. intros ds ? ? [<- ->].
    apply sim_ret. split; [reflexivity | exact Hb].
Qed.

Lemma zigzag_generator_sim (self : AreaPositioner.t) (h0 : list (list Qc))
    (start_ref : nat) :
  h0 !! start_ref = Some (AreaPositioner.start self) ->
  sim (fun h' _ _ => extends h0 h' /\ (length h0 <= length h')%nat)
      (zigzag_get_generator self start_ref)
      (ZigZagAreaPositioner.get_generator self) h0.
Proof.
  intros Hstart.
  unfold zigzag_get_generator, ZigZagAreaPositioner.get_generator,
    ZigZagAreaPositioner.get_generator_frames, sfor_range, for_range.
  eapply sim_then_gret with (Q := fun h' (_ : unit) (_ : list _) =>
                                   extends h0 h' /\ (length h0 <= length h')%nat);
    [| auto].
  apply sfor_loop_sim
    with (R := fun h' (_ : unit) (_ : list _) =>
                 extends h0 h' /\ (length h0 <= length h')%nat);
    [| split; [intros r _; reflexivity | lia]].
  intros _ h [] log [Hext Hlen]. cbn zeta.
  destruct (copy_fresh h0 start_ref _ h Hstart Hext Hlen) as (h' & Ec & Hf & Hl).
  eapply sim_after_copy; [exact Ec |].
  eapply sim_then_gret with (Q := fun h' (_ : unit) (_ : _ * _) =>
                                   extends h0 h' /\ (length h0 <= length h')%nat);
    [| auto].
  unfold ZigZagAreaPositioner.scan_pass. cbn zeta.
  eapply sim_bind; [apply sim_yield_copy; exact Hf |].
  intros [] [] ha Ha.
  eapply sim_bind.
  { apply (zigzag_scan_sim self h0 (length h) (AreaPositioner.n_axis self) O ha
             (ZigZagAreaPositioner.mkframe
                (replicate (AreaPositioner.n_axis self) 1)
                (AreaPositioner.start self))).
    exact Ha. }
  intros ? fb hb [_ Hb]. apply sim_ret. split.
  - eapply fresh_cell_extends; eassumption.
  - destruct Hb as (Hge & Hc & _). apply lookup_lt_Some in Hc. lia.
Qed.

(** *** The multi-area scan *)

Lemma multi_scan_sim (self : MultiAreaPositioner.t) (h1 : list (list vec))
    (start_ref positions : nat) :
  h1 !! start_ref = Some (MultiAreaPositioner.start self) ->
  forall remaining axis h l,
  fresh_cell h1 positions h l ->
  sim (fun h' _ l' => fresh_cell h1 positions h' l')
      (multi_scan_axis self start_ref positions remaining axis)
      (MultiAreaPositioner.scan_axis self remaining axis l) h.
Proof.
  intros Hstart. induction remaining as [| remaining IH]; intros axis h l Hf.
  - apply sim_ret. assumption.
  - cbn [multi_scan_axis MultiAreaPositioner.scan_axis].
    eapply sim_bind; [apply IH; eassumption |]. intros [] la ha Ha.
    eapply sim_bind; [apply sim_lift |]. intros n ? ? [<- ->].
    eapply sim_bind.
    { unfold sfor_range, for_range.
      apply sfor_loop_sim
        with (R := fun h' (_ : unit) l' => fresh_cell h1 positions h' l');
        [| assumption].
      intros _ hb [] lb Hb.
      eapply sim_bind; [eapply sim_load; eassumption |].
      intros line ? ? [<- ->].
      eapply sim_bind; [apply sim_lift |]. intros sizes ? ? [<- ->].
      eapply sim_bind; [apply sim_lift |]. intros ls ? ? [<- ->].
      eapply sim_bind; [apply sim_lift |]. intros line' ? ? [<- ->].
      eapply sim_bind; [apply sim_store_item; eassumption |].
      intros [] lc hc Hc.
      eapply sim_bind; [apply sim_yield_copy; eassumption |].
      intros [] [] hd Hd. apply IH. assumption. }
    intros [] lb hb Hb.
    eapply sim_bind; [eapply sim_load_old; eassumption |].
    intros s0 ? ? [<- ->]. apply sim_store_item. assumption.
Qed.

Lemma multi_generator_sim (self : MultiAreaPositioner.t)
    (h0 : list (list vec)) (start_ref : nat) :
  h0 !! start_ref = Some (MultiAreaPositioner.start self) ->
  sim (fun h' _ _ => extends h0 h' /\ (length h0 <= length h')%nat)
      (multi_get_generator self start_ref)
      (MultiAreaPositioner.get_generator self) h0.
Proof.
  intros Hstart.
  unfold multi_get_generator, MultiAreaPositioner.get_generator,
    sfor_range, for_range.
  apply sfor_loop_sim
    with (R := fun h' (_ _ : unit) => extends h0 h' /\ (length h0 <= length h')%nat);
    [| split; [intros r _; reflexivity | lia]].
  intros _ h [] [] [Hext Hlen]. cbn zeta.
  destruct (copy_fresh h0 start_ref _ h Hstart Hext Hlen) as (h' & Ec & Hf & Hl).
  eapply sim_after_copy; [exact Ec |].
  eapply sim_bind; [apply sim_yield_copy; eassumption |].
  intros [] [] ha Ha.
  eapply sim_bind; [eapply multi_scan_sim; eassumption |].
  intros [] lb hb Hb. apply sim_ret. split.
  - eapply fresh_cell_extends; eassumption.
  - destruct Hb as (Hge & Hc & _). apply lookup_lt_Some in Hc. lia.
Qed.

(** A second traversal, started in the store the first one leaves, yields
    the same lists. *)
Lemma sim_twice {E A : Type} (ms : sgen (E := E) A) (ys : list (list E))
    (h0 : list (list E)) (start_ref : nat) (l : list E) :
  h0 !! start_ref = Some l ->
  (forall h, h !! start_ref = Some l ->
     sim (fun h' _ _ => extends h h' /\ (length h <= length h')%nat)
         ms (ys, Ok tt) h) ->
  exists a1 h1 a2 h2,
    ms h0 = (ys, Ok (a1, h1)) /\ ms h1 = (ys, Ok (a2, h2)) /\
    h1 !! start_ref = Some l /\ h2 !! start_ref = Some l.
Proof.
  intros Hs Hsim.
  destruct (Hsim h0 Hs) as (a1 & h1 & E1 & Hext1 & _).
  assert (Hs1 : h1 !! start_ref = Some l).
  { rewrite Hext1; [assumption | eapply lookup_lt_Some; eassumption]. }
  destruct (Hsim h1 Hs1) as (a2 & h2 & E2 & Hext2 & _).
  assert (Hs2 : h2 !! start_ref = Some l).
  { rewrite Hext2; [assumption | eapply lookup_lt_Some; eassumption]. }
  exists a1, h1, a2, h2. repeat split; assumption.
Qed.

End AreaSimulation.

(** ** What [__init__] builds from step counts *)

Lemma step_sizes_total : forall (starts ends : vec) (counts : list Z),
  length ends = length starts -> length counts = length starts ->
  Forall (fun k => k <> 0) counts ->
  exists sizes,
    mapM (fun '(s, e, st) => py_div (e - s)%Qc st)
         (zip3 starts ends (map PyInt counts)) = Ok sizes /\
    length sizes = length starts.
Proof.
  induction starts as [| s starts IH]; intros ends counts He Hc Hnz.
  - exists []. split; reflexivity.
  - destruct ends as [| e ends]; [discriminate |].
    destruct counts as [| k counts]; [discriminate |].
    inversion Hnz as [| ? ? Hk Hrest]; subst.
    destruct (IH ends counts) as (sizes & E & Hl);
      [simpl in He; lia | simpl in Hc; lia | assumption |].
    exists (((e - s) / qz k)%Qc :: sizes). split; [| simpl; lia].
    unfold zip3 in *. simpl. rewrite decide_False by assumption. simpl.
    rewrite E. reflexivity.
Qed.

(** A line scan built from step counts has its number of steps and numeric
    step sizes. *)
Lemma linear_init_counts (start0 end0 : vec) (n : Z) (counts : list Z)
    (passes0 : Z) :
  length end0 = length start0 -> length (n :: counts) = length start0 ->
  Forall (fun k => k <> 0) (n :: counts) ->
  exists self sizes,
    LinearPositioner.init start0 end0 (map PyInt (n :: counts)) passes0 None =
      Ok self /\
    LinearPositioner.start self = start0 /\
    LinearPositioner.passes self = passes0 /\
    LinearPositioner.n_steps self = Some n /\
    LinearPositioner.step_size self = Some sizes /\
    Forall (fun s => is_number s = true) sizes.
Proof.
  intros He Hc Hnz.
  destruct (step_sizes_total start0 end0 (n :: counts) He Hc Hnz)
    as (sizes & E & Hl).
  eexists. exists (map PyFloat sizes).
  unfold LinearPositioner.init. cbn [map] in E.
  cbn [map getitem lookup list_lookup rbind add_offsets]. rewrite E.
  cbn [rbind].
  repeat split. clear. induction sizes; constructor; auto.
Qed.

(** An area scan built from step counts is well formed. *)
Lemma area_init_counts (start0 end0 : vec) (n : Z) (counts : list Z)
    (passes0 : Z) :
  length end0 = length start0 -> length (n :: counts) = length start0 ->
  Forall (fun k => k <> 0) (n :: counts) ->
  exists self sizes,
    AreaPositioner.init start0 end0 (map PyInt (n :: counts)) passes0 None =
      Ok self /\
    AreaPositioner.start self = start0 /\
    AreaPositioner.passes self = passes0 /\
    AreaPositioner.well_formed self (n :: counts) sizes.
Proof.
  intros He Hc Hnz.
  destruct (step_sizes_total start0 end0 (n :: counts) He Hc Hnz)
    as (sizes & E & Hl).
  eexists. exists (map PyFloat sizes).
  unfold AreaPositioner.init. cbn [map] in E.
  cbn [map getitem lookup list_lookup rbind add_offsets]. rewrite E.
  cbn [rbind].
  split; [reflexivity |]. split; [reflexivity |]. split; [reflexivity |].
  unfold AreaPositioner.well_formed.
  cbn [AreaPositioner.n_steps AreaPositioner.step_size AreaPositioner.n_axis
       AreaPositioner.start].
  repeat split.
  - clear. induction sizes; constructor; auto.
  - assumption.
  - rewrite length_map. assumption.
Qed.

(** ** The sequences of three small scans *)

(** The line scan from 0 to 10 in five steps, two passes: the second pass
    starts again from 0. *)
Example linear_two_passes :
  exists self,
    LinearPositioner.init [qz 0] [qz 10] [PyInt 5] 2 None = Ok self /\
    LinearPositioner.get_generator self =
    ([[qz 0]; [qz 2]; [qz 4]; [qz 6]; [qz 8]; [qz 10];
      [qz 0]; [qz 2]; [qz 4]; [qz 6]; [qz 8]; [qz 10]], Ok tt).
Proof.
  eexists. split; [reflexivity |].
  apply gen_eq_dec_unit. vm_compute. reflexivity.
Qed.

(** The area scan over two axes with one step each: the last axis moves
    first. *)
Example area_odometer :
  exists self,
    AreaPositioner.init [qz 0; qz 0] [qz 1; qz 1] [PyInt 1; PyInt 1] 1 None =
      Ok self /\
    AreaPositioner.get_generator self =
    ([[qz 0; qz 0]; [qz 0; qz 1]; [qz 1; qz 0]; [qz 1; qz 1]], Ok tt).
Proof.
  eexists. split; [reflexivity |].
  apply gen_eq_dec_unit. vm_compute. reflexivity.
Qed.

(** The zigzag area scan with one and two steps, two passes: within a pass
    the second sweep of the last axis runs backwards; the second pass
    repeats the first. *)
Example zigzag_area_two_passes :
  exists self,
    AreaPositioner.init [qz 0; qz 0] [qz 1; qz 2] [PyInt 1; PyInt 2] 2 None =
      Ok self /\
    ZigZagAreaPositioner.get_generator self =
    ([[qz 0; qz 0]; [qz 0; qz 1]; [qz 0; qz 2];
      [qz 1; qz 2]; [qz 1; qz 1]; [qz 1; qz 0];
      [qz 0; qz 0]; [qz 0; qz 1]; [qz 0; qz 2];
      [qz 1; qz 2]; [qz 1; qz 1]; [qz 1; qz 0]], Ok tt).
Proof.
  eexists. split; [reflexivity |].
  apply gen_eq_dec_unit. vm_compute. reflexivity.
Qed.

(** ** Every traversal starts afresh *)

Lemma concat_replicate_first {A : Type} (p : nat) (x : A) (l : list A) :
  (1 <= p)%nat ->
  concat (replicate p (x :: l)) =
  x :: (l ++ concat (replicate (p - 1) (x :: l))).
Proof.
  intros Hp. destruct p as [| p]; [lia |]. simpl.
  rewrite Nat.sub_0_r. reflexivity.
Qed.

Lemma linear_advance_total sizes : forall current,
  Forall (fun s => is_number s = true) sizes ->
  exists v, LinearPositioner.advance current sizes = Ok v.
Proof.
  unfold LinearPositioner.advance.
  induction sizes as [| s sizes IH]; intros current Hs.
  - destruct current; eexists; reflexivity.
  - destruct current as [| p current]; [eexists; reflexivity |].
    inversion Hs as [| ? ? Hnum Hrest]; subst. simpl.
    destruct (IH current Hrest) as [v ->].
    destruct s; try discriminate; simpl; eexists; reflexivity.
Qed.

Section Restart.
Import LinearPositioner.

(** The line scan: every pass yields [start] and then the same steps. *)
Lemma linear_passes self n sizes :
  n_steps self = Some n ->
  step_size self = Some sizes ->
  Forall (fun s => is_number s = true) sizes ->
  exists ys,
    LinearPositioner.get_generator self =
    (concat (replicate (Z.to_nat (passes self)) (start self :: ys)), Ok tt).
Proof.
  intros Hn Hsz Hnum.
  destruct (for_loop_total (fun _ : vec => True)
              (fun _ current_positions =>
                 let* sizes := lift (getattr (step_size self)) in
                 let* current_positions :=
                   lift (advance current_positions sizes) in
                 do yield current_positions in
                 gret current_positions)
              (Z.to_nat n) 0 (start self) I) as (ys & z & E & _).
  { intros i a _. destruct (linear_advance_total sizes a Hnum) as [v Hv].
    exists [v], v. split; [| exact I].
    rewrite Hsz. cbn [getattr]. rewrite gbind_lift_ok, Hv, gbind_lift_ok.
    reflexivity. }
  exists ys. unfold LinearPositioner.get_generator, for_range.
  apply for_loop_const. intros i u. cbn zeta.
  apply gbind_yield. rewrite Hn. cbn [getattr]. rewrite gbind_lift_ok.
  rewrite <- (app_nil_r ys).
  eapply gbind_ok; [exact E | reflexivity].
Qed.

(** The area scan on a well-formed object: [scan_axis] returns. *)
Lemma area_scan_total (self : AreaPositioner.t) counts sizes :
  AreaPositioner.well_formed self counts sizes ->
  forall remaining axis positions,
  (axis + remaining = AreaPositioner.n_axis self)%nat ->
  length positions = AreaPositioner.n_axis self ->
  exists ys positions',
    AreaPositioner.scan_axis self remaining axis positions =
    (ys, Ok positions') /\
    length positions' = AreaPositioner.n_axis self.
Proof.
  intros Hwf. induction remaining as [| remaining IH];
    intros axis positions Hax Hlp.
  - exists [], positions. split; [reflexivity | assumption].
  - destruct (IH (axis + 1)%nat positions ltac:(lia) Hlp)
      as (ys1 & p1 & E1 & Hl1).
    destruct (axis_steps_ok self counts sizes axis Hwf ltac:(lia)) as [n En].
    destruct Hwf as (Hc & Hs & Hnum & Hlc & Hls & Hlst).
    destruct (for_loop_total
                (fun p : vec => length p = AreaPositioner.n_axis self)
                (fun _ positions =>
                   let* p := lift (getitem positions axis) in
                   let* sizes := lift (getattr (AreaPositioner.step_size self)) in
                   let* s := lift (getitem sizes axis) in
                   let* v := lift (py_add p s) in
                   let* positions := lift (setitem positions axis v) in
                   do yield positions in
                   AreaPositioner.scan_axis self remaining (axis + 1) positions)
                (Z.to_nat n) 0 p1 Hl1) as (ys2 & p2 & E2 & Hl2).
    { intros i a Hla.
      destruct (lookup_lt_is_Some_2 a axis) as [p Hp]; [lia |].
      destruct (lookup_lt_is_Some_2 sizes axis) as [s Hsz]; [lia |].
      assert (Hs_num : is_number s = true).
      { rewrite Forall_lookup in Hnum. eapply Hnum; eassumption. }
      assert (exists v, py_add p s = Ok v) as [v Eadd].
      { destruct s; try discriminate; simpl; eauto. }
      destruct (IH (axis + 1)%nat (<[axis := v]> a) ltac:(lia))
        as (zs & a2 & E & Hl); [rewrite length_insert; assumption |].
      exists (<[axis := v]> a :: zs), a2. split; [| assumption].
      unfold getitem, setitem. rewrite Hp, gbind_lift_ok, Hs.
      cbn [getattr]. rewrite gbind_lift_ok, Hsz, gbind_lift_ok.
      rewrite Eadd, gbind_lift_ok.
      rewrite decide_True by lia. rewrite gbind_lift_ok.
      apply gbind_yield. exact E. }
    destruct (lookup_lt_is_Some_2 (AreaPositioner.start self) axis)
      as [s0 Hs0]; [lia |].
    exists (ys1 ++ ys2 ++ []), (<[axis := s0]> p2). split.
    + cbn [AreaPositioner.scan_axis]. eapply gbind_ok; [exact E1 |].
      rewrite En, gbind_lift_ok.
      unfold for_range. eapply gbind_ok; [exact E2 |].
      unfold getitem, setitem. rewrite Hs0, gbind_lift_ok.
      rewrite decide_True by lia. reflexivity.
    + rewrite length_insert. assumption.
Qed.

Lemma area_passes (self : AreaPositioner.t) counts sizes :
  AreaPositioner.well_formed self counts sizes ->
  exists ys,
    AreaPositioner.get_generator self =
    (concat (replicate (Z.to_nat (AreaPositioner.passes self))
               (AreaPositioner.start self :: ys)), Ok tt).
Proof.
  intros Hwf.
  destruct (area_scan_total self counts sizes Hwf
              (AreaPositioner.n_axis self) O (AreaPositioner.start self))
    as (ys & p' & E & _); [reflexivity | apply Hwf |].
  exists ys. unfold AreaPositioner.get_generator, for_range.
  apply for_loop_const. intros i u. cbn zeta.
  apply gbind_yield. rewrite <- (app_nil_r ys).
  eapply gbind_ok; [exact E | reflexivity].
Qed.

Lemma zigzag_area_passes (self : AreaPositioner.t) counts sizes :
  AreaPositioner.well_formed self counts sizes ->
  exists ys,
    ZigZagAreaPositioner.get_generator self =
    (concat (replicate (Z.to_nat (AreaPositioner.passes self))
               (AreaPositioner.start self :: ys)), Ok tt).
Proof.
  intros Hwf.
  destruct (zigzag_area_frames self counts sizes Hwf) as (ys & fr' & E & _).
  exists ys. unfold ZigZagAreaPositioner.get_generator. rewrite E.
  unfold gbind, gret. rewrite app_nil_r. reflexivity.
Qed.

(** The multi-area scan on a well-formed object. *)
Lemma multi_scan_total (self : MultiAreaPositioner.t) sizes :
  MultiAreaPositioner.well_formed self sizes ->
  forall remaining axis positions,
  (axis + remaining = MultiAreaPositioner.n_axis self)%nat ->
  length positions = MultiAreaPositioner.n_axis self ->
  exists ys positions',
    MultiAreaPositioner.scan_axis self remaining axis positions =
    (ys, Ok positions') /\
    length positions' = MultiAreaPositioner.n_axis self.
Proof.
  intros Hwf. induction remaining as [| remaining IH];
    intros axis positions Hax Hlp.
  - exists [], positions. split; [reflexivity | assumption].
  - destruct (IH (axis + 1)%nat positions ltac:(lia) Hlp)
      as (ys1 & p1 & E1 & Hl1).
    destruct Hwf as ((counts & Hc & Hcounts) & Hs & Hnum & Hls & Hlst).
    destruct (Hcounts axis ltac:(lia)) as (n & rest & Hn).
    assert (En : MultiAreaPositioner.axis_steps self axis = Ok n).
    { unfold MultiAreaPositioner.axis_steps, getitem. rewrite Hc. simpl.
      rewrite Hn. reflexivity. }
    destruct (for_loop_total
                (fun p : list vec => length p = MultiAreaPositioner.n_axis self)
                (fun _ positions =>
                   let* line := lift (getitem positions axis) in
                   let* sizes :=
                     lift (getattr (MultiAreaPositioner.step_size self)) in
                   let* line_sizes := lift (getitem sizes axis) in
                   let* line' :=
                     lift (LinearPositioner.advance line line_sizes) in
                   let* positions := lift (setitem positions axis line') in
                   do yield positions in
                   MultiAreaPositioner.scan_axis self remaining (axis + 1)
                     positions)
                (Z.to_nat n) 0 p1 Hl1) as (ys2 & p2 & E2 & Hl2).
    { intros i a Hla.
      destruct (lookup_lt_is_Some_2 a axis) as [line Hp]; [lia |].
      destruct (lookup_lt_is_Some_2 sizes axis) as [ls Hsz]; [lia |].
      assert (Hls_num : Forall (fun s => is_number s = true) ls).
      { rewrite Forall_lookup in Hnum. eapply Hnum; eassumption. }
      destruct (linear_advance_total ls line Hls_num) as [v Eadv].
      destruct (IH (axis + 1)%nat (<[axis := v]> a) ltac:(lia))
        as (zs & a2 & E & Hl); [rewrite length_insert; assumption |].
      exists (<[axis := v]> a :: zs), a2. split; [| assumption].
      unfold getitem, setitem. rewrite Hp, gbind_lift_ok, Hs.
      cbn [getattr]. rewrite gbind_lift_ok, Hsz, gbind_lift_ok.
      rewrite Eadv, gbind_lift_ok.
      rewrite decide_True by lia. rewrite gbind_lift_ok.
      apply gbind_yield. exact E. }
    destruct (lookup_lt_is_Some_2 (MultiAreaPositioner.start self) axis)
      as [s0 Hs0]; [lia |].
    exists (ys1 ++ ys2 ++ []), (<[axis := s0]> p2). split.
    + cbn [MultiAreaPositioner.scan_axis]. eapply gbind_ok; [exact E1 |].
      rewrite En, gbind_lift_ok.
      unfold for_range. eapply gbind_ok; [exact E2 |].
      unfold getitem, setitem. rewrite Hs0, gbind_lift_ok.
      rewrite decide_True by lia. reflexivity.
    + rewrite length_insert. assumption.
Qed.

Lemma multi_passes (self : MultiAreaPositioner.t) sizes :
  MultiAreaPositioner.well_formed self sizes ->
  exists ys,
    MultiAreaPositioner.get_generator self =
    (concat (replicate (Z.to_nat (MultiAreaPositioner.passes self))
               (MultiAreaPositioner.start self :: ys)), Ok tt).
Proof.
  intros Hwf.
  destruct (multi_scan_total self sizes Hwf
              (MultiAreaPositioner.n_axis self) O
              (MultiAreaPositioner.start self))
    as (ys & p' & E & _); [reflexivity | apply Hwf |].
  exists ys. unfold MultiAreaPositioner.get_generator, for_range.
  apply for_loop_const. intros i u. cbn zeta.
  apply gbind_yield. rewrite <- (app_nil_r ys).
  eapply gbind_ok; [exact E | reflexivity].
Qed.

Lemma yield_each_all {Y : Type} (xs : list Y) :
  VectorPositioner.yield_each xs = (xs, Ok tt).
Proof.
  induction xs as [| x xs IH]; [reflexivity |].
  cbn [VectorPositioner.yield_each]. apply gbind_yield. exact IH.
Qed.

Lemma vector_passes (self : VectorPositioner.t) :
  VectorPositioner.get_generator self =
  (concat (replicate (Z.to_nat (VectorPositioner.passes self))
             (VectorPositioner.positions self)), Ok tt).
Proof.
  unfold VectorPositioner.get_generator, for_range.
  apply for_loop_const. intros i u. apply yield_each_all.
Qed.

Lemma restarts_of_sim {E : Type} (ms : Store.sgen (E := E) unit) mp
    start_ref l ys :
  mp = (ys, Ok tt) ->
  (forall h, h !! start_ref = Some l ->
     Store.sim (fun h' _ _ => Store.extends h h' /\ (length h <= length h')%nat)
               ms mp h) ->
  Store.restarts ms start_ref l ys.
Proof.
  intros -> Hsim h0 Hs.
  destruct (sim_twice ms ys h0 start_ref l Hs Hsim)
    as ([] & h1 & [] & h2 & E1 & E2 & Hs1 & _).
  exists h1, h2. repeat split; assumption.
Qed.

Lemma zigzag_vector_first (self : VectorPositioner.t) first rest :
  VectorPositioner.positions self = first :: rest ->
  VectorPositioner.n_positions self =
    Z.of_nat (length (VectorPositioner.positions self)) ->
  0 <= VectorPositioner.passes self ->
  exists ys, ZigZagVectorPositioner.get_generator self = (first :: ys, Ok tt).
Proof.
  intros Hpos Hn Hp.
  assert (Hlen : (1 <= length (VectorPositioner.positions self))%nat)
    by (rewrite Hpos; simpl; lia).
  destruct (zigzag_vector_loop self (length (VectorPositioner.positions self))
              (Z.to_nat (ZigZagVectorPositioner.n_indexes self)) 0 O
              Hn eq_refl Hlen) as (ys & Hys & Hl & Hidx).
  assert (Hcount : (1 <= Z.to_nat (ZigZagVectorPositioner.n_indexes self))%nat).
  { unfold ZigZagVectorPositioner.n_indexes. rewrite Hn. nia. }
  destruct ys as [| y ys]; [simpl in Hl; lia |].
  assert (Hy : y = first).
  { specialize (Hidx O y eq_refl).
    unfold ZigZagVectorPositioner.pingpong in Hidx.
    rewrite Nat.add_0_l, Nat.Div0.mod_0_l in Hidx.
    rewrite decide_True in Hidx by lia. rewrite Hpos in Hidx.
    simpl in Hidx. congruence. }
  subst y. exists ys.
  unfold ZigZagVectorPositioner.get_generator, for_range.
  rewrite <- (app_nil_r (first :: ys)).
  eapply gbind_ok; [exact Hys | reflexivity].
Qed.

End Restart.

(** C8: on a valid configuration every traversal is a finite sequence that
    ends normally and begins with the start vector (the first waypoint for
    the waypoint scans).  The generators are functions of the object alone:
    the line and waypoint generators update no list in place; for the three
    area generators, which update [positions] in place, the run over the
    store shows that a traversal leaves the list [self.start] of the caller
    as it was and that a second traversal, started in the store the first
    one leaves, yields the same sequence. *)
Theorem traversals_restart :
  (forall (self : LinearPositioner.t) n sizes,
      LinearPositioner.n_steps self = Some n ->
      LinearPositioner.step_size self = Some sizes ->
      Forall (fun s => is_number s = true) sizes ->
      1 <= LinearPositioner.passes self ->
      exists ys,
        LinearPositioner.get_generator self =
        (LinearPositioner.start self :: ys, Ok tt)) /\
  (forall (self : LinearPositioner.t) n sizes,
      LinearPositioner.n_steps self = Some n ->
      LinearPositioner.step_size self = Some sizes ->
      Forall (fun s => is_number s = true) sizes ->
      exists ys,
        ZigZagLinearPositioner.get_generator self =
        (LinearPositioner.start self :: ys, Ok tt)) /\
  (forall (self : AreaPositioner.t) counts sizes,
      AreaPositioner.well_formed self counts sizes ->
      1 <= AreaPositioner.passes self ->
      exists ys,
        AreaPositioner.get_generator self =
        (AreaPositioner.start self :: ys, Ok tt) /\
        forall start_ref,
          Store.restarts (Store.area_get_generator self start_ref) start_ref
            (AreaPositioner.start self) (AreaPositioner.start self :: ys)) /\
  (forall (self : AreaPositioner.t) counts sizes,
      AreaPositioner.well_formed self counts sizes ->
      1 <= AreaPositioner.passes self ->
      exists ys,
        ZigZagAreaPositioner.get_generator self =
        (AreaPositioner.start self :: ys, Ok tt) /\
        forall start_ref,
          Store.restarts (Store.zigzag_get_generator self start_ref) start_ref
            (AreaPositioner.start self) (AreaPositioner.start self :: ys)) /\
  (forall (self : MultiAreaPositioner.t) sizes,
      MultiAreaPositioner.well_formed self sizes ->
      1 <= MultiAreaPositioner.passes self ->
      exists ys,
        MultiAreaPositioner.get_generator self =
        (MultiAreaPositioner.start self :: ys, Ok tt) /\
        forall start_ref,
          Store.restarts (Store.multi_get_generator self start_ref) start_ref
            (MultiAreaPositioner.start self)
            (MultiAreaPositioner.start self :: ys)) /\
  (forall (self : VectorPositioner.t) first rest,
      VectorPositioner.positions self = first :: rest ->
      1 <= VectorPositioner.passes self ->
      exists ys,
        VectorPositioner.get_generator self = (first :: ys, Ok tt)) /\
  (forall (self : VectorPositioner.t) first rest,
      VectorPositioner.positions self = first :: rest ->
      VectorPositioner.n_positions self =
        Z.of_nat (length (VectorPositioner.positions self)) ->
      1 <= VectorPositioner.passes self ->
      exists ys,
        ZigZagVectorPositioner.get_generator self = (first :: ys, Ok tt)).
Proof.
  repeat split.
  - intros self n sizes Hn Hsz Hnum Hp.
    destruct (linear_passes self n sizes Hn Hsz Hnum) as [ys E].
    rewrite concat_replicate_first in E by lia. eauto.
  - intros self n sizes Hn Hsz Hnum.
    destruct (zigzag_linear_general self n sizes Hn Hsz Hnum)
      as (rest & E & _). eauto.
  - intros self counts sizes Hwf Hp.
    destruct (area_passes self counts sizes Hwf) as [ys E].
    rewrite concat_replicate_first in E by lia.
    eexists. split; [exact E |]. intros start_ref.
    eapply restarts_of_sim; [exact E |].
    intros h Hs. apply area_generator_sim. exact Hs.
  - intros self counts sizes Hwf Hp.
    destruct (zigzag_area_passes self counts sizes Hwf) as [ys E].
    rewrite concat_replicate_first in E by lia.
    eexists. split; [exact E |]. intros start_ref.
    eapply restarts_of_sim; [exact E |].
    intros h Hs. apply zigzag_generator_sim. exact Hs.
  - intros self sizes Hwf Hp.
    destruct (multi_passes self sizes Hwf) as [ys E].
    rewrite concat_replicate_first in E by lia.
    eexists. split; [exact E |]. intros start_ref.
    eapply restarts_of_sim; [exact E |].
    intros h Hs. apply multi_generator_sim. exact Hs.
  - intros self first rest Hpos Hp.
    rewrite vector_passes, Hpos, concat_replicate_first by lia. eauto.
  - intros self first rest Hpos Hn Hp.
    apply (zigzag_vector_first self first rest Hpos Hn). lia.
Qed.

Lemma traversals_restart_witness :
  (exists ys,
      LinearPositioner.get_generator
        (LinearPositioner.mk None 2 [qz 10] [qz 0] (Some 5) (Some [PyInt 2])) =
      ([qz 0] :: ys, Ok tt)) /\
  (exists ys,
      AreaPositioner.get_generator
        (AreaPositioner.mk None 2 [qz 1; qz 1] [qz 0; qz 0] 2
           (Some [PyInt 1; PyInt 1]) (Some [PyFloat (qz 1); PyFloat (qz 1)])) =
      ([qz 0; qz 0] :: ys, Ok tt) /\
      forall start_ref,
        Store.restarts
          (Store.area_get_generator
             (AreaPositioner.mk None 2 [qz 1; qz 1] [qz 0; qz 0] 2
                (Some [PyInt 1; PyInt 1])
                (Some [PyFloat (qz 1); PyFloat (qz 1)])) start_ref)
          start_ref [qz 0; qz 0] ([qz 0; qz 0] :: ys)) /\
  (exists ys,
      VectorPositioner.get_generator
        (VectorPositioner.mk [[qz 0]; [qz 1]] 2 None 2) = ([qz 0] :: ys, Ok tt)).
Proof.
  destruct traversals_restart as (Hlin & _ & Harea & _ & _ & Hvec & _).
  split; [| split].
  - apply (Hlin (LinearPositioner.mk None 2 [qz 10] [qz 0] (Some 5)
                   (Some [PyInt 2])) 5 [PyInt 2]);
      [reflexivity | reflexivity | repeat constructor | simpl; lia].
  - apply (Harea (AreaPositioner.mk None 2 [qz 1; qz 1] [qz 0; qz 0] 2
                    (Some [PyInt 1; PyInt 1])
                    (Some [PyFloat (qz 1); PyFloat (qz 1)]))
             [1; 1] [PyFloat (qz 1); PyFloat (qz 1)]);
      [repeat split; repeat constructor | simpl; lia].
  - apply (Hvec (VectorPositioner.mk [[qz 0]; [qz 1]] 2 None 2) [qz 0] [[qz 1]]);
      [reflexivity | simpl; lia].
Defined.

(** * Further properties *)

(** ** Transposing the positions of the knobs *)

Section PositionList.
Import Utils.
Context {A : Type}.
Implicit Types ls : list (list A).

Lemma heads_Some ls row :
  heads ls = Some row -> Forall2 (fun l x => l !! O = Some x) ls row.
Proof.
  revert row. induction ls as [| l ls IH]; intros row H; simpl in H.
  - inversion H. constructor.
  - destruct l as [| x l]; [discriminate |].
    destruct (heads ls) as [xs |]; [| discriminate].
    inversion H; subst. constructor; [reflexivity | apply IH; reflexivity].
Qed.

Lemma heads_None ls :
  heads ls = None -> Exists (fun l => l = []) ls.
Proof.
  induction ls as [| l ls IH]; intros H; simpl in H; [discriminate |].
  destruct l as [| x l]; [left; reflexivity |].
  destruct (heads ls); [discriminate |]. right. apply IH. reflexivity.
Qed.

Lemma zip_star_lookup fuel : forall ls i,
  match zip_star fuel ls !! i with
  | Some row => Forall2 (fun l x => l !! i = Some x) ls row
  | None => Exists (fun l => (length l <= i)%nat) ls \/ (fuel <= i)%nat
  end.
Proof.
  induction fuel as [| fuel IH]; intros ls i; simpl.
  - right. lia.
  - destruct (heads ls) as [row |] eqn:Eh.
    + destruct i as [| i]; simpl.
      * apply heads_Some. exact Eh.
      * specialize (IH (map (drop 1) ls) i).
        destruct (zip_star fuel (map (drop 1) ls) !! i) as [row' |].
        -- apply Forall2_fmap_l in IH.
           eapply Forall2_impl; [exact IH |].
           intros l x Hl. simpl in Hl. rewrite lookup_drop in Hl. exact Hl.
        -- destruct IH as [IH | IH]; [left | right; lia].
           apply Exists_fmap in IH.
           eapply Exists_impl; [exact IH |].
           intros l Hl. simpl in Hl. rewrite length_drop in Hl. lia.
    + simpl. left. apply heads_None in Eh.
      eapply Exists_impl; [exact Eh |]. intros l ->. simpl. lia.
Qed.

(** The i-th position collects the i-th value of every knob, in the order
    of the knobs; there is an i-th position exactly as long as every knob
    has an i-th value (and there is at least one knob). *)
Lemma position_list_lookup (axis_list : list (list A)) (i : nat) :
  match convert_to_position_list axis_list !! i with
  | Some row =>
      axis_list <> [] /\ Forall2 (fun l x => l !! i = Some x) axis_list row
  | None =>
      axis_list = [] \/ Exists (fun l => (length l <= i)%nat) axis_list
  end.
Proof.
  unfold convert_to_position_list. destruct axis_list as [| l0 ls].
  - simpl. left. reflexivity.
  - assert (H := zip_star_lookup (length l0) (l0 :: ls) i).
    destruct (zip_star (length l0) (l0 :: ls) !! i) as [row |].
    + split; [discriminate | exact H].
    + right. destruct H as [H | H]; [exact H | left; exact H].
Qed.

Lemma convert_to_position_list_length (m : list (list A)) n :
  m <> [] -> Forall (fun l => length l = n) m ->
  length (convert_to_position_list m) = n.
Proof.
  intros Hne Hrect.
  destruct (decide (length (convert_to_position_list m) < n)%nat) as [Hlt | Hge].
  - exfalso. assert (H := position_list_lookup m
                            (length (convert_to_position_list m))).
    rewrite (lookup_ge_None_2 _ _ (Nat.le_refl _)) in H.
    destruct H as [H | H]; [contradiction |].
    apply Exists_exists in H. destruct H as (l & Hin & Hl).
    rewrite Forall_forall in Hrect. rewrite (Hrect l Hin) in Hl. lia.
  - destruct (decide (n < length (convert_to_position_list m))%nat)
      as [Hgt | Hle]; [| lia].
    exfalso. assert (H := position_list_lookup m n).
    destruct (lookup_lt_is_Some_2 _ _ Hgt) as [row Hrow]. rewrite Hrow in H.
    destruct H as [_ H]. destruct m as [| l m]; [contradiction |].
    inversion H as [| ? x ? ? Hx]; subst.
    inversion Hrect as [| ? ? Hl]; subst.
    apply lookup_lt_Some in Hx. lia.
Qed.

(** The conversion transposes and truncates: position [i] has one value
    per knob, the value [j] being the [i]-th value of knob [j]; and where
    there is no position [i], there is no knob at all or some knob has no
    [i]-th value. *)
Theorem convert_to_position_list_transposes (axis_list : list (list A))
    (i : nat) :
  (forall row, convert_to_position_list axis_list !! i = Some row ->
     length row = length axis_list /\
     forall j l, axis_list !! j = Some l ->
       exists x, l !! i = Some x /\ row !! j = Some x) /\
  (convert_to_position_list axis_list !! i = None ->
     axis_list = [] \/ exists l, l ∈ axis_list /\ (length l <= i)%nat).
Proof.
  assert (H := position_list_lookup axis_list i).
  split.
  - intros row Hrow. rewrite Hrow in H. destruct H as [_ H].
    split; [symmetry; eapply Forall2_length; exact H |].
    intros j l Hl.
    destruct (Forall2_lookup_l _ _ _ _ _ H Hl) as (x & Hx & Hlx).
    exists x. split; assumption.
  - intros Hnone. rewrite Hnone in H.
    destruct H as [H | H]; [left; exact H | right].
    apply Exists_exists in H. exact H.
Qed.

(** On a table with at least one row and rows of one non-zero length,
    converting twice gives the table back. *)
Theorem convert_to_position_list_involutive (m : list (list A)) (n : nat) :
  m <> [] -> (0 < n)%nat -> Forall (fun l => length l = n) m ->
  convert_to_position_list (convert_to_position_list m) = m.
Proof.
  intros Hne Hn Hrect.
  assert (Hlen := convert_to_position_list_length m n Hne Hrect).
  assert (Hrows : forall i row, convert_to_position_list m !! i = Some row ->
                    Forall2 (fun l x => l !! i = Some x) m row).
  { intros i row Hrow.
    assert (H := position_list_lookup m i).
    rewrite Hrow in H. apply H. }
  assert (Hne' : convert_to_position_list m <> []).
  { intros E. rewrite E in Hlen. simpl in Hlen. lia. }
  assert (Hrect' : Forall (fun l => length l = length m)
                          (convert_to_position_list m)).
  { apply Forall_lookup. intros i row Hrow.
    symmetry. eapply Forall2_length, Hrows, Hrow. }
  assert (Hlen2 := convert_to_position_list_length _ _ Hne' Hrect').
  apply list_eq. intros j.
  assert (H := position_list_lookup (convert_to_position_list m) j).
  destruct (convert_to_position_list (convert_to_position_list m) !! j)
    as [row' |] eqn:Erow'.
  - destruct H as [_ H].
    assert (Hj : (j < length m)%nat)
      by (rewrite <- Hlen2; eapply lookup_lt_Some; eassumption).
    destruct (lookup_lt_is_Some_2 m j Hj) as [mj Hmj]. rewrite Hmj.
    f_equal. apply list_eq. intros i.
    destruct (decide (i < n)%nat) as [Hi | Hi].
    + destruct (lookup_lt_is_Some_2 (convert_to_position_list m) i)
        as [ri Hri]; [lia |].
      destruct (Forall2_lookup_l _ _ _ _ _ H Hri) as (x & Hx & Hrx).
      rewrite Hx.
      destruct (Forall2_lookup_l _ _ _ _ _ (Hrows i ri Hri) Hmj)
        as (y & Hy & Hmy).
      rewrite Hmy. congruence.
    + rewrite (lookup_ge_None_2 row' i)
        by (rewrite <- (Forall2_length _ _ _ H); lia).
      rewrite Forall_lookup in Hrect.
      rewrite (lookup_ge_None_2 mj i) by (rewrite (Hrect j mj Hmj); lia).
      reflexivity.
  - symmetry. apply lookup_ge_None_2. rewrite <- Hlen2.
    apply lookup_ge_None_1. exact Erow'.
Qed.

End PositionList.

Lemma convert_to_position_list_transposes_witness :
  length [1; 4] = 2%nat /\
  forall j l, [[1; 2; 3]; [4; 5]] !! j = Some l ->
    exists x, l !! O = Some x /\ [1; 4] !! j = Some x.
Proof.
  apply (proj1 (convert_to_position_list_transposes
                  [[1; 2; 3]; [4; 5]] 0)).
  reflexivity.
Defined.

Lemma convert_to_position_list_involutive_witness :
  Utils.convert_to_position_list
    (Utils.convert_to_position_list [[1; 2; 3]; [4; 5; 6]]) =
  [[1; 2; 3]; [4; 5; 6]].
Proof.
  apply (convert_to_position_list_involutive [[1; 2; 3]; [4; 5; 6]] 3);
    [discriminate | lia | repeat constructor].
Defined.

(** ** Connecting to a PV *)

Section Connecting.
Import Connect.
Variable connects : connects_t.

(** The loop after [k] refused attempts. *)
Lemma connect_loop_refused k : forall n pv w,
  (k <= n)%nat ->
  (forall j, (j < k)%nat -> connects pv (attempts w pv + j)%nat = false) ->
  exists w',
    connect_loop connects n pv w = connect_loop connects (n - k) pv w' /\
    created w' = created w /\
    attempts w' pv = (attempts w pv + k)%nat /\
    (forall p, p <> pv -> attempts w' p = attempts w p) /\
    sleeps w' = (sleeps w + k)%nat.
Proof.
  induction k as [| k IH]; intros n pv w Hk Hno.
  - exists w. rewrite Nat.sub_0_r, !Nat.add_0_r. repeat split.
  - destruct n as [| n]; [lia |]. simpl.
    assert (H0 := Hno O ltac:(lia)). rewrite Nat.add_0_r in H0. rewrite H0.
    destruct (IH n pv (sleep (snd (pv_connect connects pv w))) ltac:(lia))
      as (w' & E & Hc & Ha & Ho & Hs).
    { intros j Hj. simpl. rewrite decide_True by reflexivity.
      replace (S (attempts w pv) + j)%nat with (attempts w pv + S j)%nat by lia.
      apply Hno. lia. }
    exists w'. simpl in *. rewrite decide_True in Ha by reflexivity.
    repeat split.
    + exact E.
    + exact Hc.
    + lia.
    + intros p Hp. rewrite (Ho p Hp). rewrite decide_False by exact Hp.
      reflexivity.
    + lia.
Qed.

(** [connect_to_pv] creates one PV object and calls [connect()] on it until
    the call succeeds, at most [n_connection_attempts] times, sleeping after
    every refusal.  When the attempt number [k] is the first to succeed it
    returns the object after [k + 1] calls and [k] sleeps; when all
    [n_connection_attempts] attempts are refused (none at all for a number
    that is not positive) it raises [ValueError] after as many calls and
    sleeps. *)
Theorem connect_to_pv_outcome (pv_name : string) (n_connection_attempts : Z)
    (w : world) :
  let pv := length (created w) in
  (forall k,
      (k < Z.to_nat n_connection_attempts)%nat ->
      (forall j, (j < k)%nat -> connects pv (attempts w pv + j)%nat = false) ->
      connects pv (attempts w pv + k)%nat = true ->
      exists w',
        connect_to_pv connects pv_name n_connection_attempts w = (Ok pv, w') /\
        created w' = created w ++ [pv_name] /\
        attempts w' pv = (attempts w pv + k + 1)%nat /\
        (forall p, p <> pv -> attempts w' p = attempts w p) /\
        sleeps w' = (sleeps w + k)%nat) /\
  ((forall j, (j < Z.to_nat n_connection_attempts)%nat ->
              connects pv (attempts w pv + j)%nat = false) ->
   exists w',
     connect_to_pv connects pv_name n_connection_attempts w =
       (Raise ValueError, w') /\
     created w' = created w ++ [pv_name] /\
     attempts w' pv = (attempts w pv + Z.to_nat n_connection_attempts)%nat /\
     (forall p, p <> pv -> attempts w' p = attempts w p) /\
     sleeps w' = (sleeps w + Z.to_nat n_connection_attempts)%nat).
Proof.
  intros pv. unfold connect_to_pv. cbn [new_pv].
  set (w0 := mkworld (created w ++ [pv_name]) (attempts w) (sleeps w)).
  split.
  - intros k Hk Hno Hyes.
    destruct (connect_loop_refused k (Z.to_nat n_connection_attempts) pv w0
                ltac:(lia) Hno) as (w1 & E & Hc & Ha & Ho & Hs).
    fold pv. rewrite E.
    destruct (Z.to_nat n_connection_attempts - k)%nat as [| m] eqn:Em; [lia |].
    simpl. rewrite Ha. simpl. rewrite Hyes.
    eexists. split; [reflexivity |]. simpl.
    rewrite decide_True by reflexivity. rewrite Hc, Ha, Hs.
    split; [reflexivity |]. split; [simpl; lia |]. split; [| reflexivity].
    intros p Hp. rewrite decide_False by exact Hp. apply Ho, Hp.
  - intros Hno.
    destruct (connect_loop_refused (Z.to_nat n_connection_attempts)
                (Z.to_nat n_connection_attempts) pv w0 ltac:(lia) Hno)
      as (w1 & E & Hc & Ha & Ho & Hs).
    fold pv. rewrite E, Nat.sub_diag. simpl.
    exists w1. repeat split; assumption.
Qed.

Lemma connect_loop_created m : forall pv w1 r w1',
  connect_loop connects m pv w1 = (r, w1') ->
  created w1' = created w1 /\ (forall pv', r = Ok pv' -> pv' = pv).
Proof.
  induction m as [| m IH]; intros pv w1 r w1' H; simpl in H.
  - inversion H; subst. split; [reflexivity | intros pv' Hpv; discriminate].
  - destruct (connects _ _).
    + inversion H; subst. split; [reflexivity |].
      intros pv' Hpv. inversion Hpv. reflexivity.
    + apply IH in H. simpl in H. exact H.
Qed.

Lemma connect_to_pv_fresh pv_name n w r w' :
  connect_to_pv connects pv_name n w = (r, w') ->
  created w' = created w ++ [pv_name] /\
  (forall pv, r = Ok pv -> pv = length (created w)).
Proof.
  unfold connect_to_pv. cbn [new_pv]. intros H.
  apply connect_loop_created in H. simpl in H. exact H.
Qed.

Lemma connect_all_fresh names : forall w pvs w',
  connect_all connects names w = (Ok pvs, w') ->
  pvs = seq (length (created w)) (length names) /\
  created w' = created w ++ names.
Proof.
  induction names as [| name names IH]; intros w pvs w' H; simpl in H.
  - inversion H; subst. rewrite app_nil_r. split; reflexivity.
  - destruct (connect_to_pv connects name 3 w) as [[pv | e] w1] eqn:E1;
      [| discriminate].
    destruct (connect_all connects names w1) as [[pvs1 | e] w2] eqn:E2;
      [| discriminate].
    inversion H; subst.
    apply connect_to_pv_fresh in E1. destruct E1 as [Hc1 Hpv].
    apply IH in E2. destruct E2 as [Hpvs Hc2].
    rewrite (Hpv pv eq_refl), Hpvs, Hc2, Hc1.
    rewrite length_app. simpl. rewrite <- app_assoc. simpl.
    split; [| reflexivity]. f_equal. f_equal. lia.
Qed.

(** When [EpicsWriter.__init__] returns, [self.pvs] holds one new PV object
    per name, in the order of the names: the objects created by this call,
    all different.  A single name is taken as a list of one name. *)
Theorem writer_init_pvs (list_of_pvs : Utils.arg string) (w : world) self w' :
  writer_init connects list_of_pvs w = (Ok self, w') ->
  exists names,
    Utils.convert_to_list list_of_pvs = Utils.ArgList names /\
    EpicsWriter.pvs self = seq (length (created w)) (length names) /\
    created w' = created w ++ names /\
    NoDup (EpicsWriter.pvs self).
Proof.
  unfold writer_init, init_pvs.
  destruct (Utils.convert_to_list list_of_pvs) as [| names | a] eqn:Ec;
    [discriminate | | discriminate].
  destruct (connect_all connects names w) as [[pvs | e] w1] eqn:E;
    [| discriminate].
  intros H. inversion H; subst. simpl.
  apply connect_all_fresh in E. destruct E as [-> Hc].
  exists names. repeat split; [exact Hc | apply NoDup_seq].
Qed.

End Connecting.

Lemma connect_to_pv_outcome_witness :
  exists w',
    Connect.connect_to_pv (fun _ k => bool_decide (k = 1%nat)) "A" 3
      Connect.world0 = (Ok O, w') /\
    Connect.sleeps w' = 1%nat.
Proof.
  destruct (proj1 (connect_to_pv_outcome (fun _ k => bool_decide (k = 1%nat))
                     "A" 3 Connect.world0) 1%nat)
    as (w' & E & _ & _ & _ & Hs).
  - simpl. lia.
  - intros j Hj. assert (j = O) by lia. subst j. reflexivity.
  - reflexivity.
  - exists w'. split; [exact E | exact Hs].
Defined.

Lemma writer_init_pvs_witness :
  exists names,
    Utils.convert_to_list (Utils.ArgOne "A"%string) = Utils.ArgList names /\
    names = ["A"%string].
Proof.
  destruct (writer_init_pvs (fun _ _ => true) (Utils.ArgOne "A"%string)
              Connect.world0 (EpicsWriter.mk [O])
              (Connect.mkworld ["A"%string]
                 (fun p => if decide (p = O) then 1%nat else O) O))
    as (names & Hc & _).
  - reflexivity.
  - exists names. split; [exact Hc |]. inversion Hc. reflexivity.
Defined.

(** ** Reading the PVs one by one *)

Section Reading.
Import EpicsReader.
Variable reads : EpicsWriter.reads_t.

Lemma get_many_spec n : forall pv w,
  exists w',
    get_many reads n pv w =
      ((fun i => reads pv (EpicsWriter.gets w pv + i)%nat) <$> seq 0 n, w') /\
    EpicsWriter.gets w' pv = (EpicsWriter.gets w pv + n)%nat /\
    (forall p, p <> pv -> EpicsWriter.gets w' p = EpicsWriter.gets w p) /\
    EpicsWriter.puts w' = EpicsWriter.puts w /\
    EpicsWriter.ticks w' = EpicsWriter.ticks w.
Proof.
  induction n as [| n IH]; intros pv w.
  - exists w. simpl. rewrite Nat.add_0_r. repeat split.
  - set (w1 := snd (EpicsWriter.pv_get reads pv w)).
    assert (H1 : EpicsWriter.gets w1 pv = S (EpicsWriter.gets w pv))
      by (simpl; rewrite decide_True by reflexivity; reflexivity).
    destruct (IH pv w1) as (w' & E & Hg & Ho & Hp & Ht).
    rewrite H1 in E, Hg.
    exists w'.
    change (get_many reads (S n) pv w)
      with (let '(vs, w2) := get_many reads n pv w1 in
            (reads pv (EpicsWriter.gets w pv) :: vs, w2)).
    rewrite E.
    split; [| repeat split].
    + f_equal. cbn [seq fmap list_fmap]. rewrite Nat.add_0_r. f_equal.
      rewrite <- fmap_S_seq, <- list_fmap_compose.
      apply list_fmap_ext. intros i x _. simpl. f_equal. lia.
    + lia.
    + intros p Hne. rewrite (Ho p Hne). simpl.
      rewrite decide_False by exact Hne. reflexivity.
    + exact Hp.
    + exact Ht.
Qed.

Lemma read_one_spec self pv w :
  exists w',
    read_one reads self pv w = (expected reads self w pv, w') /\
    EpicsWriter.gets w' pv =
      (EpicsWriter.gets w pv + Z.to_nat (n_measurments self))%nat /\
    (forall p, p <> pv -> EpicsWriter.gets w' p = EpicsWriter.gets w p) /\
    EpicsWriter.puts w' = EpicsWriter.puts w /\
    EpicsWriter.ticks w' = EpicsWriter.ticks w.
Proof.
  unfold read_one, expected.
  destruct (decide (n_measurments self = 1)) as [H1 | H1].
  - eexists. split; [reflexivity |]. simpl.
    rewrite decide_True by reflexivity. rewrite H1.
    repeat split; [simpl; lia |].
    intros p Hne. rewrite decide_False by exact Hne. reflexivity.
  - destruct (get_many_spec (Z.to_nat (n_measurments self)) pv w)
      as (w' & E & H). exists w'. rewrite E. split; [reflexivity | exact H].
Qed.

Lemma read_each_spec self rest : forall w,
  NoDup rest ->
  exists w',
    read_each reads self rest w = (expected reads self w <$> rest, w') /\
    (forall p, p ∈ rest ->
       EpicsWriter.gets w' p =
       (EpicsWriter.gets w p + Z.to_nat (n_measurments self))%nat) /\
    (forall p, p ∉ rest -> EpicsWriter.gets w' p = EpicsWriter.gets w p) /\
    EpicsWriter.puts w' = EpicsWriter.puts w /\
    EpicsWriter.ticks w' = EpicsWriter.ticks w.
Proof.
  induction rest as [| pv rest IH]; intros w Hnd.
  - exists w. simpl. repeat split. intros p Hp. inversion Hp.
  - inversion Hnd as [| ? ? Hnotin Hnd']; subst.
    destruct (read_one_spec self pv w) as (w1 & E1 & Hg1 & Ho1 & Hp1 & Ht1).
    destruct (IH w1 Hnd') as (w2 & E2 & Hin2 & Hout2 & Hp2 & Ht2).
    exists w2. simpl. rewrite E1, E2. split; [| repeat split].
    + f_equal. f_equal.
      apply list_fmap_ext. intros i p Hp. unfold expected.
      assert (p <> pv).
      { intros ->. apply Hnotin. eapply list_elem_of_lookup_2. exact Hp. }
      rewrite (Ho1 p) by assumption. reflexivity.
    + intros p Hp. apply elem_of_cons in Hp. destruct Hp as [-> | Hp].
      * rewrite (Hout2 pv Hnotin). exact Hg1.
      * rewrite (Hin2 p Hp). rewrite Ho1; [reflexivity |].
        intros ->. contradiction.
    + intros p Hp. rewrite not_elem_of_cons in Hp. destruct Hp as [Hne Hp].
      rewrite (Hout2 p Hp). apply Ho1. exact Hne.
    + congruence.
    + congruence.
Qed.

(** [EpicsReader.read] on PV objects that are all different returns one
    entry per PV, in the order of [self.pvs]: the value of one [pv.get()]
    when [n_measurments] is [1], else the list of the values of
    [n_measurments] successive calls (an empty list when the number is not
    positive).  It calls [get()] on every PV that many times, on no other
    PV, and neither writes nor reads the clock. *)
Theorem reader_read_spec (self : t) (w : EpicsWriter.world) :
  NoDup (pvs self) ->
  exists w',
    read reads self w = (expected reads self w <$> pvs self, w') /\
    (forall p, p ∈ pvs self ->
       EpicsWriter.gets w' p =
       (EpicsWriter.gets w p + Z.to_nat (n_measurments self))%nat) /\
    (forall p, p ∉ pvs self -> EpicsWriter.gets w' p = EpicsWriter.gets w p) /\
    EpicsWriter.puts w' = EpicsWriter.puts w /\
    EpicsWriter.ticks w' = EpicsWriter.ticks w.
Proof. intros Hnd. apply read_each_spec. exact Hnd. Qed.

End Reading.

Lemma reader_read_spec_witness :
  exists w',
    EpicsReader.read (fun pv k => Some (qz (Z.of_nat (pv + k))))
      (EpicsReader.mk [O; 1%nat] 2) EpicsWriter.world0 =
    ([EpicsReader.Many [Some (qz 0); Some (qz 1)];
      EpicsReader.Many [Some (qz 1); Some (qz 2)]], w').
Proof.
  destruct (reader_read_spec (fun pv k => Some (qz (Z.of_nat (pv + k))))
              (EpicsReader.mk [O; 1%nat] 2) EpicsWriter.world0)
    as (w' & E & _).
  - apply (NoDup_seq 0 2).
  - exists w'. exact E.
Defined.

(** ** Collecting positions and data *)

Section Collecting.
Import SimpleDataProcessor.
Context {P D : Type}.

Lemma process_all_spec (pairs : list (P * D)) : forall self : t P D,
  length (positions self) = length (data self) ->
  get_data (fold_left (fun self '(p, d) => process self p d) pairs self) =
  get_data self ++ pairs.
Proof.
  induction pairs as [| [p d] pairs IH]; intros self Hlen; simpl.
  - rewrite app_nil_r. reflexivity.
  - rewrite IH by (simpl; rewrite !length_app; simpl; lia).
    unfold get_data. simpl.
    rewrite zip_with_app by exact Hlen. simpl.
    rewrite <- app_assoc. reflexivity.
Qed.

(** After any sequence of calls of [process] on a new processor,
    [get_data] returns the pairs (position, data) of the calls, in the
    order of the calls. *)
Theorem get_data_returns_processed (pairs : list (P * D)) :
  get_data (fold_left (fun self '(p, d) => process self p d) pairs init) =
  pairs.
Proof. apply (process_all_spec pairs init). reflexivity. Qed.

End Collecting.

(** ** What a return of [write] guarantees *)

Section Writing.
Import EpicsWriter.
Variable reads : reads_t.
Variable clock : clock_t.

Lemma all_true_at flags i :
  all flags = true -> (i < length flags)%nat -> flags !! i = Some true.
Proof.
  revert i. unfold all. induction flags as [| b flags IH]; intros i Ha Hi;
    simpl in *; [lia |].
  apply andb_prop in Ha. destruct Ha as [Hb Ha]. destruct i as [| i]; simpl.
  - destruct b; [reflexivity | discriminate].
  - apply IH; [exact Ha | lia].
Qed.

Lemma poll_sound self values tolerance index pv w flags s' :
  poll reads values tolerance index pv (w, flags) = Ok s' ->
  pvs self !! index = Some pv ->
  (forall i, flags !! i = Some true ->
             was_within reads self values tolerance i) ->
  forall i, snd s' !! i = Some true ->
            was_within reads self values tolerance i.
Proof.
  unfold poll. simpl.
  destruct (falsy _); [intros H; inversion H; subst; auto |].
  unfold getitem. destruct (values !! index) as [target |] eqn:Et;
    simpl; [| discriminate].
  destruct (reads pv _) as [x |] eqn:Ex; [| discriminate].
  destruct (bool_decide _) eqn:Eb; intros H Hpv Hinv i Hi;
    inversion H; subst; simpl in Hi; [| auto].
  destruct (decide (i = index)) as [-> | Hne].
  - apply bool_decide_eq_true_1 in Eb.
    eexists pv, _, x, target. repeat split; eassumption.
  - rewrite list_lookup_insert_ne in Hi by congruence. auto.
Qed.

Lemma poll_unchanged values tolerance index pv s s' :
  poll reads values tolerance index pv s = Ok s' ->
  puts (fst s') = puts (fst s).
Proof.
  destruct s as [w flags]. unfold poll. simpl.
  destruct (falsy _); [intros H; inversion H; reflexivity |].
  destruct (getitem values index); simpl; [| discriminate].
  destruct (reads _ _); [| discriminate].
  destruct (bool_decide _); intros H; inversion H; reflexivity.
Qed.

Lemma poll_all_sound self values tolerance rest : forall index s s',
  poll_all reads values tolerance index rest s = Ok s' ->
  (forall j pv, rest !! j = Some pv -> pvs self !! (index + j)%nat = Some pv) ->
  (forall i, snd s !! i = Some true ->
             was_within reads self values tolerance i) ->
  (forall i, snd s' !! i = Some true ->
             was_within reads self values tolerance i) /\
  puts (fst s') = puts (fst s).
Proof.
  induction rest as [| pv rest IH]; intros index s s' H Hpvs Hinv; simpl in H.
  - inversion H; subst. split; [exact Hinv | reflexivity].
  - assert (Hrest : forall j p, rest !! j = Some p ->
                                pvs self !! (S index + j)%nat = Some p).
    { intros j p Hj. replace (S index + j)%nat with (index + S j)%nat by lia.
      apply Hpvs. exact Hj. }
    destruct (snd s !! index) as [[|] |] eqn:E.
    + eapply IH; eassumption.
    + destruct (poll reads values tolerance index pv s) as [s1 |] eqn:E1;
        simpl in H; [| discriminate].
      destruct (IH (S index) s1 s' H Hrest) as [Hs Hp].
      * destruct s as [w flags]. eapply poll_sound; [exact E1 | | exact Hinv].
        specialize (Hpvs O pv eq_refl). rewrite Nat.add_0_r in Hpvs.
        exact Hpvs.
      * split; [exact Hs |]. rewrite Hp. eapply poll_unchanged. exact E1.
    + inversion H; subst. split; [exact Hinv | reflexivity].
Qed.

Lemma poll_loop_sound self values tolerance timeout t0 fuel : forall s s',
  poll_loop reads clock fuel self values tolerance timeout t0 s =
    Some (Ok s') ->
  (forall i, snd s !! i = Some true ->
             was_within reads self values tolerance i) ->
  (forall i, snd s' !! i = Some true ->
             was_within reads self values tolerance i) /\
  length (snd s') = length (snd s) /\
  puts (fst s') = puts (fst s).
Proof.
  induction fuel as [| fuel IH]; intros s s' H Hinv; simpl in H;
    [discriminate |].
  destruct (all (snd s)).
  - inversion H; subst. repeat split. exact Hinv.
  - destruct (bool_decide _).
    + set (s1 := (mkworld _ _ _, snd s)) in H.
      destruct (poll_all reads values tolerance 0 (pvs self) s1)
        as [s2 |] eqn:E2; [| discriminate].
      destruct (poll_all_sound self values tolerance (pvs self) O s1 s2 E2)
        as [Hs2 Hp2]; [intros j pv Hj; exact Hj | exact Hinv |].
      destruct (IH s2 s' H Hs2) as (Hs & Hl & Hp).
      repeat split.
      * exact Hs.
      * rewrite Hl. apply (poll_all_length reads _ _ _ _ _ _ E2).
      * rewrite Hp, Hp2. reflexivity.
    + inversion H; subst. repeat split. exact Hinv.
Qed.

Lemma put_all_puts self values w :
  puts (put_all self values w) = puts w ++ zip (pvs self) values.
Proof.
  unfold put_all. generalize (zip (pvs self) values). intros l.
  revert w. induction l as [| [pv v] l IH]; intros w; simpl.
  - rewrite app_nil_r. reflexivity.
  - rewrite IH. simpl. rewrite <- app_assoc. reflexivity.
Qed.

Lemma write_returns self values tolerance timeout w fuel w' :
  write reads clock fuel self values tolerance timeout w = Some (Ok w') ->
  (forall i, (i < length (pvs self))%nat ->
             was_within reads self values tolerance i) /\
  puts w' = puts w ++ zip (pvs self) values.
Proof.
  unfold write. simpl.
  set (s0 := (mkworld _ _ _, replicate (length (pvs self)) false)).
  destruct (poll_loop reads clock fuel self values tolerance timeout _ s0)
    as [[[w1 flags] | e] |] eqn:E; [| discriminate | discriminate].
  destruct (all flags) eqn:Ea; simpl; [| discriminate].
  intros H. inversion H; subst.
  destruct (poll_loop_sound _ _ _ _ _ _ _ _ E) as (Hs & Hl & Hp).
  { intros i Hi. simpl in Hi. apply lookup_replicate_1 in Hi.
    destruct Hi; discriminate. }
  simpl in *. rewrite length_replicate in Hl. split.
  - intros i Hi. apply Hs. apply all_true_at; [exact Ea | lia].
  - rewrite Hp. apply put_all_puts.
Qed.

(** When [write] returns normally, every channel of the writer has had a
    [pv.get()] that returned a value within [tolerance] of the target of
    that channel. *)
Theorem write_returns_converged self values tolerance timeout w fuel w' :
  write reads clock fuel self values tolerance timeout w = Some (Ok w') ->
  forall i, (i < length (pvs self))%nat ->
            was_within reads self values tolerance i.
Proof. intros H. apply (write_returns _ _ _ _ _ _ _ H). Qed.

(** When [write] returns normally, it has put every value once, to the
    channel of the same rank, in the order of the channels, and has put
    nothing else: polling never writes. *)
Theorem write_puts_once self values tolerance timeout w fuel w' :
  write reads clock fuel self values tolerance timeout w = Some (Ok w') ->
  puts w' = puts w ++ zip (pvs self) values.
Proof. intros H. apply (write_returns _ _ _ _ _ _ _ H). Qed.

(** Without channels [write] returns at once, whatever the values, the
    tolerance and the time limit: it reads the clock once and calls no PV.
    With at least one channel and a time limit that the first reading of
    the clock already reaches, it raises [ValueError] whatever the channels
    would read. *)
Theorem write_without_polling :
  (forall values tolerance timeout w fuel,
      write reads clock (S fuel) (mk []) values tolerance timeout w =
      Some (Ok (mkworld (gets w) (puts w) (S (ticks w))))) /\
  (forall self values tolerance timeout w fuel,
      pvs self <> [] ->
      (timeout <= clock (S (ticks w)) - clock (ticks w))%Qc ->
      write reads clock (S fuel) self values tolerance timeout w =
      Some (Raise ValueError)).
Proof.
  split; [reflexivity |].
  intros self values tolerance timeout w fuel Hne Hto.
  unfold write. simpl. rewrite put_all_ticks.
  destruct (pvs self) as [| pv rest] eqn:Ep; [contradiction |]. simpl.
  rewrite bool_decide_eq_false_2 by (apply Qcle_not_lt; exact Hto).
  reflexivity.
Qed.

End Writing.

Lemma write_returns_converged_witness :
  was_within (fun _ _ => Some (qz 1)) (EpicsWriter.mk [O]) [qz 1]
    EpicsWriter.default_tolerance O.
Proof.
  destruct (EpicsWriter.write (fun _ _ => Some (qz 1))
              (fun k => qz (Z.of_nat k)) 10 (EpicsWriter.mk [O]) [qz 1]
              EpicsWriter.default_tolerance EpicsWriter.default_timeout
              EpicsWriter.world0) as [[w' | e] |] eqn:E.
  - apply (write_returns_converged _ _ _ _ _ _ _ _ _ E). simpl. lia.
  - vm_compute in E. discriminate.
  - vm_compute in E. discriminate.
Defined.

Lemma write_puts_once_witness :
  exists w',
    EpicsWriter.write (fun _ _ => Some (qz 1)) (fun k => qz (Z.of_nat k)) 10
      (EpicsWriter.mk [O]) [qz 1] EpicsWriter.default_tolerance
      EpicsWriter.default_timeout EpicsWriter.world0 = Some (Ok w') /\
    EpicsWriter.puts w' = [(O, qz 1)].
Proof.
  destruct (EpicsWriter.write (fun _ _ => Some (qz 1))
              (fun k => qz (Z.of_nat k)) 10 (EpicsWriter.mk [O]) [qz 1]
              EpicsWriter.default_tolerance EpicsWriter.default_timeout
              EpicsWriter.world0) as [[w' | e] |] eqn:E.
  - exists w'. split; [reflexivity |].
    apply (write_puts_once _ _ _ _ _ _ _ _ _ E).
  - vm_compute in E. discriminate.
  - vm_compute in E. discriminate.
Defined.

Lemma write_without_polling_witness :
  EpicsWriter.write (fun _ _ => Some (qz 1)) (fun k => qz (Z.of_nat k)) 1
    (EpicsWriter.mk [O]) [qz 1] EpicsWriter.default_tolerance (qz 0)
    EpicsWriter.world0 =
  Some (Raise ValueError).
Proof.
  apply (proj2 (write_without_polling (fun _ _ => Some (qz 1))
                  (fun k => qz (Z.of_nat k)))).
  - discriminate.
  - vm_compute. discriminate.
Defined.

(** ** The cache of the bsread reader *)

Section Cache.
Import ReadGroupInterface.
Variable clock : clock_t.
Variable stream : nat -> option message.

(** A frame that matches is followed by matching frames only: whatever
    comes at the same or a later time stamp matches too. *)
Theorem is_message_after_timestamp_monotone (m m' : message) (timestamp : Qc) :
  is_message_after_timestamp (Some m) timestamp = true ->
  sec m < sec m' \/ (sec m = sec m' /\ ns m <= ns m') ->
  is_message_after_timestamp (Some m') timestamp = true.
Proof.
  rewrite !is_after_spec. lia.
Qed.

Lemma cached_values (m : message) (names : list string) :
  (forall vals,
      Forall2 (fun name v => data m !! name = Some v) names vals ->
      mapM (fun pv_name => match data m !! pv_name with
                           | Some v => Ok v
                           | None => Raise KeyError
                           end) names = Ok vals) /\
  (Exists (fun name => data m !! name = None) names ->
   mapM (fun pv_name => match data m !! pv_name with
                        | Some v => Ok v
                        | None => Raise KeyError
                        end) names = Raise KeyError).
Proof.
  induction names as [| name names [IHok IHko]]; split.
  - intros vals H. inversion H. reflexivity.
  - intros H. inversion H.
  - intros vals H. inversion H as [| ? v ? vs Hv Hvs]; subst. simpl.
    rewrite Hv. simpl. rewrite (IHok vs Hvs). reflexivity.
  - intros H. simpl. destruct (data m !! name) as [v |] eqn:E;
      [| reflexivity].
    simpl. inversion H as [? ? Hn | ? ? Hn]; subst; [congruence |].
    rewrite (IHko Hn). reflexivity.
Qed.

(** [k] iterations that pass the time test and receive no matching frame. *)
Lemma read_loop_skips self timeout t0 k : forall w fuel,
  default_read_timeout self = Some timeout ->
  (forall j, (j < k)%nat ->
     (clock (ticks w + j)%nat - t0 < timeout)%Qc /\
     is_message_after_timestamp (stream (receives w + j)%nat) t0 = false) ->
  (k <= fuel)%nat ->
  read_loop clock stream fuel self t0 w =
  read_loop clock stream (fuel - k) self t0
    (mkworld (ticks w + k) (receives w + k)).
Proof.
  induction k as [| k IH]; intros w fuel Hattr Hiter Hfuel.
  - rewrite Nat.sub_0_r, !Nat.add_0_r. destruct w. reflexivity.
  - destruct fuel as [| fuel]; [lia |]. simpl. rewrite Hattr. simpl.
    destruct (Hiter O ltac:(lia)) as [Hlt Hno].
    rewrite Nat.add_0_r in Hlt, Hno.
    rewrite bool_decide_eq_true_2 by assumption. rewrite Hno.
    rewrite (IH (mkworld (S (ticks w)) (S (receives w))) fuel); simpl.
    + do 2 f_equal; lia.
    + assumption.
    + intros j Hj. destruct (Hiter (S j) ltac:(lia)) as [H1 H2].
      replace (S (ticks w + j)) with (ticks w + S j)%nat by lia.
      replace (S (receives w + j)) with (receives w + S j)%nat by lia.
      split; assumption.
    + lia.
Qed.

(** With a time limit assigned to [default_read_timeout]: when the first
    [k] frames received do not match and the next one, [m], does, all
    within the time limit, [read] caches [m] with the time of the call and
    returns the values of the properties in [m] ([KeyError] when [m] lacks
    one); [read_cached_monitors] then returns the values of the monitors in
    the same frame [m].  [receive()] has been called [k + 1] times. *)
Theorem read_returns_first_match self timeout k m w fuel :
  default_read_timeout self = Some timeout ->
  (forall j, (j < k)%nat ->
     (clock (S (ticks w) + j)%nat - clock (ticks w) < timeout)%Qc /\
     is_message_after_timestamp (stream (receives w + j)%nat)
       (clock (ticks w)) = false) ->
  (clock (S (ticks w) + k)%nat - clock (ticks w) < timeout)%Qc ->
  stream (receives w + k)%nat = Some m ->
  is_message_after_timestamp (Some m) (clock (ticks w)) = true ->
  (k < fuel)%nat ->
  exists r self' w',
    read clock stream fuel self w = Some (r, self', w') /\
    message_cache self' = Some m /\
    message_cache_timestamp self' = Some (clock (ticks w)) /\
    receives w' = S (receives w + k) /\
    (forall vals,
        Forall2 (fun name v => data m !! name = Some v) (properties self) vals ->
        r = Ok vals) /\
    (Exists (fun name => data m !! name = None) (properties self) ->
     r = Raise KeyError) /\
    (forall vals,
        Forall2 (fun name v => data m !! name = Some v)
                (monitor_properties self) vals ->
        read_cached_monitors self' = Ok vals).
Proof.
  intros Hattr Hiter Htest Hm Hafter Hfuel.
  unfold read. cbn [time].
  rewrite (read_loop_skips self timeout (clock (ticks w)) k
             (mkworld (S (ticks w)) (receives w)) fuel Hattr Hiter)
    by lia.
  destruct (fuel - k)%nat as [| f] eqn:Ef; [lia |].
  cbn [read_loop time ticks receives]. rewrite Hattr. cbn [getattr].
  rewrite bool_decide_eq_true_2 by exact Htest.
  cbn [receive receives ticks]. rewrite Hm, Hafter.
  do 3 eexists. split; [reflexivity |].
  cbn [message_cache message_cache_timestamp receives properties
       monitor_properties].
  split; [reflexivity |]. split; [reflexivity |]. split; [reflexivity |].
  unfold read_cached_monitors, read_pvs_from_cache.
  cbn [message_cache monitor_properties].
  destruct (cached_values m (properties self)) as [Hok Hko].
  destruct (cached_values m (monitor_properties self)) as [Hmon _].
  split; [exact Hok |]. split; [exact Hko | exact Hmon].
Qed.

(** With a time limit assigned: when [k] frames are received without a
    match and the time limit is then reached, [read] raises the "Read
    timeout exceeded" exception and leaves the reader, and so its cache, as
    it was; [receive()] has been called [k] times. *)
Theorem read_timeout_keeps_cache self timeout k w fuel :
  default_read_timeout self = Some timeout ->
  (forall j, (j < k)%nat ->
     (clock (S (ticks w) + j)%nat - clock (ticks w) < timeout)%Qc /\
     is_message_after_timestamp (stream (receives w + j)%nat)
       (clock (ticks w)) = false) ->
  ~ (clock (S (ticks w) + k)%nat - clock (ticks w) < timeout)%Qc ->
  (k < fuel)%nat ->
  read clock stream fuel self w =
  Some (Raise GenericException, self,
        mkworld (S (S (ticks w) + k)) (receives w + k)).
Proof.
  intros Hattr Hiter Hend Hfuel. unfold read. cbn [time].
  apply (read_loop_times_out clock stream self timeout (clock (ticks w)) k
           (mkworld (S (ticks w)) (receives w)) fuel Hattr Hiter Hend Hfuel).
Qed.

(** Before any successful [read] and after [close], in particular on a
    reader just built, [read_cached_monitors] raises [ValueError], whatever
    the list of monitors (also an empty one). *)
Theorem read_cached_monitors_empty_cache :
  (forall self, message_cache self = None ->
                read_cached_monitors self = Raise ValueError) /\
  (forall dn dw ps ms nm wt self,
      init dn dw ps ms nm wt = Ok self ->
      read_cached_monitors self = Raise ValueError) /\
  (forall self, read_cached_monitors (close self) = Raise ValueError).
Proof.
  assert (H : forall self, message_cache self = None ->
                           read_cached_monitors self = Raise ValueError).
  { intros self Hc. unfold read_cached_monitors, read_pvs_from_cache.
    rewrite Hc. reflexivity. }
  split; [exact H |]. split.
  - intros dn dw ps ms nm wt self Hi. apply H.
    unfold init in Hi. destruct ps, ms; inversion Hi; reflexivity.
  - intros self. apply H. reflexivity.
Qed.

End Cache.

Lemma is_message_after_timestamp_monotone_witness :
  ReadGroupInterface.is_message_after_timestamp
    (Some (ReadGroupInterface.mkmessage 3 0 ∅)) (Q2Qc (3 # 2)) = true.
Proof.
  apply (is_message_after_timestamp_monotone
           (ReadGroupInterface.mkmessage 2 7 ∅)
           (ReadGroupInterface.mkmessage 3 0 ∅) (Q2Qc (3 # 2))).
  - reflexivity.
  - left. simpl. lia.
Defined.

Lemma read_returns_first_match_witness :
  exists r self' w',
    ReadGroupInterface.read
      (fun k => qz (10 + Z.of_nat k))
      (fun k => match k with
                | O => None
                | S O => Some (ReadGroupInterface.mkmessage 9 5 ∅)
                | _ => Some (ReadGroupInterface.mkmessage 10 0
                               (<["A"%string := qz 1]>
                                  (<["M"%string := qz 2]> ∅)))
                end)
      5
      (ReadGroupInterface.mk ["A"%string] ["M"%string] 1 (qz 0) None None
         (Some (qz 100)))
      ReadGroupInterface.world0 = Some (r, self', w') /\
    r = Ok [qz 1] /\
    ReadGroupInterface.read_cached_monitors self' = Ok [qz 2].
Proof.
  destruct (read_returns_first_match
              (fun k => qz (10 + Z.of_nat k))
              (fun k => match k with
                        | O => None
                        | S O => Some (ReadGroupInterface.mkmessage 9 5 ∅)
                        | _ => Some (ReadGroupInterface.mkmessage 10 0
                                       (<["A"%string := qz 1]>
                                          (<["M"%string := qz 2]> ∅)))
                        end)
              (ReadGroupInterface.mk ["A"%string] ["M"%string] 1 (qz 0)
                 None None (Some (qz 100)))
              (qz 100) 2%nat
              (ReadGroupInterface.mkmessage 10 0
                 (<["A"%string := qz 1]> (<["M"%string := qz 2]> ∅)))
              ReadGroupInterface.world0 5%nat)
    as (r & self' & w' & E & _ & _ & _ & Hok & _ & Hmon).
  - reflexivity.
  - intros j Hj. destruct j as [| [| j]]; [| | lia]; split; reflexivity.
  - reflexivity.
  - reflexivity.
  - reflexivity.
  - lia.
  - exists r, self', w'. split; [exact E |]. split.
    + apply Hok. repeat constructor.
    + apply Hmon. repeat constructor.
Defined.

Lemma read_timeout_keeps_cache_witness :
  ReadGroupInterface.read (fun k => qz (Z.of_nat k)) (fun _ => None) 5
    (ReadGroupInterface.mk ["A"%string] [] 1 (qz 0) None None (Some (qz 2)))
    ReadGroupInterface.world0 =
  Some (Raise GenericException,
        ReadGroupInterface.mk ["A"%string] [] 1 (qz 0) None None (Some (qz 2)),
        ReadGroupInterface.mkworld 3 1).
Proof.
  apply (read_timeout_keeps_cache (fun k => qz (Z.of_nat k)) (fun _ => None)
           (ReadGroupInterface.mk ["A"%string] [] 1 (qz 0) None None
              (Some (qz 2))) (qz 2) 1%nat ReadGroupInterface.world0 5%nat).
  - reflexivity.
  - intros j Hj. assert (j = O) by lia. subst j. split; reflexivity.
  - vm_compute. intros H. discriminate.
  - lia.
Defined.

Lemma read_cached_monitors_empty_cache_witness :
  ReadGroupInterface.read_cached_monitors
    (ReadGroupInterface.mk ["A"%string] [] 1 (qz 0) None None None) =
  Raise ValueError.
Proof.
  apply (proj1 (proj2 read_cached_monitors_empty_cache)
           1 (qz 0) (Some ["A"%string]) (Some []) None None).
  reflexivity.
Defined.

(** ** Paths of positions *)

Section Paths.
Context {Y : Type}.
Variable R : Y -> Y -> Prop.

Lemma path_nil x : path R x [] x.
Proof. split; [intros k a b Ha Hb; discriminate | reflexivity]. Qed.

Lemma path_cons x y l z : R x y -> path R y l z -> path R x (y :: l) z.
Proof.
  intros Hxy [Hl Hz]. split.
  - intros [| k] a b Ha Hb; simpl in *.
    + inversion Ha; inversion Hb; subst. exact Hxy.
    + apply (Hl k a b); assumption.
  - rewrite last_cons, Hz. reflexivity.
Qed.

Lemma path_app x l1 y l2 z :
  path R x l1 y -> path R y l2 z -> path R x (l1 ++ l2) z.
Proof.
  revert x. induction l1 as [| a l1 IH]; intros x [H1 Hy] H2.
  - simpl in Hy. inversion Hy; subst. exact H2.
  - simpl. apply path_cons.
    + apply (H1 O x a); reflexivity.
    + apply IH; [| exact H2]. split.
      * intros k b c Hb Hc. apply (H1 (S k) b c); assumption.
      * rewrite last_cons in Hy.
        destruct (last (a :: l1)) eqn:El; [exact Hy |].
        rewrite last_cons in El. destruct (last l1); discriminate.
Qed.

(** A loop whose every iteration extends the path by [m] vectors. *)
Lemma for_loop_path {A : Type} (Inv : A -> Prop) (cur : A -> Y)
    (body : Z -> A -> gen Y A) (m n : nat) : forall i0 a,
  Inv a ->
  (forall i a, Inv a ->
     exists ys a', body i a = (ys, Ok a') /\ Inv a' /\ length ys = m /\
                   path R (cur a) ys (cur a')) ->
  exists ys a', for_loop n i0 body a = (ys, Ok a') /\ Inv a' /\
                length ys = (n * m)%nat /\ path R (cur a) ys (cur a').
Proof.
  induction n as [| n IH]; intros i0 a Ha Hbody.
  - exists [], a. split; [reflexivity |]. split; [assumption |].
    split; [reflexivity | apply path_nil].
  - destruct (Hbody i0 a Ha) as (ys & a1 & E1 & H1 & Hl1 & Hp1).
    destruct (IH (i0 + 1) a1 H1 Hbody) as (zs & a2 & E2 & H2 & Hl2 & Hp2).
    exists (ys ++ zs), a2. split; [| split; [| split]].
    + rewrite for_loop_S. eapply gbind_ok; eassumption.
    + assumption.
    + rewrite length_app. lia.
    + eapply path_app; eassumption.
Qed.

End Paths.

(** A loop whose every iteration yields [m] values. *)
Lemma for_loop_count {Y A : Type} (Inv : A -> Prop) (body : Z -> A -> gen Y A)
    (m n : nat) : forall i0 a,
  Inv a ->
  (forall i a, Inv a ->
     exists ys a', body i a = (ys, Ok a') /\ Inv a' /\ length ys = m) ->
  exists ys a', for_loop n i0 body a = (ys, Ok a') /\ Inv a' /\
                length ys = (n * m)%nat.
Proof.
  induction n as [| n IH]; intros i0 a Ha Hbody.
  - exists [], a. repeat split. assumption.
  - destruct (Hbody i0 a Ha) as (ys & a1 & E1 & H1 & Hl1).
    destruct (IH (i0 + 1) a1 H1 Hbody) as (zs & a2 & E2 & H2 & Hl2).
    exists (ys ++ zs), a2. split; [| split].
    + rewrite for_loop_S. eapply gbind_ok; eassumption.
    + assumption.
    + rewrite length_app. lia.
Qed.

(** ** The line scan *)

Lemma advance_length sizes : forall current next,
  LinearPositioner.advance current sizes = Ok next ->
  length next = (length current `min` length sizes)%nat.
Proof.
  unfold LinearPositioner.advance.
  induction sizes as [| s sizes IH]; intros current next H.
  - destruct current; simpl in H; inversion H; reflexivity.
  - destruct current as [| p current]; simpl in H;
      [inversion H; reflexivity |].
    destruct (py_add p s) as [v |]; simpl in H; [| discriminate].
    destruct (mapM _ (zip current sizes)) as [vs |] eqn:E; simpl in H;
      [| discriminate].
    inversion H; subst. simpl. rewrite (IH current vs E). reflexivity.
Qed.

(** On an object whose number of steps and numeric step sizes are set, the
    line scan yields [passes] times the same pass: [start], then [n_steps]
    vectors, each obtained from the one before it by adding the step sizes.
    The vectors after [start] have as many coordinates as there are both
    start values and step sizes: fewer than [start] when [steps] was shorter
    than [start]. *)
Theorem linear_sequence (self : LinearPositioner.t) n sizes :
  LinearPositioner.n_steps self = Some n ->
  LinearPositioner.step_size self = Some sizes ->
  Forall (fun s => is_number s = true) sizes ->
  exists ys z,
    LinearPositioner.get_generator self =
      (concat (replicate (Z.to_nat (LinearPositioner.passes self))
                 (LinearPositioner.start self :: ys)), Ok tt) /\
    length ys = Z.to_nat n /\
    path (fun a b => LinearPositioner.advance a sizes = Ok b)
         (LinearPositioner.start self) ys z /\
    Forall (fun y => length y =
                     (length (LinearPositioner.start self)
                        `min` length sizes)%nat) ys.
Proof.
  intros Hn Hsz Hnum.
  destruct (for_loop_path (fun a b => LinearPositioner.advance a sizes = Ok b)
              (fun _ : vec => True) (fun a => a)
              (fun _ current_positions =>
                 let* sizes := lift (getattr (LinearPositioner.step_size self)) in
                 let* current_positions :=
                   lift (LinearPositioner.advance current_positions sizes) in
                 do yield current_positions in
                 gret current_positions)
              1 (Z.to_nat n) 0 (LinearPositioner.start self) I)
    as (ys & z & E & _ & Hl & Hp).
  { intros i a _. destruct (linear_advance_total sizes a Hnum) as [v Hv].
    exists [v], v. split; [| split; [exact I | split; [reflexivity |]]].
    - rewrite Hsz. cbn [getattr]. rewrite gbind_lift_ok, Hv, gbind_lift_ok.
      reflexivity.
    - apply path_cons; [exact Hv | apply path_nil]. }
  exists ys, z. split; [| split; [lia | split; [exact Hp |]]].
  - unfold LinearPositioner.get_generator, for_range.
    apply for_loop_const. intros i u. cbn zeta.
    apply gbind_yield. rewrite Hn. cbn [getattr]. rewrite gbind_lift_ok.
    rewrite <- (app_nil_r ys).
    eapply gbind_ok; [exact E | reflexivity].
  - destruct Hp as [Hstep _]. apply Forall_lookup. intros k.
    induction k as [| k IH]; intros y Hy.
    + rewrite (advance_length _ _ _ (Hstep O _ y eq_refl Hy)). reflexivity.
    + destruct (lookup_lt_is_Some_2 ys k) as [x Hx];
        [apply lookup_lt_Some in Hy; lia |].
      rewrite (advance_length _ _ _ (Hstep (S k) x y Hx Hy)).
      rewrite (IH x Hx). lia.
Qed.

Lemma linear_sequence_witness :
  exists ys,
    LinearPositioner.get_generator
      (LinearPositioner.mk None 2 [qz 10; qz 10] [qz 0; qz 0] (Some 5)
         (Some [PyInt 2])) =
    (concat (replicate 2 ([qz 0; qz 0] :: ys)), Ok tt) /\
    length ys = 5%nat /\
    Forall (fun y => length y = 1%nat) ys.
Proof.
  destruct (linear_sequence
              (LinearPositioner.mk None 2 [qz 10; qz 10] [qz 0; qz 0] (Some 5)
                 (Some [PyInt 2])) 5 [PyInt 2] eq_refl eq_refl
              ltac:(repeat constructor))
    as (ys & z & E & Hl & _ & Hlen).
  exists ys. split; [exact E |]. split; [exact Hl | exact Hlen].
Defined.

(** ** The grid of the area scans *)

Section Grid.
Import AreaPositioner.

Lemma axis_steps_counts self counts sizes axis n :
  well_formed self counts sizes -> counts !! axis = Some n ->
  axis_steps self axis = Ok n.
Proof.
  intros (Hc & _) Hn. unfold axis_steps, getitem. rewrite Hc. simpl.
  rewrite list_lookup_fmap, Hn. reflexivity.
Qed.

Lemma grid_size_drop counts axis n :
  counts !! axis = Some n ->
  grid_size (drop axis counts) =
  (S (Z.to_nat n) * grid_size (drop (S axis) counts))%nat.
Proof.
  intros Hn. rewrite (drop_S _ _ _ Hn). reflexivity.
Qed.

(** [scan_axis(axis)] on a well-formed object: it yields the grid of the
    axes from [axis] on but for its first point, and returns with these
    axes back at their start values, the axes before them untouched. *)
Lemma area_scan_shape self counts sizes :
  well_formed self counts sizes ->
  forall remaining axis positions,
  (axis + remaining = n_axis self)%nat ->
  length positions = n_axis self ->
  exists ys,
    scan_axis self remaining axis positions =
      (ys, Ok (take axis positions ++ drop axis (start self))) /\
    S (length ys) = grid_size (drop axis counts).
Proof.
  intros Hwf. induction remaining as [| remaining IH];
    intros axis positions Hax Hlp.
  - exists []. assert (Hwf' := Hwf).
    destruct Hwf' as (_ & _ & _ & Hlc & _ & Hlst).
    rewrite Nat.add_0_r in Hax. subst axis.
    rewrite (take_ge positions) by lia.
    rewrite (drop_ge (start self)) by lia.
    rewrite (drop_ge counts) by lia.
    rewrite app_nil_r. split; reflexivity.
  - destruct (IH (axis + 1)%nat positions ltac:(lia) Hlp) as (ys1 & E1 & Hc1).
    assert (Hwf' := Hwf).
    destruct Hwf' as (Hc & Hs & Hnum & Hlc & Hls & Hlst).
    destruct (lookup_lt_is_Some_2 counts axis) as [n Hn]; [lia |].
    assert (En := axis_steps_counts self counts sizes axis n Hwf Hn).
    replace (axis + 1)%nat with (S axis) in * by lia.
    set (p0 := take (S axis) positions ++ drop (S axis) (start self)) in *.
    assert (Hlp0 : length p0 = n_axis self).
    { unfold p0. rewrite length_app, length_take, length_drop. lia. }
    destruct (for_loop_count
                (fun p : vec => length p = n_axis self /\
                                take axis p = take axis positions /\
                                drop (S axis) p = drop (S axis) (start self))
                (fun _ positions =>
                   let* p := lift (getitem positions axis) in
                   let* sizes := lift (getattr (step_size self)) in
                   let* s := lift (getitem sizes axis) in
                   let* v := lift (py_add p s) in
                   let* positions := lift (setitem positions axis v) in
                   do yield positions in
                   scan_axis self remaining (S axis) positions)
                (grid_size (drop (S axis) counts)) (Z.to_nat n) 0 p0)
      as (ys2 & p2 & E2 & (Hl2 & Ht2 & Hd2) & Hc2).
    { split; [exact Hlp0 |]. unfold p0. split.
      - rewrite take_app_le by (rewrite length_take; lia).
        rewrite take_take. f_equal. lia.
      - rewrite drop_app_length' by (rewrite length_take; lia). reflexivity. }
    { intros i a (Hla & Hta & Hda).
      destruct (lookup_lt_is_Some_2 a axis) as [p Hp]; [lia |].
      destruct (lookup_lt_is_Some_2 sizes axis) as [s Hsz]; [lia |].
      assert (Hs_num : is_number s = true).
      { rewrite Forall_lookup in Hnum. eapply Hnum; eassumption. }
      assert (exists v, py_add p s = Ok v) as [v Eadd].
      { destruct s; try discriminate; simpl; eauto. }
      destruct (IH (S axis) (<[axis := v]> a) ltac:(lia))
        as (zs & E & Hcz); [rewrite length_insert; assumption |].
      eexists (<[axis := v]> a :: zs), _. split; [| split; [| simpl; lia]].
      - unfold getitem, setitem. rewrite Hp, gbind_lift_ok, Hs.
        cbn [getattr]. rewrite gbind_lift_ok, Hsz, gbind_lift_ok.
        rewrite Eadd, gbind_lift_ok.
        rewrite decide_True by lia. rewrite gbind_lift_ok.
        apply gbind_yield. exact E.
      - split; [| split].
        + rewrite length_app, length_take, length_drop, length_insert. lia.
        + rewrite take_app_le by (rewrite length_take, length_insert; lia).
          rewrite take_take, Nat.min_l by lia.
          rewrite take_insert, decide_False by lia. exact Hta.
        + rewrite drop_app_length'
            by (rewrite length_take, length_insert; lia).
          reflexivity. }
    destruct (lookup_lt_is_Some_2 (start self) axis) as [s0 Hs0]; [lia |].
    exists (ys1 ++ ys2 ++ []). split.
    + cbn [scan_axis]. replace (axis + 1)%nat with (S axis) by lia.
      eapply gbind_ok; [exact E1 |].
      rewrite En, gbind_lift_ok.
      unfold for_range. eapply gbind_ok; [exact E2 |].
      unfold getitem, setitem. rewrite Hs0, gbind_lift_ok.
      rewrite decide_True by lia. unfold lift. do 2 f_equal.
      rewrite insert_take_drop by lia.
      rewrite Ht2, Hd2, (drop_S _ _ _ Hs0). reflexivity.
    + rewrite (grid_size_drop counts axis n Hn).
      rewrite app_nil_r, length_app, Hc2. lia.
Qed.

(** A pass of the area scan yields one vector per grid point: the product
    of [n_steps[axis] + 1] over the axes (a count that is not positive
    counts as [0] steps); all passes are the same and begin with [start]. *)
Theorem area_pass_is_grid self counts sizes :
  well_formed self counts sizes ->
  exists ys,
    AreaPositioner.get_generator self =
      (concat (replicate (Z.to_nat (passes self)) (start self :: ys)), Ok tt) /\
    length (start self :: ys) = grid_size counts.
Proof.
  intros Hwf.
  destruct (area_scan_shape self counts sizes Hwf (n_axis self) O (start self))
    as (ys & E & Hc); [reflexivity | apply Hwf |].
  exists ys. split; [| exact Hc].
  unfold AreaPositioner.get_generator, for_range.
  apply for_loop_const. intros i u. cbn zeta.
  apply gbind_yield. rewrite <- (app_nil_r ys).
  eapply gbind_ok; [exact E | reflexivity].
Qed.

(** On a well-formed object, when [scan_axis(axis)] returns, the axes from
    [axis] on are back at their start values and the axes before [axis]
    are as they were at the call. *)
Theorem area_scan_restores self counts sizes remaining axis positions :
  well_formed self counts sizes ->
  (axis + remaining = n_axis self)%nat ->
  length positions = n_axis self ->
  exists ys,
    scan_axis self remaining axis positions =
    (ys, Ok (take axis positions ++ drop axis (start self))).
Proof.
  intros Hwf Hax Hlp.
  destruct (area_scan_shape self counts sizes Hwf remaining axis positions
              Hax Hlp) as (ys & E & _).
  exists ys. exact E.
Qed.

End Grid.

Lemma area_pass_is_grid_witness :
  exists ys,
    AreaPositioner.get_generator
      (AreaPositioner.mk None 2 [qz 1; qz 2] [qz 0; qz 0] 2
         (Some [PyInt 1; PyInt 2]) (Some [PyFloat (qz 1); PyFloat (qz 1)])) =
    (concat (replicate 2 ([qz 0; qz 0] :: ys)), Ok tt) /\
    length ([qz 0; qz 0] :: ys) = 6%nat.
Proof.
  apply (area_pass_is_grid
           (AreaPositioner.mk None 2 [qz 1; qz 2] [qz 0; qz 0] 2
              (Some [PyInt 1; PyInt 2])
              (Some [PyFloat (qz 1); PyFloat (qz 1)]))
           [1; 2] [PyFloat (qz 1); PyFloat (qz 1)]).
  repeat split; repeat constructor.
Defined.

Lemma area_scan_restores_witness :
  exists ys,
    AreaPositioner.scan_axis
      (AreaPositioner.mk None 2 [qz 1; qz 2] [qz 0; qz 0] 2
         (Some [PyInt 1; PyInt 2]) (Some [PyFloat (qz 1); PyFloat (qz 1)]))
      1 1 [qz 1; qz 2] = (ys, Ok [qz 1; qz 0]).
Proof.
  apply (area_scan_restores
           (AreaPositioner.mk None 2 [qz 1; qz 2] [qz 0; qz 0] 2
              (Some [PyInt 1; PyInt 2])
              (Some [PyFloat (qz 1); PyFloat (qz 1)]))
           [1; 2] [PyFloat (qz 1); PyFloat (qz 1)] 1 1 [qz 1; qz 2]).
  - repeat split; repeat constructor.
  - reflexivity.
  - reflexivity.
Defined.

(** ** The grid of the zigzag area scan *)

Section ZigZagGrid.
Import AreaPositioner ZigZagAreaPositioner.

Lemma py_mul_add_total p s d :
  is_number s = true -> exists sd v, py_mul_int s d = Ok sd /\ py_add p sd = Ok v.
Proof.
  destruct s; try discriminate; intros _; simpl; eauto.
Qed.

Lemma zigzag_scan_shape self counts sizes :
  well_formed self counts sizes ->
  forall remaining axis fr,
  (axis + remaining = n_axis self)%nat ->
  frame_ok self fr ->
  exists ys fr',
    ZigZagAreaPositioner.scan_axis self remaining axis fr = (ys, Ok fr') /\
    frame_ok self fr' /\
    S (length ys) = grid_size (drop axis counts) /\
    path (one_axis_step sizes) (positions fr) ys (positions fr').
Proof.
  intros Hwf. induction remaining as [| remaining IH];
    intros axis fr Hax Hfr.
  - exists [], fr. assert (Hwf' := Hwf).
    destruct Hwf' as (_ & _ & _ & Hlc & _ & _).
    rewrite (drop_ge counts) by lia.
    split; [reflexivity |]. split; [assumption |].
    split; [reflexivity | apply path_nil].
  - destruct (IH (axis + 1)%nat fr ltac:(lia) Hfr)
      as (ys1 & fr1 & E1 & Hfr1 & Hc1 & Hp1).
    assert (Hwf' := Hwf).
    destruct Hwf' as (Hc & Hs & Hnum & Hlc & Hls & Hlst).
    destruct (lookup_lt_is_Some_2 counts axis) as [n Hn]; [lia |].
    assert (En := axis_steps_counts self counts sizes axis n Hwf Hn).
    replace (axis + 1)%nat with (S axis) in * by lia.
    destruct (for_loop_path (one_axis_step sizes) (frame_ok self) positions
                (fun _ fr =>
                   let* p := lift (getitem (positions fr) axis) in
                   let* sizes := lift (getattr (step_size self)) in
                   let* s := lift (getitem sizes axis) in
                   let* d := lift (getitem (directions fr) axis) in
                   let* sd := lift (py_mul_int s d) in
                   let* v := lift (py_add p sd) in
                   let* positions' :=
                     lift (setitem (positions fr) axis v) in
                   let fr := mkframe (directions fr) positions' in
                   do yield (positions fr) in
                   ZigZagAreaPositioner.scan_axis self remaining (S axis) fr)
                (grid_size (drop (S axis) counts)) (Z.to_nat n) 0 fr1 Hfr1)
      as (ys2 & fr2 & E2 & Hfr2 & Hc2 & Hp2).
    { intros i a (Hla & Hld & Hdir).
      destruct (lookup_lt_is_Some_2 (positions a) axis) as [p Hp]; [lia |].
      destruct (lookup_lt_is_Some_2 sizes axis) as [s Hsz]; [lia |].
      destruct (lookup_lt_is_Some_2 (directions a) axis) as [d Hd]; [lia |].
      assert (Hs_num : is_number s = true).
      { rewrite Forall_lookup in Hnum. eapply Hnum; eassumption. }
      assert (Hd1 : d = 1 \/ d = -1).
      { rewrite Forall_lookup in Hdir. eapply Hdir; eassumption. }
      destruct (py_mul_add_total p s d Hs_num) as (sd & v & Emul & Eadd).
      destruct (IH (S axis) (mkframe (directions a) (<[axis := v]> (positions a)))
                  ltac:(lia))
        as (zs & a' & E & Ha' & Hcz & Hpz).
      { split; [| split]; cbn [positions directions];
          [rewrite length_insert |..]; assumption. }
      exists (<[axis := v]> (positions a) :: zs), a'.
      split; [| split; [assumption | split; [simpl; lia |]]].
      - unfold getitem, setitem. rewrite Hp, gbind_lift_ok, Hs.
        cbn [getattr]. rewrite gbind_lift_ok, Hsz, gbind_lift_ok.
        rewrite Hd, gbind_lift_ok, Emul, gbind_lift_ok, Eadd, gbind_lift_ok.
        rewrite decide_True by lia. rewrite gbind_lift_ok.
        cbn zeta. cbn [positions]. apply gbind_yield. exact E.
      - apply path_cons; [| exact Hpz].
        exists axis, p, s, d, sd, v. repeat split; assumption. }
    destruct Hfr2 as (Hl2 & Hld2 & Hdir2).
    destruct (lookup_lt_is_Some_2 (directions fr2) axis) as [d2 Hd2]; [lia |].
    exists (ys1 ++ ys2 ++ []),
      (mkframe (<[axis := d2 * -1]> (directions fr2)) (positions fr2)).
    split; [| split; [| split]].
    + rewrite scan_axis_S. replace (axis + 1)%nat with (S axis) by lia.
      eapply gbind_ok; [exact E1 |].
      rewrite En, gbind_lift_ok.
      unfold for_range. eapply gbind_ok; [exact E2 |].
      unfold getitem, setitem. rewrite Hd2, gbind_lift_ok.
      rewrite decide_True by lia. rewrite gbind_lift_ok. reflexivity.
    + split; [| split]; cbn [positions directions].
      * assumption.
      * rewrite length_insert. assumption.
      * apply Forall_insert; [assumption |].
        rewrite Forall_lookup in Hdir2.
        destruct (Hdir2 axis d2 Hd2) as [-> | ->]; [right | left]; reflexivity.
    + rewrite (grid_size_drop counts axis n Hn).
      rewrite app_nil_r, length_app, Hc2. lia.
    + cbn [positions]. rewrite app_nil_r.
      eapply path_app; eassumption.
Qed.

(** A pass of the zigzag area scan yields one vector per grid point, and
    within a pass each vector is the one before it with a single axis
    moved by that axis' step size, forwards or backwards; all passes are
    the same and begin with [start]. *)
Theorem zigzag_area_single_steps self counts sizes :
  well_formed self counts sizes ->
  exists ys z,
    ZigZagAreaPositioner.get_generator self =
      (concat (replicate (Z.to_nat (passes self)) (start self :: ys)), Ok tt) /\
    length (start self :: ys) = grid_size counts /\
    path (one_axis_step sizes) (start self) ys z.
Proof.
  intros Hwf.
  destruct (zigzag_scan_shape self counts sizes Hwf (n_axis self) O
              (mkframe (replicate (n_axis self) 1) (start self)))
    as (ys & fr' & E & _ & Hc & Hp).
  - reflexivity.
  - split; [apply Hwf |]. split; [apply length_replicate |].
    cbn [directions]. apply Forall_replicate. left. reflexivity.
  - exists ys, (positions fr'). split; [| split; [exact Hc | exact Hp]].
    unfold ZigZagAreaPositioner.get_generator, get_generator_frames, for_range.
    assert (Epass : scan_pass self =
              (start self :: ys,
               Ok (mkframe (replicate (n_axis self) 1) (start self), fr'))).
    { unfold scan_pass. cbn zeta. apply gbind_yield.
      rewrite <- (app_nil_r ys). eapply gbind_ok; [exact E | reflexivity]. }
    rewrite (pass_loop self _ _ _ _ _ Epass).
    unfold gbind, gret. rewrite app_nil_r. reflexivity.
Qed.

End ZigZagGrid.

Lemma zigzag_area_single_steps_witness :
  exists ys,
    ZigZagAreaPositioner.get_generator
      (AreaPositioner.mk None 2 [qz 1; qz 2] [qz 0; qz 0] 2
         (Some [PyInt 1; PyInt 2]) (Some [PyFloat (qz 1); PyFloat (qz 1)])) =
    (concat (replicate 2 ([qz 0; qz 0] :: ys)), Ok tt) /\
    length ([qz 0; qz 0] :: ys) = 6%nat.
Proof.
  destruct (zigzag_area_single_steps
              (AreaPositioner.mk None 2 [qz 1; qz 2] [qz 0; qz 0] 2
                 (Some [PyInt 1; PyInt 2])
                 (Some [PyFloat (qz 1); PyFloat (qz 1)]))
              [1; 2] [PyFloat (qz 1); PyFloat (qz 1)])
    as (ys & z & E & Hc & _).
  - repeat split; repeat constructor.
  - exists ys. split; [exact E | exact Hc].
Defined.

(** ** The line scan from [__init__] to its last point *)

Section LinearClosedForm.
Import LinearPositioner.










End LinearClosedForm.


(** ** The vector scan *)

Lemma lookup_concat_replicate {A : Type} (l : list A) m : forall k,
  (k < m * length l)%nat ->
  concat (replicate m l) !! k = l !! (k mod length l)%nat.
Proof.
  induction m as [| m IH]; intros k Hk; [lia |].
  cbn [replicate concat].
  destruct (decide (k < length l)%nat) as [Hlt | Hge].
  - rewrite lookup_app_l by assumption.
    rewrite Nat.mod_small by assumption. reflexivity.
  - rewrite lookup_app_r by lia. rewrite IH by lia.
    replace k with ((k - length l) + 1 * length l)%nat at 2 by lia.
    rewrite Nat.Div0.mod_add. reflexivity.
Qed.

(** The vector scan always ends normally; it yields
    [passes * len(positions)] vectors (none when [passes] is not
    positive), the [k]-th being [positions[k % len(positions)]]. *)
Theorem vector_sequence (self : VectorPositioner.t) :
  exists ys,
    VectorPositioner.get_generator self = (ys, Ok tt) /\
    length ys = (Z.to_nat (VectorPositioner.passes self) *
                 length (VectorPositioner.positions self))%nat /\
    forall k, (k < length ys)%nat ->
      ys !! k = VectorPositioner.positions self
                  !! (k mod length (VectorPositioner.positions self))%nat.
Proof.
  exists (concat (replicate (Z.to_nat (VectorPositioner.passes self))
                    (VectorPositioner.positions self))).
  assert (Hlen : forall m (l : list vec),
            length (concat (replicate m l)) = (m * length l)%nat).
  { intros m l. induction m as [| m IH]; [reflexivity |].
    cbn [replicate concat]. rewrite length_app, IH. lia. }
  split; [| split].
  - unfold VectorPositioner.get_generator, for_range.
    apply for_loop_const. intros i u.
    induction (VectorPositioner.positions self) as [| x xs IH];
      [reflexivity |].
    cbn [VectorPositioner.yield_each]. apply gbind_yield. exact IH.
  - apply Hlen.
  - intros k Hk. rewrite Hlen in Hk. apply lookup_concat_replicate. exact Hk.
Qed.

(** ** Errors of [__init__] and what they leave to the generator *)

(** The division of [__init__] over integer step counts whose first zero
    is at an index inside [start] and [end]. *)
Lemma step_sizes_zero : forall (counts : list Z) (starts ends : vec) i,
  counts !! i = Some 0 ->
  (i < length starts)%nat -> (i < length ends)%nat ->
  mapM (fun '(s, e, st) => py_div (e - s)%Qc st)
       (zip3 starts ends (map PyInt counts)) = Raise ZeroDivisionError.
Proof.
  unfold zip3.
  induction counts as [| c counts IH]; intros starts ends i Hi Hs He;
    [discriminate |].
  destruct starts as [| s starts]; [simpl in Hs; lia |].
  destruct ends as [| e ends]; [simpl in He; lia |].
  cbn [map zip zip_with mapM py_div].
  destruct (decide (c = 0)) as [-> | Hc]; [reflexivity |].
  cbn [rbind]. destruct i as [| i]; [inversion Hi; congruence |].
  rewrite (IH starts ends i Hi); [reflexivity | simpl in Hs; lia
                                 | simpl in He; lia].
Qed.

(** Both [__init__] methods, given integer step counts: an empty list of
    steps raises [IndexError], and a count of zero on an axis inside
    [start] and [end] raises [ZeroDivisionError]; no object is built. *)
Theorem init_bad_counts_raise (start0 end0 : vec) (counts : list Z)
    (passes0 : Z) (i : nat) :
  (counts = [] ->
     LinearPositioner.init start0 end0 (map PyInt counts) passes0 None =
       Raise IndexError /\
     AreaPositioner.init start0 end0 (map PyInt counts) passes0 None =
       Raise IndexError) /\
  (counts !! i = Some 0 ->
   (i < length start0)%nat -> (i < length end0)%nat ->
     LinearPositioner.init start0 end0 (map PyInt counts) passes0 None =
       Raise ZeroDivisionError /\
     AreaPositioner.init start0 end0 (map PyInt counts) passes0 None =
       Raise ZeroDivisionError).
Proof.
  split.
  - intros ->. split; reflexivity.
  - intros Hi Hs He.
    assert (E := step_sizes_zero counts start0 end0 i Hi Hs He).
    destruct counts as [| c counts]; [discriminate |].
    unfold LinearPositioner.init, AreaPositioner.init.
    cbn [add_offsets map getitem lookup list_lookup rbind].
    cbn [map] in E. rewrite E. split; reflexivity.
Qed.

Lemma init_bad_counts_raise_witness :
  LinearPositioner.init [qz 0; qz 0] [qz 1; qz 1] [PyInt 2; PyInt 0] 1 None =
    Raise ZeroDivisionError /\
  AreaPositioner.init [qz 0; qz 0] [qz 1; qz 1] [PyInt 2; PyInt 0] 1 None =
    Raise ZeroDivisionError.
Proof.
  apply (proj2 (init_bad_counts_raise [qz 0; qz 0] [qz 1; qz 1] [2; 0] 1 1)).
  - reflexivity.
  - simpl. lia.
  - simpl. lia.
Defined.

(** ** Offsets shorter than [start] *)

Section ShortOffsets.
Import AreaPositioner.



End ShortOffsets.


(** ** The grid of the multi-area scan *)

Section MultiGrid.
Import MultiAreaPositioner.

Lemma multi_axis_steps self lines firsts axis n :
  n_steps self = Some lines ->
  Forall2 (fun line k => exists rest, line = PyInt k :: rest) lines firsts ->
  firsts !! axis = Some n ->
  axis_steps self axis = Ok n.
Proof.
  intros Hc Hf Hn. unfold axis_steps. rewrite Hc. cbn [getattr rbind].
  destruct (Forall2_lookup_r _ _ _ _ _ Hf Hn) as (line & Hline & rest & ->).
  unfold getitem. rewrite Hline. reflexivity.
Qed.

(** [scan_axis(axis)] of the multi-area scan on a well-formed object whose
    lines of step counts begin with the integers [firsts]. *)
Lemma multi_scan_shape self sizes lines firsts :
  well_formed self sizes ->
  n_steps self = Some lines ->
  Forall2 (fun line k => exists rest, line = PyInt k :: rest) lines firsts ->
  length firsts = n_axis self ->
  forall remaining axis positions,
  (axis + remaining = n_axis self)%nat ->
  length positions = n_axis self ->
  exists ys,
    scan_axis self remaining axis positions =
      (ys, Ok (take axis positions ++ drop axis (start self))) /\
    S (length ys) = grid_size (drop axis firsts).
Proof.
  intros Hwf Hc Hf Hlf. induction remaining as [| remaining IH];
    intros axis positions Hax Hlp.
  - exists []. destruct Hwf as (_ & _ & _ & _ & Hlst).
    rewrite (take_ge positions) by lia.
    rewrite (drop_ge (start self)) by lia.
    rewrite (drop_ge firsts) by lia.
    rewrite app_nil_r. split; reflexivity.
  - destruct (IH (axis + 1)%nat positions ltac:(lia) Hlp) as (ys1 & E1 & Hc1).
    destruct Hwf as (_ & Hs & Hnum & Hls & Hlst).
    destruct (lookup_lt_is_Some_2 firsts axis) as [n Hn]; [lia |].
    assert (En := multi_axis_steps self lines firsts axis n Hc Hf Hn).
    replace (axis + 1)%nat with (S axis) in * by lia.
    set (p0 := take (S axis) positions ++ drop (S axis) (start self)) in *.
    assert (Hlp0 : length p0 = n_axis self).
    { unfold p0. rewrite length_app, length_take, length_drop. lia. }
    destruct (for_loop_count
                (fun p : list vec => length p = n_axis self /\
                                take axis p = take axis positions /\
                                drop (S axis) p = drop (S axis) (start self))
                (fun _ positions =>
                   let* line := lift (getitem positions axis) in
                   let* sizes := lift (getattr (step_size self)) in
                   let* line_sizes := lift (getitem sizes axis) in
                   let* line' :=
                     lift (LinearPositioner.advance line line_sizes) in
                   let* positions := lift (setitem positions axis line') in
                   do yield positions in
                   scan_axis self remaining (S axis) positions)
                (grid_size (drop (S axis) firsts)) (Z.to_nat n) 0 p0)
      as (ys2 & p2 & E2 & (Hl2 & Ht2 & Hd2) & Hc2).
    { split; [exact Hlp0 |]. unfold p0. split.
      - rewrite take_app_le by (rewrite length_take; lia).
        rewrite take_take. f_equal. lia.
      - rewrite drop_app_length' by (rewrite length_take; lia). reflexivity. }
    { intros i a (Hla & Hta & Hda).
      destruct (lookup_lt_is_Some_2 a axis) as [line Hp]; [lia |].
      destruct (lookup_lt_is_Some_2 sizes axis) as [ls Hsz]; [lia |].
      assert (Hs_num : Forall (fun s => is_number s = true) ls).
      { rewrite Forall_lookup in Hnum. eapply Hnum; eassumption. }
      destruct (linear_advance_total ls line Hs_num) as [v Eadd].
      destruct (IH (S axis) (<[axis := v]> a) ltac:(lia))
        as (zs & E & Hcz); [rewrite length_insert; assumption |].
      eexists (<[axis := v]> a :: zs), _. split; [| split; [| simpl; lia]].
      - unfold getitem, setitem. rewrite Hp, gbind_lift_ok, Hs.
        cbn [getattr]. rewrite gbind_lift_ok, Hsz, gbind_lift_ok.
        rewrite Eadd, gbind_lift_ok.
        rewrite decide_True by lia. rewrite gbind_lift_ok.
        apply gbind_yield. exact E.
      - split; [| split].
        + rewrite length_app, length_take, length_drop, length_insert. lia.
        + rewrite take_app_le by (rewrite length_take, length_insert; lia).
          rewrite take_take, Nat.min_l by lia.
          rewrite take_insert, decide_False by lia. exact Hta.
        + rewrite drop_app_length'
            by (rewrite length_take, length_insert; lia).
          reflexivity. }
    destruct (lookup_lt_is_Some_2 (start self) axis) as [s0 Hs0]; [lia |].
    exists (ys1 ++ ys2 ++ []). split.
    + cbn [scan_axis]. replace (axis + 1)%nat with (S axis) by lia.
      eapply gbind_ok; [exact E1 |].
      rewrite En, gbind_lift_ok.
      unfold for_range. eapply gbind_ok; [exact E2 |].
      unfold getitem, setitem. rewrite Hs0, gbind_lift_ok.
      rewrite decide_True by lia. unfold lift. do 2 f_equal.
      rewrite insert_take_drop by lia.
      rewrite Ht2, Hd2, (drop_S _ _ _ Hs0). reflexivity.
    + rewrite (grid_size_drop firsts axis n Hn).
      rewrite app_nil_r, length_app, Hc2. lia.
Qed.

(** A pass of the multi-area scan yields one list of lines per point of
    the grid spanned by the first step count of each axis: of the counts
    in [n_steps[axis]] only [n_steps[axis][0]] is used. *)
Theorem multi_pass_is_grid self sizes lines firsts :
  well_formed self sizes ->
  n_steps self = Some lines ->
  Forall2 (fun line k => exists rest, line = PyInt k :: rest) lines firsts ->
  length firsts = n_axis self ->
  exists ys,
    MultiAreaPositioner.get_generator self =
      (concat (replicate (Z.to_nat (passes self)) (start self :: ys)), Ok tt) /\
    length (start self :: ys) = grid_size firsts.
Proof.
  intros Hwf Hc Hf Hlf.
  destruct (multi_scan_shape self sizes lines firsts Hwf Hc Hf Hlf
              (n_axis self) O (start self))
    as (ys & E & Hcount); [reflexivity | apply Hwf |].
  exists ys. split; [| exact Hcount].
  unfold MultiAreaPositioner.get_generator, for_range.
  apply for_loop_const. intros i u. cbn zeta.
  apply gbind_yield. rewrite <- (app_nil_r ys).
  eapply gbind_ok; [exact E | reflexivity].
Qed.

End MultiGrid.

Lemma multi_pass_is_grid_witness :
  exists ys,
    MultiAreaPositioner.get_generator
      (MultiAreaPositioner.mk None 2 [[qz 2; qz 2]; [qz 3]]
         [[qz 0; qz 0]; [qz 0]] 2
         (Some [[PyInt 2; PyInt 7]; [PyInt 1]])
         (Some [[PyFloat (qz 1); PyFloat (qz 1)]; [PyFloat (qz 3)]])) =
    (concat (replicate 2 ([[qz 0; qz 0]; [qz 0]] :: ys)), Ok tt) /\
    length ([[qz 0; qz 0]; [qz 0]] :: ys) = 6%nat.
Proof.
  apply (multi_pass_is_grid
           (MultiAreaPositioner.mk None 2 [[qz 2; qz 2]; [qz 3]]
              [[qz 0; qz 0]; [qz 0]] 2
              (Some [[PyInt 2; PyInt 7]; [PyInt 1]])
              (Some [[PyFloat (qz 1); PyFloat (qz 1)]; [PyFloat (qz 3)]]))
           [[PyFloat (qz 1); PyFloat (qz 1)]; [PyFloat (qz 3)]]
           [[PyInt 2; PyInt 7]; [PyInt 1]] [2; 1]).
  - split; [| repeat split; repeat constructor].
    eexists. split; [reflexivity |].
    intros [| [| axis]] Haxis; [eauto | eauto | simpl in Haxis; lia].
  - reflexivity.
  - repeat constructor; eauto.
  - reflexivity.
Defined.
